(** * Alphabot IA: the deterministic ingestion and query core

    A shallow embedding of the two Deno edge functions of the repository:

    - the spreadsheet normaliser ([SCHEMA_MAPPING], [normalizeHeader],
      [parseDate], [normalizeRow]) of the upload function, with its CSV
      reader ([parseCSV]) and the part of its handler that builds the
      header map, normalises the rows and detects the period;
    - the query layer ([MONTHS_PT], [parseQuery], [filterData],
      [analyzeData]) of the chat function, with the part of its handler
      that consolidates the stored rows and chooses what to send to the
      language model.

    Conventions of the embedding.

    - A JavaScript string is a [string]: each [ascii] is one UTF-16 code
      unit in the range U+0000..U+00FF (Latin-1), on which [toLowerCase],
      [trim] and the classes [\d], [\w], [\s] are the ones of
      ECMAScript.  The accented letters of the source tables are written
      with their code unit ([c_cedilla], ...).
    - A JavaScript number that holds money or a quantity ([Receita_Total],
      [Preco_Unitario], [Quantidade], the totals and ratios derived from
      them) is an IEEE 754 binary64 value: [number] is [spec_float] at
      precision 53, and [+], [-], [*], [/] are [SFadd], [SFsub], [SFmul],
      [SFdiv].
    - [parseInt] returns such a Number: the nearest one to the integer of
      the numeral it reads.
    - A JavaScript number that holds a year, a month, a quarter or a count
      ([Ano], [Mes], [Trimestre], lengths) is a [Z]: these stay far below
      2^53, where every integer is a Number.  [topN] is a [Z] too, the
      integer that its Number holds.
    - [undefined] (an absent property) is [None]; an object is a [gmap]
      from property names to values.
    - A [Map] is the list of its entries and a [Set] the list of its
      elements, both in insertion order.
    - A thrown [TypeError] is the [Throw] branch of [completion].

    The first part holds the code, module by module; the second part,
    from [Properties] on, holds what is proved about it. *)

From Stdlib Require Import ZArith List Ascii String Bool Lia.
From Stdlib Require Import Sorting.Sorted Sorting.Permutation.
From Stdlib Require Import Floats.SpecFloat DecimalString.
From stdpp Require Import gmap strings.

Import ListNotations.
Local Open Scope Z_scope.
Local Open Scope string_scope.
Local Open Scope list_scope.

(** ** Code units and the string built-ins *)

Module JS.

Definition code (c : ascii) : N := N_of_ascii c.

Definition in_range (lo hi : N) (c : ascii) : bool :=
  ((lo <=? code c) && (code c <=? hi))%N.

(** [\d] *)
Definition is_digit (c : ascii) : bool := in_range 48 57 c.

(** [[a-z]] and [[A-Z]] *)
Definition is_lower (c : ascii) : bool := in_range 97 122 c.
Definition is_upper (c : ascii) : bool := in_range 65 90 c.

(** [\w], that is [[A-Za-z0-9_]] *)
Definition is_word (c : ascii) : bool :=
  is_digit c || is_lower c || is_upper c || (code c =? 95)%N.

(** [\s] and the characters removed by [trim]: TAB, LF, VT, FF, CR, SP and
    NBSP are the white space and line terminators below U+0100. *)
Definition is_space (c : ascii) : bool :=
  in_range 9 13 c || (code c =? 32)%N || (code c =? 160)%N.

(** [String.prototype.toLowerCase] on one code unit: A-Z, and the Latin-1
    capitals U+00C0..U+00DE except the multiplication sign U+00D7. *)
Definition lower_char (c : ascii) : ascii :=
  if is_upper c || (in_range 192 222 c && negb (code c =? 215)%N)
  then ascii_of_N (code c + 32)
  else c.

Fixpoint toLowerCase (s : string) : string :=
  match s with
  | EmptyString => EmptyString
  | String c r => String (lower_char c) (toLowerCase r)
  end.

Fixpoint trimStart (s : string) : string :=
  match s with
  | String c r => if is_space c then trimStart r else s
  | EmptyString => EmptyString
  end.

(** Drops the trailing white space: a white-space character is kept only
    when something remains after it. *)
Fixpoint trimEnd (s : string) : string :=
  match s with
  | EmptyString => EmptyString
  | String c r =>
      match trimEnd r with
      | EmptyString => if is_space c then EmptyString else String c EmptyString
      | r' => String c r'
      end
  end.

Definition trim (s : string) : string := trimEnd (trimStart s).

(** [s.includes(sub)] *)
Fixpoint includes (s sub : string) : bool :=
  String.prefix sub s ||
  match s with
  | EmptyString => false
  | String _ r => includes r sub
  end.

(** [s.replace(/[^...]/g, by)] for a character class given by [keep]. *)
Fixpoint replace_outside (keep : ascii -> bool) (by_ : string) (s : string) : string :=
  match s with
  | EmptyString => EmptyString
  | String c r =>
      String.append (if keep c then String c EmptyString else by_)
                    (replace_outside keep by_ r)
  end.

(** [s.replace(c, by)] with a one-character string pattern: only the first
    occurrence is replaced. *)
Fixpoint replace_first (c : ascii) (by_ : string) (s : string) : string :=
  match s with
  | EmptyString => EmptyString
  | String d r =>
      if Ascii.eqb d c then String.append by_ r
      else String d (replace_first c by_ r)
  end.

Fixpoint all_chars (p : ascii -> bool) (s : string) : bool :=
  match s with
  | EmptyString => true
  | String c r => p c && all_chars p r
  end.

(** [s.split(sep)] for a one-character separator. *)
Fixpoint split (sep : ascii) (s : string) : list string :=
  match s with
  | EmptyString => [EmptyString]
  | String c r =>
      if Ascii.eqb c sep then EmptyString :: split sep r
      else match split sep r with
           | p :: ps => String c p :: ps
           | [] => [String c EmptyString]
           end
  end.

(** [s.padStart(2, '0')] *)
Definition padStart2 (s : string) : string :=
  match String.length s with
  | O => "00"
  | S O => String.append "0" s
  | _ => s
  end.

(** The decimal numeral of an integer, as [Number.prototype.toString]
    and template literals print it. *)
Definition Z_toString (z : Z) : string :=
  NilZero.string_of_int (Z.to_int z).

(** *** [parseInt] *)

Definition digit_value (c : ascii) : Z := Z.of_N (code c) - 48.

Definition hex_value (c : ascii) : option Z :=
  if is_digit c then Some (digit_value c)
  else if in_range 97 102 c then Some (Z.of_N (code c) - 87)
  else if in_range 65 70 c then Some (Z.of_N (code c) - 55)
  else None.

Definition radix_value (radix : Z) (c : ascii) : option Z :=
  if (radix =? 16)%Z then hex_value c
  else if is_digit c then Some (digit_value c) else None.

(** Reads the longest prefix of digits of the radix; [None] when the prefix
    is empty. [acc] is the value read so far, [seen] tells whether a digit
    was read. *)
Fixpoint read_digits (radix : Z) (acc : Z) (seen : bool) (s : string) : option Z :=
  match s with
  | EmptyString => if seen then Some acc else None
  | String c r =>
      match radix_value radix c with
      | Some d => read_digits radix (radix * acc + d) true r
      | None => if seen then Some acc else None
      end
  end.

(** The sign that [parseInt(s)] reads after the leading white space. *)
Definition parseInt_sign (s : string) : bool :=
  match trimStart s with
  | String "-" _ => true
  | _ => false
  end.

(** The integer that [parseInt(s)] reads, without a radix argument:
    leading white space is skipped, a sign is read, a [0x] or [0X] prefix
    selects radix 16, and the longest digit prefix is the numeral.  The
    result is the mathematical integer of that numeral with its sign, and
    [None] when there is no digit.  [parseInt] below turns it into a
    Number. *)
Definition parseInt_integer (s : string) : option Z :=
  let s1 := trimStart s in
  let '(neg, s2) :=
    match s1 with
    | String "-" r => (true, r)
    | String "+" r => (false, r)
    | _ => (false, s1)
    end in
  let '(radix, s3) :=
    match s2 with
    | String "0" (String "x" r) => (16, r)
    | String "0" (String "X" r) => (16, r)
    | _ => (10, s2)
    end in
  match read_digits radix 0 false s3 with
  | Some n => Some (if neg then - n else n)
  | None => None
  end.

(** ** Numbers *)

Definition number : Type := spec_float.

Definition prec : Z := 53.
Definition emax : Z := 1024.

Definition num_add : number -> number -> number := SFadd prec emax.
Definition num_sub : number -> number -> number := SFsub prec emax.
Definition num_mul : number -> number -> number := SFmul prec emax.
Definition num_div : number -> number -> number := SFdiv prec emax.

(** The number of an integer: the nearest binary64 value. *)
Definition num_of_Z (z : Z) : number := binary_normalize prec emax z 0 false.

Definition num_zero : number := S754_zero false.

(** [ToBoolean] on a number: [0], [-0] and [NaN] are falsy. *)
Definition num_truthy (x : number) : bool :=
  match x with
  | S754_zero _ | S754_nan => false
  | _ => true
  end.

(** [Number.isFinite(x)] *)
Definition is_finite (x : number) : bool :=
  match x with
  | S754_zero _ | S754_finite _ _ _ => true
  | _ => false
  end.

(** [x || 0] on a number that may be [undefined]. *)
Definition num_or0 (x : option number) : number :=
  match x with
  | Some v => if num_truthy v then v else num_zero
  | None => num_zero
  end.

(** [x || 0] on an integer that may be [undefined]. *)
Definition int_or0 (x : option Z) : Z :=
  match x with
  | Some v => v
  | None => 0
  end.

(** [parseInt(s)]: [NaN] when no digit is read, and otherwise the Number
    of the integer read, which is that integer up to 2^53, the nearest
    binary64 value beyond, and an infinity past the largest of these
    (about 1.8e308); the integer 0 keeps the sign that was read.  (ECMAScript lets an engine read a
    decimal numeral of more than 20 significant digits with the further
    digits replaced by 0; the numeral is read in full here.) *)
Definition parseInt (s : string) : number :=
  match parseInt_integer s with
  | Some n => binary_normalize prec emax n 0 (parseInt_sign s)
  | None => S754_nan
  end.

(** The integer that a Number holds, when it holds one
    ([Number.isInteger]). *)
Definition integer_of (x : number) : option Z :=
  match x with
  | S754_zero _ => Some 0
  | S754_finite s m e =>
      if (0 <=? e)%Z then Some (cond_Zopp s (Zpos m * 2 ^ e))
      else if (Zpos m mod 2 ^ (- e) =? 0)%Z
           then Some (cond_Zopp s (Zpos m / 2 ^ (- e)))
           else None
  | _ => None
  end.

(** [x > 0] *)
Definition num_pos (x : number) : bool := SFltb num_zero x.

(** *** [parseFloat] on the cleaned price strings

    The argument of [parseFloat] in [normalizeRow] only holds digits, [.]
    and [,]: the result is the longest prefix [digits], [digits.digits],
    [digits.] or [.digits], correctly rounded, and [NaN] when that prefix
    has no digit. *)

Fixpoint read_decimal (acc : Z) (n : nat) (s : string) : Z * nat * string :=
  match s with
  | String c r =>
      if is_digit c then read_decimal (10 * acc + digit_value c) (S n) r
      else (acc, n, s)
  | EmptyString => (acc, n, s)
  end.

(** The binary64 value nearest to [m / 10^k]. *)
Definition num_of_decimal (m : Z) (k : nat) : number :=
  match m with
  | Zpos p =>
      SFdiv prec emax (S754_finite false p 0)
                      (S754_finite false (Z.to_pos (10 ^ Z.of_nat k)) 0)
  | _ => num_zero
  end.

Definition parseFloat (s : string) : number :=
  let '(ip, ni, rest) := read_decimal 0 0 s in
  match rest with
  | String "." r =>
      let '(all, nf, _) := read_decimal ip 0 r in
      match ni, nf with
      | O, O => S754_nan
      | _, O => num_of_Z ip
      | _, _ => num_of_decimal all nf
      end
  | _ => match ni with O => S754_nan | _ => num_of_Z ip end
  end.

(** [x.toFixed(2)]. A non-finite [x] prints as [Number::toString] does.
    A finite [x] of magnitude below 10^21 prints the integer [n] nearest to
    [100 * |x|] (the larger one on a tie) with a point before its last two
    digits.  From 10^21 on the result is [Number::toString] of the
    magnitude, which is left to the parameter [NumberToString]. *)
Definition round_half_up_scaled (m : positive) (e : Z) : Z :=
  match e with
  | Zneg p => (2 * (Zpos m * 100) + Z.pow_pos 2 p) / (2 * Z.pow_pos 2 p)
  | _ => Zpos m * 100 * 2 ^ e
  end.

Definition at_least_1e21 (m : positive) (e : Z) : bool :=
  match e with
  | Zneg p => (10 ^ 21 * Z.pow_pos 2 p <=? Zpos m)%Z
  | _ => (10 ^ 21 <=? Zpos m * 2 ^ e)%Z
  end.

Definition fixed2_digits (n : Z) : string :=
  let m := Z_toString n in
  let m := match String.length m with
           | O => "000"
           | S O => String.append "00" m
           | S (S O) => String.append "0" m
           | _ => m
           end in
  let k := String.length m in
  String.append (substring 0 (k - 2) m)
    (String.append "." (substring (k - 2) 2 m)).

Definition toFixed2 (NumberToString : number -> string) (x : number) : string :=
  match x with
  | S754_nan => "NaN"
  | S754_infinity false => "Infinity"
  | S754_infinity true => "-Infinity"
  | S754_zero _ => "0.00"
  | S754_finite s m e =>
      String.append (if s then "-" else "")
        (if at_least_1e21 m e then NumberToString (S754_finite false m e)
         else fixed2_digits (round_half_up_scaled m e))
  end.

(** ** Arrays, [Set] and [Map] *)

Section Collections.
Context {A : Type}.

(** [arr.sort(compareFn)]: the sort is stable, so for a consistent
    comparator the result is the one of insertion sort; [after a b] is
    [compareFn(a, b) > 0].  (A comparator that answers [NaN] is not
    consistent, and ECMAScript then leaves the order to the engine.) *)
Fixpoint sort_insert (after : A -> A -> bool) (x : A) (l : list A) : list A :=
  match l with
  | [] => [x]
  | y :: r => if after x y then y :: sort_insert after x r else x :: y :: r
  end.

Fixpoint Array_sort (after : A -> A -> bool) (l : list A) : list A :=
  match l with
  | [] => []
  | x :: r => sort_insert after x (Array_sort after r)
  end.

(** [arr.slice(0, n)] for an integer [n]: a negative [n] counts from the
    end. *)
Definition slice0 (n : Z) (l : list A) : list A :=
  if (n <? 0)%Z then firstn (Z.to_nat (Z.max (Z.of_nat (List.length l) + n) 0)) l
  else firstn (Z.to_nat n) l.

Context `{EqDecision A}.

(** [[...new Set(arr)]]: the distinct elements in the order of their
    first occurrence. *)
Fixpoint Set_values (l : list A) : list A :=
  match l with
  | [] => []
  | x :: r => x :: List.filter (fun y => negb (bool_decide (y = x))) (Set_values r)
  end.

(** [arr.includes(x)] *)
Definition Array_includes (l : list A) (x : A) : bool :=
  existsb (fun y => bool_decide (y = x)) l.
End Collections.

Section OrderedMap.
Context {K V : Type} `{EqDecision K}.

(** A [Map] is the list of its entries in insertion order. *)
Fixpoint Map_get (m : list (K * V)) (k : K) : option V :=
  match m with
  | [] => None
  | (k', v) :: rest => if bool_decide (k' = k) then Some v else Map_get rest k
  end.

Definition Map_has (m : list (K * V)) (k : K) : bool :=
  match Map_get m k with Some _ => true | None => false end.

(** [m.set(k, v)]: an existing key keeps its position. *)
Fixpoint Map_set (m : list (K * V)) (k : K) (v : V) : list (K * V) :=
  match m with
  | [] => [(k, v)]
  | (k', v') :: rest =>
      if bool_decide (k' = k) then (k', v) :: rest
      else (k', v') :: Map_set rest k v
  end.
End OrderedMap.

(** A normal completion, or a thrown [TypeError]. *)
Inductive completion (A : Type) : Type :=
  | Normal (a : A)
  | Throw (message : string).
Arguments Normal {A} a.
Arguments Throw {A} message.

End JS.

(** ** The spreadsheet normaliser (upload function) *)

Module Normalizer.
Import JS.

(** [SCHEMA_MAPPING], in the order of its keys. *)
Definition SCHEMA_MAPPING : list (string * list string) :=
  [ ("Data", ["data"; "date"; "fecha"; "datum"]);
    ("ID_Transacao", ["id_transacao"; "id"; "transacao"; "transaction_id"; "id_venda"]);
    ("Produto", ["produto"; "product"; "item"; "articulo"]);
    ("Categoria", ["categoria"; "category"; "tipo"; "type"]);
    ("Regiao", ["regiao"; "region"; "area"; "estado"; "state"]);
    ("Quantidade", ["quantidade"; "qtd"; "quantity"; "qty"; "unidades"]);
    ("Preco_Unitario", ["preco_unitario"; "preco"; "price"; "unit_price"; "valor_unitario"]);
    ("Receita_Total", ["receita_total"; "valor_total"; "total"; "revenue"; "receita"]) ].

(** [[a-z0-9_]] *)
Definition is_header_char (c : ascii) : bool :=
  is_lower c || is_digit c || (code c =? 95)%N.

Definition clean_header (header : string) : string :=
  replace_outside is_header_char "_" (trim (toLowerCase header)).

(** The [for ... of Object.entries(SCHEMA_MAPPING)] loop: the first entry
    one of whose variants occurs in [cleaned] returns its key. *)
Fixpoint first_standard (cleaned : string) (table : list (string * list string))
  : option string :=
  match table with
  | [] => None
  | (standard, variants) :: rest =>
      if existsb (fun v => includes cleaned v) variants then Some standard
      else first_standard cleaned rest
  end.

Definition normalizeHeader (header : string) : string :=
  match first_standard (clean_header header) SCHEMA_MAPPING with
  | Some standard => standard
  | None => header
  end.

(** The result of [parseDate]: [{ date, year, month }]. *)
Record ParsedDate : Type := mkParsedDate {
  date : string;
  year : Z;
  month : Z
}.

Definition digits_between (lo hi : nat) (s : string) : bool :=
  all_chars is_digit s &&
  (Nat.leb lo (String.length s) && Nat.leb (String.length s) hi).

(** [parseInt] of a capture group, which holds one to four digits: the
    Number is the integer of the numeral itself. *)
Definition group_value (s : string) : Z := int_or0 (parseInt_integer s).

(** [str.match(/^(\d{4})-(\d{1,2})-(\d{1,2})$/)]: the three groups. *)
Definition match_ymd (str : string) : option (string * string * string) :=
  match split "-" str with
  | [y; m; d] =>
      if digits_between 4 4 y && digits_between 1 2 m && digits_between 1 2 d
      then Some (y, m, d) else None
  | _ => None
  end.

(** [str.match(/^(\d{1,2})\/(\d{1,2})\/(\d{4})$/)]: the three groups. *)
Definition match_dmy (str : string) : option (string * string * string) :=
  match split "/" str with
  | [g1; g2; g3] =>
      if digits_between 1 2 g1 && digits_between 1 2 g2 && digits_between 4 4 g3
      then Some (g1, g2, g3) else None
  | _ => None
  end.

(** The two attempts of [parseDate] on the trimmed string. *)
Definition parse_trimmed (str : string) : option ParsedDate :=
  match match_ymd str with
  | Some (y, m, d) =>
      Some (mkParsedDate
              (String.append y (String.append "-"
                 (String.append (padStart2 m) (String.append "-" (padStart2 d)))))
              (group_value y) (group_value m))
  | None =>
      match match_dmy str with
      | Some (g1, g2, g3) =>
          let d1 := group_value g1 in
          let d2 := group_value g2 in
          let year := group_value g3 in
          let '(day, month) := if (12 <? d1)%Z then (d1, d2) else (d2, d1) in
          Some (mkParsedDate
                  (String.append (Z_toString year) (String.append "-"
                     (String.append (padStart2 (Z_toString month))
                        (String.append "-" (padStart2 (Z_toString day))))))
                  year month)
      | None => None
      end
  end.

(** [if (!dateStr) return null] answers [undefined] and the empty string. *)
Definition parseDate (dateStr : option string) : option ParsedDate :=
  match dateStr with
  | None => None
  | Some raw => if String.eqb raw "" then None else parse_trimmed (trim raw)
  end.

(** A property value of a normalised row: a raw cell passed through, an
    integer of a date, or a Number. *)
Inductive value : Type :=
  | VStr (s : string)
  | VInt (z : Z)
  | VNum (x : number).

(** [ToBoolean] of a property that may be absent. *)
Definition truthy (v : option value) : bool :=
  match v with
  | None => false
  | Some (VStr s) => negb (String.eqb s "")
  | Some (VInt z) => negb (z =? 0)%Z
  | Some (VNum x) => num_truthy x
  end.

(** [ToNumber] of a numeric property. *)
Definition to_number (v : value) : number :=
  match v with
  | VNum x => x
  | VInt z => num_of_Z z
  | VStr _ => S754_nan
  end.

(** [String(value)] of a raw cell that may be [undefined]. *)
Definition String_of (v : option string) : string :=
  match v with
  | Some s => s
  | None => "undefined"
  end.

(** [[0-9.,]] *)
Definition is_price_char (c : ascii) : bool :=
  is_digit c || (code c =? 46)%N || (code c =? 44)%N.

Definition clean_price (v : option string) : string :=
  replace_first "," "." (replace_outside is_price_char "" (String_of v)).

(** [Math.ceil(month / 3)] *)
Definition ceil_div3 (m : Z) : Z := - ((- m) / 3).

(** The body of the [for ... of headerMap.entries()] loop.  A property
    set to [undefined] reads like an absent one and is not stored: it is
    deleted. *)
Definition normalize_entry (row : gmap string string)
    (normalized : gmap string value) (entry : string * string)
  : gmap string value :=
  let '(original, standard) := entry in
  let cell := row !! original in
  if String.eqb standard "Data" then
    match parseDate cell with
    | Some parsed =>
        <["Trimestre" := VInt (ceil_div3 (month parsed))]>
          (<["Mes" := VInt (month parsed)]>
             (<["Ano" := VInt (year parsed)]>
                (<["Data" := VStr (date parsed)]> normalized)))
    | None => normalized
    end
  else if String.eqb standard "Quantidade" then
    let n := parseInt (String_of cell) in
    <["Quantidade" := VNum (if num_truthy n then n else num_zero)]> normalized
  else if String.eqb standard "Preco_Unitario" || String.eqb standard "Receita_Total" then
    let x := parseFloat (clean_price cell) in
    <[standard := VNum (if num_truthy x then x else num_zero)]> normalized
  else
    match cell with
    | Some raw => <[standard := VStr raw]> normalized
    | None => delete standard normalized
    end.

(** [normalizeRow(row, headerMap)]; [headerMap] is given by its entries in
    insertion order. *)
Definition normalizeRow (row : gmap string string) (headerMap : list (string * string))
  : gmap string value :=
  let normalized := fold_left (normalize_entry row) headerMap ∅ in
  if negb (truthy (normalized !! "Receita_Total"))
     && truthy (normalized !! "Quantidade")
     && truthy (normalized !! "Preco_Unitario")
  then
    match normalized !! "Quantidade", normalized !! "Preco_Unitario" with
    | Some q, Some p =>
        <["Receita_Total" := VNum (num_mul (to_number q) (to_number p))]> normalized
    | _, _ => normalized
    end
  else normalized.

(** [headerMap.set(h, normalizeHeader(h))] for each header: a repeated
    header keeps its first position. *)
Definition build_headerMap (headers : list string) : list (string * string) :=
  fold_left (fun m h => Map_set m h (normalizeHeader h)) headers [].

End Normalizer.

(** ** The query layer (chat function) *)

Module Query.
Import JS.

(** The Latin-1 letters of the source tables. *)
Definition a_tilde : ascii := ascii_of_N 227.
Definition c_cedilla : ascii := ascii_of_N 231.
Definition e_acute : ascii := ascii_of_N 233.

Definition marco : string := String.append "mar" (String c_cedilla "o").
Definition preco_cedilha : string := String.append "pre" (String c_cedilla "o").
Definition media_acento : string := String.append "m" (String e_acute "dia").
Definition variacao_til : string :=
  String.append "varia" (String c_cedilla (String a_tilde "o")).
Definition comparacao_til : string :=
  String.append "compara" (String c_cedilla (String a_tilde "o")).

(** [MONTHS_PT], in the order of its keys. *)
Definition MONTHS_PT : list (string * Z) :=
  [ ("janeiro", 1); ("jan", 1);
    ("fevereiro", 2); ("fev", 2);
    (marco, 3); ("mar", 3);
    ("abril", 4); ("abr", 4);
    ("maio", 5); ("mai", 5);
    ("junho", 6); ("jun", 6);
    ("julho", 7); ("jul", 7);
    ("agosto", 8); ("ago", 8);
    ("setembro", 9); ("set", 9);
    ("outubro", 10); ("out", 10);
    ("novembro", 11); ("nov", 11);
    ("dezembro", 12); ("dez", 12) ].

Record QueryContext : Type := mkQueryContext {
  years : list Z;
  months : list Z;
  produtos : list string;
  categorias : list string;
  regioes : list string;
  metrics : list string;
  comparison : bool;
  topN : option Z
}.

(** A stored row, as the query functions read it: every property may be
    absent. *)
Record Row : Type := mkRow {
  Ano : option Z;
  Mes : option Z;
  Produto : option string;
  Categoria : option string;
  Regiao : option string;
  Quantidade : option number;
  Receita_Total : option number
}.

(** *** The regular expressions of [parseQuery] *)

(** [s] starts with [w]: what follows it. *)
Fixpoint strip_prefix (w s : string) : option string :=
  match w, s with
  | EmptyString, _ => Some s
  | String a w', String b s' => if Ascii.eqb a b then strip_prefix w' s' else None
  | String _ _, EmptyString => None
  end.

Definition starts_word (s : string) : bool :=
  match s with
  | String c _ => is_word c
  | EmptyString => false
  end.

(** [\b] between a position whose previous character is a word character
    or not ([prev]) and the rest [s]. *)
Definition boundary (prev : bool) (s : string) : bool := xorb prev (starts_word s).

Fixpoint ends_word (prev : bool) (w : string) : bool :=
  match w with
  | EmptyString => prev
  | String c r => ends_word (is_word c) r
  end.

(** [/\b(20\d{2})\b/] at one position. *)
Definition year_at (prev : bool) (s : string) : option Z :=
  match s with
  | String "2" (String "0" (String d1 (String d2 rest))) =>
      if boundary prev s && is_digit d1 && is_digit d2 && boundary true rest
      then parseInt_integer (String "2" (String "0" (String d1 (String d2 EmptyString))))
      else None
  | _ => None
  end.

(** [query.match(/\b(20\d{2})\b/g)], already mapped through [parseInt],
    which is exact on the four digits of a match:
    a match cannot start inside another one, whose characters are all word
    characters, so every position is tried. *)
Fixpoint year_matches (prev : bool) (s : string) : list Z :=
  match s with
  | EmptyString => []
  | String c r =>
      match year_at prev s with
      | Some y => y :: year_matches (is_word c) r
      | None => year_matches (is_word c) r
      end
  end.

(** [/\b(w1|w2|...)\b/] at one position. *)
Definition word_at (alts : list string) (prev : bool) (s : string) : bool :=
  boundary prev s &&
  existsb (fun w => match strip_prefix w s with
                    | Some rest => boundary (ends_word prev w) rest
                    | None => false
                    end) alts.

(** [lower.match(/\b(w1|w2|...)\b/)] as a test. *)
Fixpoint test_word (alts : list string) (prev : bool) (s : string) : bool :=
  word_at alts prev s ||
  match s with
  | EmptyString => false
  | String c r => test_word alts (is_word c) r
  end.

Fixpoint skip_spaces (s : string) : string :=
  match s with
  | String c r => if is_space c then skip_spaces r else s
  | EmptyString => EmptyString
  end.

Fixpoint take_digits (s : string) : string :=
  match s with
  | String c r => if is_digit c then String c (take_digits r) else EmptyString
  | EmptyString => EmptyString
  end.

(** [/\b(top|maior|melhor|principal)\s*(\d+)/] at one position: the second
    group. *)
Fixpoint top_alt (alts : list string) (s : string) : option string :=
  match alts with
  | [] => None
  | w :: more =>
      match strip_prefix w s with
      | Some rest =>
          match take_digits (skip_spaces rest) with
          | EmptyString => top_alt more s
          | ds => Some ds
          end
      | None => top_alt more s
      end
  end.

Definition top_at (prev : bool) (s : string) : option string :=
  if boundary prev s then top_alt ["top"; "maior"; "melhor"; "principal"] s else None.

(** The leftmost match. *)
Fixpoint top_match (prev : bool) (s : string) : option string :=
  match top_at prev s with
  | Some ds => Some ds
  | None =>
      match s with
      | EmptyString => None
      | String c r => top_match (is_word c) r
      end
  end.

(** *** [parseQuery] *)

(** The month loop: [if (lower.includes(name)) if (!months.includes(num))
    months.push(num)]. *)
Definition add_month (lower : string) (ms : list Z) (entry : string * Z) : list Z :=
  let '(name, num) := entry in
  if includes lower name then
    if Array_includes ms num then ms else ms ++ [num]
  else ms.

(** [[...new Set(allData.map(field).filter(Boolean))]] *)
Definition unique_entities (field : Row -> option string) (allData : list Row)
  : list string :=
  Set_values
    (List.filter (fun v => negb (String.eqb v ""))
       (omap field allData)).

(** [unique.forEach(p => { if (lower.includes(p.toLowerCase())) acc.push(p) })] *)
Definition mentioned (lower : string) (names : list string) : list string :=
  List.filter (fun p => includes lower (toLowerCase p)) names.

Definition quantidade_terms : list string := ["quantidade"; "qtd"; "unidades"; "volume"].
Definition receita_terms : list string := ["receita"; "valor"; "faturamento"; "vendas"].
Definition preco_terms : list string :=
  [preco_cedilha; "preco"; media_acento; "medio"; "ticket"].
Definition comparison_terms : list string :=
  ["crescimento"; variacao_til; "variacao"; comparacao_til; "comparacao"; "vs"; "versus"].

(** [topN] is [parseInt] of the digits matched: the integer that this
    Number holds.  Digits whose value is past the binary64 range give
    [Infinity], which holds no integer; the integer written is kept for
    it, as the code only tests [topN] against 0 and passes it to [slice],
    which takes the whole array for both. *)
Definition parseQuery (query : string) (allData : list Row) : QueryContext :=
  let lower := toLowerCase query in
  {| years := year_matches false query;
     months := fold_left (add_month lower) MONTHS_PT [];
     produtos := mentioned lower (unique_entities Produto allData);
     categorias := mentioned lower (unique_entities Categoria allData);
     regioes := mentioned lower (unique_entities Regiao allData);
     metrics :=
       (if test_word quantidade_terms false lower then ["quantidade"] else []) ++
       (if test_word receita_terms false lower then ["receita"] else []) ++
       (if test_word preco_terms false lower then ["preco_medio"] else []);
     comparison := test_word comparison_terms false lower;
     topN := match top_match false lower with
             | Some ds =>
                 match integer_of (parseInt ds) with
                 | Some n => Some n
                 | None => parseInt_integer ds
                 end
             | None => None
             end |}.

(** *** [filterData] *)

(** [list.includes(row.field)] for a property that may be absent: an
    absent property is in no list of numbers or strings. *)
Definition includes_field {A : Type} `{EqDecision A} (l : list A) (v : option A) : bool :=
  match v with
  | Some x => Array_includes l x
  | None => false
  end.

Definition nonempty {A : Type} (l : list A) : bool :=
  match l with [] => false | _ => true end.

(** The callback of [data.filter]. *)
Definition keep_row (context : QueryContext) (row : Row) : bool :=
  if nonempty (years context) && negb (includes_field (years context) (Ano row)) then false
  else if nonempty (months context) && negb (includes_field (months context) (Mes row)) then false
  else if nonempty (produtos context) && negb (includes_field (produtos context) (Produto row)) then false
  else if nonempty (categorias context) && negb (includes_field (categorias context) (Categoria row)) then false
  else if nonempty (regioes context) && negb (includes_field (regioes context) (Regiao row)) then false
  else true.

Definition filterData (data : list Row) (context : QueryContext) : list Row :=
  List.filter (keep_row context) data.

(** *** [analyzeData] *)

(** One element of [analysis.grupos]. *)
Module Grupo.
Record t : Type := mk {
  nome : string;
  receita_total : number;
  quantidade_total : number;
  ticket_medio : number
}.
End Grupo.

(** The accumulator of one group: [{ receita, quantidade, count }]. *)
Record GroupStats : Type := mkGroupStats {
  receita : number;
  quantidade : number;
  count : Z
}.

(** The accumulator of one month: [{ receita, quantidade }]. *)
Record MonthStats : Type := mkMonthStats {
  m_receita : number;
  m_quantidade : number
}.

(** One element of [analysis.evolucao_mensal]: [{ mes, receita,
    quantidade }]. *)
Module Mensal.
Record t : Type := mk {
  mes : string;
  receita : number;
  quantidade : number
}.
End Mensal.

(** [analysis.variacao_mensal] *)
Record Variacao : Type := mkVariacao {
  crescimento_pct : string;
  periodo_anterior : string;
  periodo_atual : string
}.

Record AnalysisResult : Type := mkAnalysis {
  total_registros : Z;
  receita_total : number;
  quantidade_total : number;
  ticket_medio : number;
  periodo_analizado : string;
  grupos : list Grupo.t;
  grupo_por : option string;
  variacao_mensal : option Variacao;
  evolucao_mensal : option (list Mensal.t);
  erro : option string
}.

Definition erro_sem_dados : string :=
  "Nenhum dado encontrado para os filtros especificados".

(** The [forEach] that sums the totals. *)
Definition add_totals (acc : number * number) (row : Row) : number * number :=
  (num_add (fst acc) (num_or0 (Receita_Total row)),
   num_add (snd acc) (num_or0 (Quantidade row))).

(** [arr.sort()] on years or months: [undefined] goes last, the others are
    compared by their strings. *)
Definition default_after (a b : option Z) : bool :=
  match a, b with
  | None, Some _ => true
  | Some x, Some y => String.ltb (Z_toString y) (Z_toString x)
  | _, _ => false
  end.

(** [Object.keys(MONTHS_PT).find(k => MONTHS_PT[k] === mes)] *)
Definition find_month_key (mes : option Z) : option string :=
  match mes with
  | Some m =>
      match List.find (fun e => (snd e =? m)%Z) MONTHS_PT with
      | Some e => Some (fst e)
      | None => None
      end
  | None => None
  end.

(** A year or month inside a template literal. *)
Definition show (v : option Z) : string :=
  match v with
  | Some z => Z_toString z
  | None => "undefined"
  end.

Definition periodo (data : list Row) : string :=
  let years := Array_sort default_after (Set_values (map Ano data)) in
  let months := Array_sort default_after (Set_values (map Mes data)) in
  if (List.length years =? 1)%nat && (List.length months =? 1)%nat then
    let monthName := match find_month_key (hd None months) with
                     | Some k => k
                     | None => show (hd None months)
                     end in
    String.append monthName (String.append "/" (show (hd None years)))
  else if (List.length years =? 1)%nat then show (hd None years)
  else String.append (show (hd None years))
         (String.append " a " (show (List.last years None))).

(** [context.topN] as a condition: [null] and [0] are falsy. *)
Definition topN_truthy (context : QueryContext) : bool :=
  match topN context with
  | Some n => negb (n =? 0)%Z
  | None => false
  end.

Definition groupBy_of (context : QueryContext) : string :=
  if negb (nonempty (produtos context)) then "Produto"
  else if negb (nonempty (categorias context)) then "Categoria"
  else "Regiao".

(** [row[groupBy]] *)
Definition get_field (groupBy : string) (row : Row) : option string :=
  if String.eqb groupBy "Produto" then Produto row
  else if String.eqb groupBy "Categoria" then Categoria row
  else if String.eqb groupBy "Regiao" then Regiao row
  else None.

(** [row[groupBy] || 'Outros'] *)
Definition group_key (groupBy : string) (row : Row) : string :=
  match get_field groupBy row with
  | Some v => if String.eqb v "" then "Outros" else v
  | None => "Outros"
  end.

(** The body of the grouping [forEach]. *)
Definition add_to_group (groupBy : string) (groups : list (string * GroupStats))
    (row : Row) : list (string * GroupStats) :=
  let key := group_key groupBy row in
  let groups :=
    if negb (Map_has groups key) then Map_set groups key (mkGroupStats num_zero num_zero 0)
    else groups in
  match Map_get groups key with
  | Some g =>
      Map_set groups key
        (mkGroupStats (num_add (receita g) (num_or0 (Receita_Total row)))
                      (num_add (quantidade g) (num_or0 (Quantidade row)))
                      (count g + 1))
  | None => groups
  end.

Definition to_grupo (entry : string * GroupStats) : Grupo.t :=
  let '(nome, stats) := entry in
  Grupo.mk nome (receita stats) (quantidade stats)
           (num_div (receita stats) (num_of_Z (count stats))).

(** [(a, b) => b.receita_total - a.receita_total] is positive. *)
Definition grupo_after (a b : Grupo.t) : bool :=
  num_pos (num_sub (Grupo.receita_total b) (Grupo.receita_total a)).

Definition sorted_groups (groupBy : string) (data : list Row) : list Grupo.t :=
  Array_sort grupo_after
    (map to_grupo (fold_left (add_to_group groupBy) data [])).

(** The body of the monthly [forEach]. *)
Definition add_to_month (byMonth : list (option Z * MonthStats)) (row : Row)
  : list (option Z * MonthStats) :=
  let key := Mes row in
  let byMonth :=
    if negb (Map_has byMonth key) then Map_set byMonth key (mkMonthStats num_zero num_zero)
    else byMonth in
  match Map_get byMonth key with
  | Some m =>
      Map_set byMonth key
        (mkMonthStats (num_add (m_receita m) (num_or0 (Receita_Total row)))
                      (num_add (m_quantidade m) (num_or0 (Quantidade row))))
  | None => byMonth
  end.

(** The callback of [entries.map]: [mes.toString()] is reached when no key
    of [MONTHS_PT] has the value [mes], and throws on [undefined]. *)
Definition to_mensal (entry : option Z * MonthStats) : completion Mensal.t :=
  let '(mes, stats) := entry in
  match find_month_key mes with
  | Some k => Normal (Mensal.mk k (m_receita stats) (m_quantidade stats))
  | None =>
      match mes with
      | Some m => Normal (Mensal.mk (Z_toString m) (m_receita stats) (m_quantidade stats))
      | None => Throw "Cannot read properties of undefined (reading 'toString')"
      end
  end.

(** [arr.map(f)] for a callback that may throw. *)
Fixpoint map_completion {A B : Type} (f : A -> completion B) (l : list A)
  : completion (list B) :=
  match l with
  | [] => Normal []
  | x :: r =>
      match f x with
      | Throw e => Throw e
      | Normal y =>
          match map_completion f r with
          | Throw e => Throw e
          | Normal ys => Normal (y :: ys)
          end
      end
  end.

(** [MONTHS_PT[mes.toLowerCase()] || parseInt(mes)], where [mes] is a key
    of [MONTHS_PT] or the numeral of a month number, which [parseInt]
    reads back; [None] is [NaN]. *)
Definition month_number (mes : string) : option Z :=
  match Map_get MONTHS_PT (toLowerCase mes) with
  | Some n => if (n =? 0)%Z then parseInt_integer mes else Some n
  | None => parseInt_integer mes
  end.

(** [(a, b) => aNum - bNum] is positive. *)
Definition mensal_after (a b : Mensal.t) : bool :=
  match month_number (Mensal.mes a), month_number (Mensal.mes b) with
  | Some x, Some y => (0 <? x - y)%Z
  | _, _ => false
  end.

Section Analyze.
(** [Number::toString], reached by [toFixed] from 10^21 on. *)
Variable NumberToString : number -> string.

Definition growth_of (last prev : Mensal.t) : Variacao :=
  let growth :=
    num_mul (num_div (num_sub (Mensal.receita last) (Mensal.receita prev))
                     (Mensal.receita prev))
            (num_of_Z 100) in
  mkVariacao (toFixed2 NumberToString growth) (Mensal.mes prev) (Mensal.mes last).

(** [monthlyData[monthlyData.length - 1]] and [[... - 2]], when
    [monthlyData.length >= 2]. *)
Definition variacao_of (monthlyData : list Mensal.t) : option Variacao :=
  match rev monthlyData with
  | last :: prev :: _ => Some (growth_of last prev)
  | _ => None
  end.

Definition analyzeData (data : list Row) (context : QueryContext)
  : completion AnalysisResult :=
  match data with
  | [] =>
      Normal (mkAnalysis 0 num_zero num_zero num_zero "" [] None None None
                         (Some erro_sem_dados))
  | _ =>
      let '(receita_total, quantidade_total) :=
        fold_left add_totals data (num_zero, num_zero) in
      let ticket_medio :=
        num_div receita_total (num_of_Z (Z.of_nat (List.length data))) in
      let months := Array_sort default_after (Set_values (map Mes data)) in
      let '(grupos, grupo_por) :=
        if topN_truthy context || comparison context then
          let groupBy := groupBy_of context in
          let sorted := sorted_groups groupBy data in
          (match topN context with
           | Some n => if (n =? 0)%Z then sorted else slice0 n sorted
           | None => sorted
           end, Some groupBy)
        else ([], None) in
      let analysis :=
        mkAnalysis (Z.of_nat (List.length data)) receita_total quantidade_total
                   ticket_medio (periodo data) grupos grupo_por in
      if comparison context && (1 <? List.length months)%nat then
        match map_completion to_mensal (fold_left add_to_month data []) with
        | Throw e => Throw e
        | Normal entries =>
            let monthlyData := Array_sort mensal_after entries in
            Normal (analysis (variacao_of monthlyData) (Some monthlyData) None)
        end
      else Normal (analysis None None None)
  end.
End Analyze.

End Query.

(** ** The stored rows

    The upload function inserts the normalised objects into the [rows]
    column and the chat function reads them back as JSON.  [read_row] is
    the row that [filterData] then sees.  JSON has no [Infinity] or [NaN]:
    such a number is stored as [null].  [Ano] and [Mes] are compared with
    the numbers of the context by [includes], which never equates a string
    and a number: for the filter a property of another kind than the one
    read here counts as absent.  (The other functions of the chat handler
    would read a string left under [Ano] or [Mes] by a column of that very
    name as it is; they are stated on rows, not on what is read here.) *)

Module Storage.
Import JS Normalizer Query.

Definition int_field (o : gmap string value) (k : string) : option Z :=
  match o !! k with
  | Some (VInt z) => Some z
  | _ => None
  end.

Definition str_field (o : gmap string value) (k : string) : option string :=
  match o !! k with
  | Some (VStr s) => Some s
  | _ => None
  end.

Definition num_field (o : gmap string value) (k : string) : option number :=
  match o !! k with
  | Some (VNum x) => if is_finite x then Some x else None
  | Some (VInt z) => Some (num_of_Z z)
  | _ => None
  end.

Definition read_row (o : gmap string value) : Row :=
  {| Ano := int_field o "Ano";
     Mes := int_field o "Mes";
     Produto := str_field o "Produto";
     Categoria := str_field o "Categoria";
     Regiao := str_field o "Regiao";
     Quantidade := num_field o "Quantidade";
     Receita_Total := num_field o "Receita_Total" |}.

End Storage.

(** ** Joining strings *)

Module Text.

(** [arr.join(sep)] *)
Fixpoint join (sep : string) (l : list string) : string :=
  match l with
  | [] => EmptyString
  | s :: r =>
      match r with
      | [] => s
      | _ :: _ => String.append s (String.append sep (join sep r))
      end
  end.

End Text.

(** ** The CSV reader (upload function) *)

Module Csv.
Import JS.

(** U+000A, the separator of [text.split('\n')]. *)
Definition line_feed : ascii := ascii_of_N 10.

(** The class of the two quote characters, U+0022 and U+0027. *)
Definition is_quote (c : ascii) : bool := (code c =? 34)%N || (code c =? 39)%N.

(** Drops the last character when it is a quote: the second alternative
    of the pattern, a quote before the end. *)
Fixpoint drop_last_quote (s : string) : string :=
  match s with
  | EmptyString => EmptyString
  | String c r =>
      match r with
      | EmptyString => if is_quote c then EmptyString else s
      | String _ _ => String c (drop_last_quote r)
      end
  end.

(** The global replacement by the empty string of a quote at the start or
    a quote at the end: a quote at the start is removed, and so is a quote
    at the end of what follows the first match. *)
Definition strip_quotes (s : string) : string :=
  match s with
  | String c r => if is_quote c then drop_last_quote r else drop_last_quote s
  | EmptyString => EmptyString
  end.

(** [line.split(',')], each piece trimmed and then stripped of its
    quotes. *)
Definition cells (line : string) : list string :=
  map (fun v => strip_quotes (trim v)) (split "," line).

(** [row[header] = value] on a plain object: the name [__proto__] reaches
    the setter of [Object.prototype], which ignores a string, and no
    property is created. *)
Definition set_property (row : gmap string string) (header value : string)
  : gmap string string :=
  if String.eqb header "__proto__" then row else <[header := value]> row.

(** [headers.forEach((header, index) => { row[header] = values[index] })],
    which runs when [values.length === headers.length]. *)
Definition row_object (headers values : list string) : gmap string string :=
  fold_left (fun row cell => set_property row (fst cell) (snd cell))
            (combine headers values) ∅.

(** [metadata.period] *)
Record Period : Type := mkPeriod {
  year : option Z;
  month : option Z
}.

Record Metadata : Type := mkMetadata {
  fileName : string;
  rowCount : Z;
  period : Period
}.

Record ParsedData : Type := mkParsedData {
  headers : list string;
  rows : list (gmap string string);
  summary : string;
  metadata : Metadata
}.

(** [text.split('\n').filter(line => line.trim())] *)
Definition lines_of (text : string) : list string :=
  List.filter (fun line => negb (String.eqb (trim line) "")) (split line_feed text).

(** The [for] loop over the lines after the first. *)
Definition data_rows (headers : list string) (lines : list string)
  : list (gmap string string) :=
  flat_map (fun line =>
              let values := cells line in
              if (List.length values =? List.length headers)%nat
              then [row_object headers values] else [])
           lines.

Definition parseCSV (name text : string) : completion ParsedData :=
  match lines_of text with
  | [] => Throw "Arquivo vazio"
  | first :: rest =>
      let headers := cells first in
      let rows := data_rows headers rest in
      let n := Z.of_nat (List.length rows) in
      Normal (mkParsedData headers rows
                (String.append (Z_toString n) " linhas")
                (mkMetadata name n (mkPeriod None None)))
  end.

End Csv.

(** ** The upload handler, from the parsed file to the stored rows *)

Module Upload.
Import JS Normalizer.

(** [parsedData.rows.map(row => normalizeRow(row, headerMap))] *)
Definition normalizedRows (parsed : Csv.ParsedData) : list (gmap string value) :=
  let headerMap := build_headerMap (Csv.headers parsed) in
  map (fun row => normalizeRow row headerMap) (Csv.rows parsed).

(** [row.Ano] and [row.Mes] as the detection loop reads them.  The loop
    is written for numbers ([let minYear: number | null]); a raw string
    left under [Ano] or [Mes] by a column of that very name would be
    compared by the relational comparison of ECMAScript on strings, which
    this development does not cover: [Other]. *)
Inductive reading : Type :=
  | Falsy
  | Truthy (z : Z)
  | Other.

Definition read (v : option value) : reading :=
  match v with
  | None => Falsy
  | Some (VInt z) => if (z =? 0)%Z then Falsy else Truthy z
  | Some (VStr s) => if String.eqb s "" then Falsy else Other
  | Some (VNum x) => if num_truthy x then Other else Falsy
  end.

(** The pair [(min, max)], both [null] at first. *)
Definition Range : Type := (option Z * option Z)%type.

(** [if (min === null || v < min) min = v; if (max === null || v > max) max = v] *)
Definition widen (r : Range) (v : Z) : Range :=
  (match fst r with
   | None => Some v
   | Some lo => if (v <? lo)%Z then Some v else Some lo
   end,
   match snd r with
   | None => Some v
   | Some hi => if (hi <? v)%Z then Some v else Some hi
   end).

(** The body of [normalizedRows.forEach]; [None] when a reading is
    [Other]. *)
Definition detect (acc : option (Range * Range)) (row : gmap string value)
  : option (Range * Range) :=
  match acc with
  | None => None
  | Some (years, months) =>
      match read (row !! "Ano"), read (row !! "Mes") with
      | Other, _ | _, Other => None
      | a, m =>
          Some (match a with Truthy z => widen years z | _ => years end,
                match m with Truthy z => widen months z | _ => months end)
      end
  end.

(** [min === max ? min : null] *)
Definition single (r : Range) : option Z :=
  match r with
  | (Some lo, Some hi) => if (lo =? hi)%Z then Some lo else None
  | _ => None
  end.

Definition period_of (rows : list (gmap string value)) : option Csv.Period :=
  match fold_left detect rows (Some ((None, None), (None, None))) with
  | Some (years, months) => Some (Csv.mkPeriod (single years) (single months))
  | None => None
  end.

End Upload.

(** ** The chat handler, from the stored spreadsheets to the narration *)

Module Chat.
Import JS Text Query.

(** [r.Ano && r.Mes]: an absent number and [0] are falsy. *)
Definition int_truthy (v : option Z) : bool :=
  match v with
  | Some z => negb (z =? 0)%Z
  | None => false
  end.

(** The callback of [allData.map] in the period-not-found branch; [None]
    is [null]. *)
Definition period_label (r : Row) : option string :=
  if int_truthy (Ano r) && int_truthy (Mes r) then
    let monthName := match find_month_key (Mes r) with
                     | Some k => k
                     | None => show (Mes r)
                     end in
    Some (String.append monthName (String.append "/" (show (Ano r))))
  else None.

(** [[...new Set(allData.map(...).filter(Boolean))]] *)
Definition periods_of (allData : list Row) : list string :=
  Set_values
    (List.filter (fun s => negb (String.eqb s "")) (omap period_label allData)).

Definition availablePeriods (allData : list Row) : string :=
  join ", " (periods_of allData).

(** One record of the [spreadsheets] table: its [rows], which may be
    [null]. *)
Definition Sheet : Type := option (list Row).

(** [spreadsheets.forEach(sheet => { allData.push(...(sheet.rows || [])) })] *)
Definition consolidate (spreadsheets : list Sheet) : list Row :=
  fold_left (fun allData sheet =>
               allData ++ match sheet with Some rows => rows | None => [] end)
            spreadsheets [].

Definition a_acute : ascii := ascii_of_N 225.
Definition analise : string := String.append "An" (String a_acute "lise").

Definition scopeDesc (filtered all sheets : nat) : string :=
  if (filtered <? all)%nat then
    String.append analise (String.append " filtrada ("
      (String.append (Z_toString (Z.of_nat filtered)) (String.append " de "
        (String.append (Z_toString (Z.of_nat all)) " registros)"))))
  else
    String.append analise (String.append " completa ("
      (String.append (Z_toString (Z.of_nat all)) (String.append " registros de "
        (String.append (Z_toString (Z.of_nat sheets)) " planilha(s))")))).

(** What the handler does with a query: one of the three requests it
    sends to the language model, or [ServerError] when an exception is
    thrown before any request is sent; the handler catches it and answers
    with the status 500 and the message [Erro ao processar mensagem]. *)
Inductive Reply : Type :=
  | AskForSpreadsheet
  | PeriodNotFound (available : string)
  | Narrate (analysis : AnalysisResult) (scope : string)
  | ServerError.

Section Handler.
Variable NumberToString : number -> string.

(** [Deno.env.get("LOVABLE_API_KEY")]; [None] is [undefined]. *)
Variable LOVABLE_API_KEY : option string.

(** [!LOVABLE_API_KEY] *)
Definition key_missing : bool :=
  match LOVABLE_API_KEY with
  | Some key => String.eqb key ""
  | None => true
  end.

(** The handler from the point where the user is authenticated and the
    [spreadsheets] of the user are read ([None] is [null]), up to the
    request it sends to the gateway.  The query is a string and the
    [rows] of a spreadsheet are an array or [null], the shapes that the
    client and the upload function produce: other JSON values, on which
    [toLowerCase] or the spread of [push] throws, and arrays beyond the
    number of arguments that the engine accepts in [push(...rows)], are
    not covered.  The period-not-found request is sent without the test
    of the key. *)
Definition respond (userQuery : string) (spreadsheets : option (list Sheet)) : Reply :=
  match spreadsheets with
  | None | Some [] => if key_missing then ServerError else AskForSpreadsheet
  | Some sheets =>
      let allData := consolidate sheets in
      let context := parseQuery userQuery allData in
      let filteredData := filterData allData context in
      if (List.length filteredData =? 0)%nat
         && (nonempty (years context) || nonempty (months context))
      then PeriodNotFound (availablePeriods allData)
      else
        match analyzeData NumberToString
                (if (0 <? List.length filteredData)%nat then filteredData else allData)
                context with
        | Throw _ => ServerError
        | Normal analysis =>
            let scope := scopeDesc (List.length filteredData) (List.length allData)
                                   (List.length sheets) in
            if key_missing then ServerError else Narrate analysis scope
        end
  end.
End Handler.

End Chat.

(** * Properties *)

(** ** Facts about the built-ins *)

Module JSFacts.
Import JS.

Section Collections.
Context {A : Type} `{EqDecision A}.

Lemma Array_includes_In (l : list A) (x : A) :
  Array_includes l x = true <-> In x l.
Proof.
  unfold Array_includes. rewrite existsb_exists. split.
  - intros (y & Hy & Heq). apply bool_decide_eq_true in Heq. now subst.
  - intros Hx. exists x. split; [assumption | now apply bool_decide_eq_true].
Qed.

Lemma Set_values_In (l : list A) (x : A) : In x (Set_values l) <-> In x l.
Proof.
  induction l as [|a l IH]; simpl; [tauto|].
  rewrite filter_In, IH, negb_true_iff, bool_decide_eq_false.
  destruct (decide (x = a)) as [->|Hne]; [tauto|].
  split; [tauto|]. intros [Heq|Hin]; [now subst | tauto].
Qed.
End Collections.

Lemma filter_sublist {A : Type} (f : A -> bool) (l : list A) :
  sublist (List.filter f l) l.
Proof.
  induction l as [|a l IH]; simpl; [constructor|].
  destruct (f a); now constructor.
Qed.

(** *** Sorting *)

Section Sorting.
Context {A : Type} (after : A -> A -> bool).

Lemma sort_insert_split (x : A) (l : list A) :
  exists s1 s2,
    l = s1 ++ s2 /\ sort_insert after x l = s1 ++ x :: s2 /\
    Forall (fun z => after x z = true) s1.
Proof.
  induction l as [|y r IH]; simpl.
  - exists [], []. repeat split. constructor.
  - destruct (after x y) eqn:E.
    + destruct IH as (s1 & s2 & -> & -> & Hall).
      exists (y :: s1), s2. repeat split. now constructor.
    + exists [], (y :: r). repeat split. constructor.
Qed.

Lemma sort_insert_perm (x : A) (l : list A) :
  Permutation (sort_insert after x l) (x :: l).
Proof.
  destruct (sort_insert_split x l) as (s1 & s2 & -> & -> & _).
  symmetry. apply Permutation_middle.
Qed.

Lemma Array_sort_perm (l : list A) : Permutation (Array_sort after l) l.
Proof.
  induction l as [|x l IH]; simpl; [constructor|].
  rewrite sort_insert_perm. now constructor.
Qed.

Lemma Array_sort_length (l : list A) :
  List.length (Array_sort after l) = List.length l.
Proof. apply Permutation_length, Array_sort_perm. Qed.

Lemma Array_sort_In (l : list A) (x : A) : In x (Array_sort after l) <-> In x l.
Proof.
  split; apply Permutation_in; [|symmetry]; apply Array_sort_perm.
Qed.

(** The comparator never asks for both orders. *)
Hypothesis after_asym : forall x y, after x y = true -> after y x = false.

Lemma sort_insert_Sorted (x : A) (l : list A) :
  Sorted (fun a b => after a b = false) l ->
  Sorted (fun a b => after a b = false) (sort_insert after x l).
Proof.
  induction l as [|y r IH]; simpl; intros Hs.
  - repeat constructor.
  - destruct (after x y) eqn:E.
    + apply Sorted_inv in Hs as [Hr Hhd].
      constructor; [now apply IH|].
      destruct r as [|z r]; simpl.
      * constructor. now apply after_asym.
      * destruct (after x z); constructor.
        -- now inversion Hhd.
        -- now apply after_asym.
    + constructor; [assumption | now constructor].
Qed.

(** No element of the sorted array has to come after its successor. *)
Lemma Array_sort_Sorted (l : list A) :
  Sorted (fun a b => after a b = false) (Array_sort after l).
Proof.
  induction l as [|x l IH]; simpl; [constructor|].
  now apply sort_insert_Sorted.
Qed.
End Sorting.

(** [x] occurs before [y]. *)
Fixpoint precedes {A : Type} (l : list A) (x y : A) : Prop :=
  match l with
  | [] => False
  | z :: r => (z = x /\ In y r) \/ precedes r x y
  end.

Section Precedes.
Context {A : Type}.

Lemma precedes_app (l1 l2 : list A) (x y : A) :
  precedes (l1 ++ l2) x y <->
  precedes l1 x y \/ (In x l1 /\ In y l2) \/ precedes l2 x y.
Proof.
  induction l1 as [|z l1 IH]; simpl; [tauto|].
  rewrite IH, in_app_iff. intuition.
Qed.

Lemma precedes_In (l : list A) (x y : A) : precedes l x y -> In x l /\ In y l.
Proof.
  induction l as [|z l IH]; simpl; [tauto|].
  intros [[-> Hy]|H]; [tauto|]. apply IH in H. tauto.
Qed.

Lemma precedes_firstn (n : nat) (l : list A) (x y : A) :
  precedes (firstn n l) x y -> precedes l x y.
Proof.
  intros H. rewrite <- (firstn_skipn n l). apply precedes_app. now left.
Qed.

Lemma precedes_filter (f : A -> bool) (l : list A) (x y : A) :
  precedes (List.filter f l) x y -> precedes l x y.
Proof.
  induction l as [|z l IH]; simpl; [tauto|].
  destruct (f z); simpl.
  - intros [[-> Hy]|H]; [left | right; auto].
    split; [reflexivity|]. apply filter_In in Hy. tauto.
  - intros H. right. auto.
Qed.

Lemma precedes_map {B : Type} (f : A -> B) (l : list A) (x y : A) :
  precedes l x y -> precedes (map f l) (f x) (f y).
Proof.
  induction l as [|z l IH]; simpl; [tauto|].
  intros [[-> Hy]|H]; [left | right; auto].
  split; [reflexivity | now apply in_map].
Qed.

(** The sort is stable: when [x] precedes [y] in the sorted array although
    the comparator does not ask for it, [x] already preceded [y]. *)
Lemma Array_sort_stable (after : A -> A -> bool) (l : list A) (x y : A) :
  List.NoDup l ->
  precedes (Array_sort after l) x y -> after y x = false -> precedes l x y.
Proof.
  intros Hnd Hp Htie. induction l as [|a l IH]; simpl in *; [tauto|].
  apply NoDup_cons_iff in Hnd as [Ha Hnd].
  destruct (sort_insert_split after a (Array_sort after l)) as (s1 & s2 & Hs & Hi & Hall).
  rewrite Hi in Hp. apply precedes_app in Hp. simpl in Hp.
  assert (Hsub : forall z, In z s1 \/ In z s2 -> In z l).
  { intros z Hz. apply (Array_sort_In after). rewrite Hs. apply in_app_iff. exact Hz. }
  assert (Hback : precedes (s1 ++ s2) x y -> precedes (a :: l) x y).
  { intros H. right. apply IH; [assumption|]. now rewrite Hs. }
  destruct Hp as [Hp|[[Hx [Hy|Hy]]|[[Hx Hy]|Hp]]].
  - apply Hback, precedes_app. tauto.
  - subst y. rewrite List.Forall_forall in Hall. rewrite (Hall x Hx) in Htie. discriminate.
  - apply Hback, precedes_app. tauto.
  - left. split; [assumption|]. apply Hsub. tauto.
  - apply Hback, precedes_app. tauto.
Qed.
End Precedes.

(** *** [Set] in insertion order *)

Section SetValues.
Context {A : Type} `{EqDecision A}.

Lemma Set_values_NoDup (l : list A) : List.NoDup (Set_values l).
Proof.
  induction l as [|a l IH]; simpl; constructor.
  - rewrite filter_In, negb_true_iff, bool_decide_eq_false. tauto.
  - now apply List.NoDup_filter.
Qed.

Lemma filter_neq_snoc (a x : A) (l : list A) :
  List.filter (fun y => negb (bool_decide (y = a))) (l ++ [x]) =
  List.filter (fun y => negb (bool_decide (y = a))) l ++
    (if bool_decide (x = a) then [] else [x]).
Proof. rewrite List.filter_app. simpl. now destruct (bool_decide (x = a)). Qed.

Lemma Set_values_snoc (l : list A) (x : A) :
  Set_values (l ++ [x]) = Set_values l ++ (if Array_includes l x then [] else [x]).
Proof.
  induction l as [|a l IH]; simpl; [reflexivity|].
  rewrite IH, List.filter_app. f_equal. f_equal.
  unfold Array_includes. simpl.
  destruct (bool_decide (a = x)) eqn:E.
  - apply bool_decide_eq_true in E. subst a. simpl.
    destruct (existsb _ l); simpl; [reflexivity|].
    now rewrite bool_decide_true.
  - apply bool_decide_eq_false in E. simpl.
    destruct (existsb _ l); simpl; [reflexivity|].
    rewrite bool_decide_false by congruence. reflexivity.
Qed.

(** The order of [Set_values] is the order of first occurrence. *)
Lemma Set_values_first_seen (l : list A) (x y : A) :
  precedes (Set_values l) x y ->
  exists pre post, l = pre ++ x :: post /\ ~ In y pre.
Proof.
  induction l as [|a l IH]; simpl; [tauto|].
  intros [[-> Hy]|H].
  - exists [], l. split; [reflexivity | tauto].
  - pose proof (precedes_In _ _ _ H) as [Hx Hy].
    apply filter_In in Hx as [_ Hx]. apply filter_In in Hy as [_ Hy].
    apply negb_true_iff, bool_decide_eq_false in Hx, Hy.
    apply precedes_filter, IH in H as (pre & post & -> & Hn).
    exists (a :: pre), post. split; [reflexivity|].
    simpl. intros [E|E]; [congruence | tauto].
Qed.
End SetValues.

(** *** [Map] as a list of entries *)

Section Grouping.
Context {K V R : Type} `{EqDecision K}.
Variables (key : R -> K) (zero : V) (add : V -> R -> V).

(** The shape shared by the two [forEach] loops that accumulate into a
    [Map]: create the entry when the key is new, then add the row to it. *)
Definition upsert (m : list (K * V)) (r : R) : list (K * V) :=
  let m' := if negb (Map_has m (key r)) then Map_set m (key r) zero else m in
  match Map_get m' (key r) with
  | Some g => Map_set m' (key r) (add g r)
  | None => m'
  end.

Definition rows_of (k : K) (data : list R) : list R :=
  List.filter (fun r => bool_decide (key r = k)) data.

(** One entry per key, in the order in which the keys are first seen, each
    holding the fold of its rows. *)
Definition grouped (data : list R) : list (K * V) :=
  map (fun k => (k, fold_left add (rows_of k data) zero))
      (Set_values (map key data)).

Lemma Map_get_tabulate (F : K -> V) (keys : list K) (k : K) :
  Map_get (map (fun k' => (k', F k')) keys) k =
  if Array_includes keys k then Some (F k) else None.
Proof.
  unfold Array_includes.
  induction keys as [|a keys IH]; simpl; [reflexivity|].
  destruct (bool_decide (a = k)) eqn:E; simpl; [|exact IH].
  apply bool_decide_eq_true in E. now subst.
Qed.

Lemma Map_set_fresh (m : list (K * V)) (k : K) (v : V) :
  Map_get m k = None -> Map_set m k v = m ++ [(k, v)].
Proof.
  induction m as [|[a w] m IH]; simpl; [reflexivity|].
  destruct (bool_decide (a = k)); [discriminate|].
  intros H. now rewrite IH.
Qed.

Lemma Map_set_tabulate (F : K -> V) (keys : list K) (k : K) (v : V) :
  List.NoDup keys -> In k keys ->
  Map_set (map (fun k' => (k', F k')) keys) k v =
  map (fun k' => (k', if bool_decide (k' = k) then v else F k')) keys.
Proof.
  induction keys as [|a keys IH]; simpl; [tauto|].
  intros Hnd Hin. apply NoDup_cons_iff in Hnd as [Ha Hnd].
  destruct (bool_decide (a = k)) eqn:E.
  - apply bool_decide_eq_true in E. subst a. f_equal.
    apply map_ext_in. intros k' Hk'.
    rewrite bool_decide_false; [reflexivity | congruence].
  - apply bool_decide_eq_false in E. f_equal.
    apply IH; [assumption|]. destruct Hin; [congruence | assumption].
Qed.

Lemma rows_of_snoc (k : K) (data : list R) (r : R) :
  rows_of k (data ++ [r]) =
  rows_of k data ++ (if bool_decide (key r = k) then [r] else []).
Proof. unfold rows_of. rewrite List.filter_app. reflexivity. Qed.

Lemma rows_of_absent (k : K) (data : list R) :
  ~ In k (map key data) -> rows_of k data = [].
Proof.
  intros H. unfold rows_of. induction data as [|r data IH]; simpl in *; [reflexivity|].
  rewrite bool_decide_false by tauto. apply IH. tauto.
Qed.

Lemma Map_get_grouped (data : list R) (k : K) :
  Map_get (grouped data) k =
  if Array_includes (map key data) k
  then Some (fold_left add (rows_of k data) zero) else None.
Proof.
  unfold grouped. rewrite Map_get_tabulate.
  destruct (Array_includes (map key data) k) eqn:E.
  - apply Array_includes_In in E.
    now rewrite (proj2 (Array_includes_In _ _) (proj2 (Set_values_In _ _) E)).
  - destruct (Array_includes (Set_values (map key data)) k) eqn:E'; [|reflexivity].
    apply (proj1 (Array_includes_In _ _)) in E'.
    apply (proj1 (Set_values_In _ _)) in E'.
    apply (proj2 (Array_includes_In _ _)) in E'. congruence.
Qed.

Lemma grouped_snoc (data : list R) (r : R) :
  grouped (data ++ [r]) =
  map (fun k => (k, fold_left add (rows_of k (data ++ [r])) zero))
      (Set_values (map key data))
  ++ (if Array_includes (map key data) (key r) then []
      else [(key r, fold_left add (rows_of (key r) (data ++ [r])) zero)]).
Proof.
  unfold grouped. rewrite map_app. simpl. rewrite Set_values_snoc, map_app.
  now destruct (Array_includes (map key data) (key r)).
Qed.

Lemma Map_get_snoc (m : list (K * V)) (k : K) (v : V) :
  Map_get m k = None -> Map_get (m ++ [(k, v)]) k = Some v.
Proof.
  induction m as [|[a w] m IH]; simpl.
  - now rewrite bool_decide_true.
  - destruct (bool_decide (a = k)); [discriminate | auto].
Qed.

Lemma Map_set_snoc (m : list (K * V)) (k : K) (v w : V) :
  Map_get m k = None -> Map_set (m ++ [(k, v)]) k w = m ++ [(k, w)].
Proof.
  induction m as [|[a u] m IH]; simpl.
  - now rewrite bool_decide_true.
  - destruct (bool_decide (a = k)); [discriminate|]. intros H. now rewrite IH.
Qed.

Lemma upsert_grouped (data : list R) (r : R) :
  upsert (grouped data) r = grouped (data ++ [r]).
Proof.
  rewrite grouped_snoc. unfold upsert, Map_has.
  rewrite (Map_get_grouped data (key r)).
  destruct (Array_includes (map key data) (key r)) eqn:E; cbn [negb].
  - (* the key is known *)
    rewrite (Map_get_grouped data (key r)), E.
    assert (Hin : In (key r) (Set_values (map key data)))
      by (apply Set_values_In; now apply Array_includes_In).
    unfold grouped.
    rewrite Map_set_tabulate by (auto using Set_values_NoDup).
    rewrite app_nil_r. apply map_ext. intros k.
    rewrite rows_of_snoc.
    destruct (bool_decide (k = key r)) eqn:Ek.
    + apply bool_decide_eq_true in Ek. subst k.
      rewrite bool_decide_true by reflexivity.
      now rewrite fold_left_app.
    + apply bool_decide_eq_false in Ek.
      rewrite bool_decide_false by congruence. now rewrite app_nil_r.
  - (* the key is new *)
    assert (Hnot : ~ In (key r) (map key data)).
    { intros H. apply Array_includes_In in H. congruence. }
    assert (Hnone : Map_get (grouped data) (key r) = None)
      by now rewrite Map_get_grouped, E.
    rewrite (Map_set_fresh _ _ zero Hnone), (Map_get_snoc _ _ zero Hnone),
      (Map_set_snoc _ _ zero (add zero r) Hnone).
    f_equal.
    + unfold grouped. apply map_ext_in. intros k Hk.
      apply (proj1 (Set_values_In _ _)) in Hk.
      rewrite rows_of_snoc, bool_decide_false, app_nil_r; [reflexivity|].
      intros Heq. apply Hnot. now rewrite Heq.
    + rewrite rows_of_snoc, (rows_of_absent _ _ Hnot), bool_decide_true by reflexivity.
      reflexivity.
Qed.

(** The accumulating loop builds [grouped]. *)
Lemma fold_upsert (data : list R) :
  fold_left upsert data [] = grouped data.
Proof.
  induction data as [|r data IH] using rev_ind; [reflexivity|].
  now rewrite fold_left_app, IH; simpl; rewrite upsert_grouped.
Qed.
End Grouping.

End JSFacts.

(** ** The data filter *)

Module FilterSpec.
Import JS Query JSFacts.

(** The contract of section 4.4, in its own words: a context set that is
    not empty must hold the field of the row. *)
Definition member_when_requested {A : Type} (requested : list A) (field : option A)
  : Prop :=
  requested <> [] -> exists x, field = Some x /\ In x requested.

Definition passes (context : QueryContext) (row : Row) : Prop :=
  member_when_requested (years context) (Ano row) /\
  member_when_requested (months context) (Mes row) /\
  member_when_requested (produtos context) (Produto row) /\
  member_when_requested (categorias context) (Categoria row) /\
  member_when_requested (regioes context) (Regiao row).

Lemma guard_spec {A : Type} `{EqDecision A} (requested : list A) (field : option A) :
  nonempty requested && negb (includes_field requested field) = false
  <-> member_when_requested requested field.
Proof.
  unfold member_when_requested.
  destruct requested as [|a l].
  - simpl. split; [intros _ Hne; now contradiction Hne | reflexivity].
  - change (nonempty (a :: l)) with true. rewrite andb_true_l, negb_false_iff.
    destruct field as [x|]; unfold includes_field.
    + rewrite (Array_includes_In (a :: l) x). split.
      * intros Hin _. now exists x.
      * intros Hm. destruct Hm as (y & Hy & Hin); [discriminate|].
        now injection Hy as ->.
    + split; [discriminate|].
      intros Hm. destruct Hm as (y & Hy & _); discriminate.
Qed.

Lemma keep_row_passes (context : QueryContext) (row : Row) :
  keep_row context row = true <-> passes context row.
Proof.
  unfold keep_row, passes.
  rewrite <- !guard_spec.
  repeat match goal with
  | |- context [if ?b then false else _] => destruct b
  end; intuition congruence.
Qed.

(** C2. [filterData] keeps exactly the rows that pass every requested
    dimension (an empty context set requests nothing), and its output is a
    subsequence of the input: the order is kept and no row is taken twice. *)
Theorem filterData_keeps_exactly (data : list Row) (context : QueryContext) :
  (forall row, keep_row context row = true <-> passes context row) /\
  (forall row, In row (filterData data context) <-> In row data /\ passes context row) /\
  sublist (filterData data context) data /\
  (forall pre row post,
      filterData (pre ++ row :: post) context =
      filterData pre context ++ (if keep_row context row then [row] else [])
        ++ filterData post context).
Proof.
  split; [intros row; apply keep_row_passes|].
  split; [|split].
  - intros row. unfold filterData. rewrite filter_In, keep_row_passes. tauto.
  - apply filter_sublist.
  - intros pre row post. unfold filterData.
    rewrite List.filter_app. simpl. now destruct (keep_row context row).
Qed.

(** A row without a year never survives a year filter, nor one without a
    month a month filter. *)
Lemma keep_row_needs_date (context : QueryContext) (row : Row) :
  (Ano row = None /\ years context <> []) \/ (Mes row = None /\ months context <> []) ->
  keep_row context row = false.
Proof.
  intros H. destruct (keep_row context row) eqn:Hk; [|reflexivity].
  apply keep_row_passes in Hk. destruct Hk as (Hy & Hm & _).
  destruct H as [[Ha Hne]|[Ha Hne]].
  - destruct (Hy Hne) as (x & Hx & _). congruence.
  - destruct (Hm Hne) as (x & Hx & _). congruence.
Qed.

End FilterSpec.

(** ** The normaliser *)

Module NormalizerSpec.
Import JS Normalizer.

Lemma digit_not_special (c : ascii) :
  is_digit c = true ->
  is_space c = false /\ Ascii.eqb c "/" = false /\ Ascii.eqb c "-" = false.
Proof.
  destruct c as [[] [] [] [] [] [] [] []]; vm_compute; intros; repeat split; congruence.
Qed.

Lemma all_chars_append (p : ascii -> bool) (s t : string) :
  all_chars p (String.append s t) = all_chars p s && all_chars p t.
Proof.
  induction s as [|c s IH]; simpl; [reflexivity|].
  now rewrite IH, andb_assoc.
Qed.

Lemma all_chars_impl (p q : ascii -> bool) (s : string) :
  (forall c, p c = true -> q c = true) -> all_chars p s = true -> all_chars q s = true.
Proof.
  intros Hpq. induction s as [|c s IH]; simpl; [reflexivity|].
  rewrite !andb_true_iff. intros [Hc Hs]. auto.
Qed.

Lemma trimStart_first (c : ascii) (s : string) :
  is_space c = false -> trimStart (String c s) = String c s.
Proof. intros H. simpl. now rewrite H. Qed.

Lemma trimEnd_no_space (s : string) :
  all_chars (fun c => negb (is_space c)) s = true -> trimEnd s = s.
Proof.
  induction s as [|c s IH]; simpl; [reflexivity|].
  rewrite andb_true_iff, negb_true_iff. intros [Hc Hs].
  rewrite (IH Hs), Hc. now destruct s.
Qed.

Lemma trim_no_space (s : string) :
  all_chars (fun c => negb (is_space c)) s = true -> trim s = s.
Proof.
  intros H. unfold trim.
  destruct s as [|c s]; [reflexivity|].
  pose proof H as H'. simpl in H'. apply andb_true_iff in H' as [Hc _].
  apply negb_true_iff in Hc.
  rewrite (trimStart_first c s Hc). now apply trimEnd_no_space.
Qed.

(** [split] on a string without the separator, and across one. *)
Lemma split_none (sep : ascii) (s : string) :
  all_chars (fun c => negb (Ascii.eqb c sep)) s = true -> split sep s = [s].
Proof.
  induction s as [|c s IH]; simpl; [reflexivity|].
  rewrite andb_true_iff, negb_true_iff. intros [Hc Hs].
  now rewrite Hc, (IH Hs).
Qed.

Lemma split_at (sep : ascii) (s t : string) :
  all_chars (fun c => negb (Ascii.eqb c sep)) s = true ->
  split sep (String.append s (String sep t)) = s :: split sep t.
Proof.
  induction s as [|c s IH]; simpl.
  - intros _. now rewrite Ascii.eqb_refl.
  - rewrite andb_true_iff, negb_true_iff. intros [Hc Hs].
    now rewrite Hc, (IH Hs).
Qed.

(** A date cell [g1/g2/g3]. *)
Definition slash_cell (g1 g2 g3 : string) : string :=
  String.append g1 (String "/" (String.append g2 (String "/" g3))).

Definition iso_date (year month day : Z) : string :=
  String.append (Z_toString year) (String.append "-"
    (String.append (padStart2 (Z_toString month))
       (String.append "-" (padStart2 (Z_toString day))))).

(** The reading of the specification for a first group of at most 12: the
    first group is the day and the second the month. *)
Definition day_first_reading (g1 g2 g3 : string) : ParsedDate :=
  mkParsedDate (iso_date (group_value g3) (group_value g2) (group_value g1))
               (group_value g3) (group_value g2).

(** What [parseDate] does: the first group is the day when it exceeds 12,
    and the month otherwise. *)
Definition month_first_unless_over_12 (g1 g2 g3 : string) : ParsedDate :=
  let d1 := group_value g1 in
  let d2 := group_value g2 in
  let day := if (12 <? d1)%Z then d1 else d2 in
  let month := if (12 <? d1)%Z then d2 else d1 in
  mkParsedDate (iso_date (group_value g3) month day) (group_value g3) month.

Lemma digits_between_all (lo hi : nat) (s : string) :
  digits_between lo hi s = true -> all_chars is_digit s = true.
Proof. unfold digits_between. rewrite andb_true_iff. tauto. Qed.

Lemma digits_nonempty (hi : nat) (s : string) :
  digits_between 1 hi s = true -> exists c r, s = String c r.
Proof.
  unfold digits_between. destruct s as [|c r]; [|eauto].
  simpl. discriminate.
Qed.

(** C3, as the code has it. For every date cell [g1/g2/g3] of one or two
    digits, one or two digits and four digits, [parseDate] takes the first
    group as the day when it is greater than 12, and otherwise as the
    month (the second group is then the day). *)
Theorem parseDate_slash_cell (g1 g2 g3 : string) :
  digits_between 1 2 g1 = true ->
  digits_between 1 2 g2 = true ->
  digits_between 4 4 g3 = true ->
  parseDate (Some (slash_cell g1 g2 g3)) = Some (month_first_unless_over_12 g1 g2 g3).
Proof.
  intros H1 H2 H3.
  pose proof (digits_between_all _ _ _ H1) as A1.
  pose proof (digits_between_all _ _ _ H2) as A2.
  pose proof (digits_between_all _ _ _ H3) as A3.
  assert (Hns : forall g, all_chars is_digit g = true ->
                          all_chars (fun c => negb (is_space c)) g = true).
  { intros g. apply all_chars_impl. intros c Hc.
    destruct (digit_not_special c Hc) as (-> & _). reflexivity. }
  assert (Hnsl : forall g, all_chars is_digit g = true ->
                           all_chars (fun c => negb (Ascii.eqb c "/")) g = true).
  { intros g. apply all_chars_impl. intros c Hc.
    destruct (digit_not_special c Hc) as (_ & -> & _). reflexivity. }
  assert (Hnd : forall g, all_chars is_digit g = true ->
                          all_chars (fun c => negb (Ascii.eqb c "-")) g = true).
  { intros g. apply all_chars_impl. intros c Hc.
    destruct (digit_not_special c Hc) as (_ & _ & ->). reflexivity. }
  assert (Htrim : trim (slash_cell g1 g2 g3) = slash_cell g1 g2 g3).
  { apply trim_no_space. unfold slash_cell.
    rewrite all_chars_append. simpl. rewrite all_chars_append. simpl.
    now rewrite (Hns _ A1), (Hns _ A2), (Hns _ A3). }
  assert (Hymd : match_ymd (slash_cell g1 g2 g3) = None).
  { unfold match_ymd. rewrite split_none; [reflexivity|].
    unfold slash_cell.
    rewrite all_chars_append. simpl. rewrite all_chars_append. simpl.
    now rewrite (Hnd _ A1), (Hnd _ A2), (Hnd _ A3). }
  assert (Hdmy : match_dmy (slash_cell g1 g2 g3) = Some (g1, g2, g3)).
  { unfold match_dmy, slash_cell.
    rewrite (split_at "/" g1), (split_at "/" g2), (split_none "/" g3) by auto.
    now rewrite H1, H2, H3. }
  assert (Hne : String.eqb (slash_cell g1 g2 g3) "" = false).
  { destruct (digits_nonempty _ _ H1) as (c & r & ->). reflexivity. }
  unfold parseDate, parse_trimmed. rewrite Hne, Htrim, Hymd, Hdmy.
  unfold month_first_unless_over_12, iso_date.
  now destruct (12 <? group_value g1)%Z.
Qed.

Lemma parseDate_slash_cell_witness :
  parseDate (Some "15/03/2024") = Some (mkParsedDate "2024-03-15" 2024 3).
Proof.
  exact (parseDate_slash_cell "15" "03" "2024" eq_refl eq_refl eq_refl).
Defined.

(** C3, as the specification words it, fails: the cell [05/03/2024] is
    read month first, as the third of May, and not as the fifth of March. *)
Lemma parseDate_not_day_first :
  parseDate (Some "05/03/2024") = Some (mkParsedDate "2024-05-03" 2024 5) /\
  parseDate (Some "05/03/2024") <> Some (day_first_reading "05" "03" "2024").
Proof. split; [reflexivity | vm_compute; discriminate]. Qed.

(** *** Headers *)

Definition entry_matches (cleaned : string) (entry : string * list string) : bool :=
  existsb (fun v => includes cleaned v) (snd entry).

Lemma first_standard_find (cleaned : string) (table : list (string * list string)) :
  first_standard cleaned table =
  match List.find (entry_matches cleaned) table with
  | Some entry => Some (fst entry)
  | None => None
  end.
Proof.
  induction table as [|[standard variants] table IH]; simpl; [reflexivity|].
  unfold entry_matches at 1. simpl.
  now destruct (existsb _ variants).
Qed.

(** [includes] is the substring relation. *)
Lemma append_cons (c : ascii) (s t : string) :
  String.append (String c s) t = String c (String.append s t).
Proof. reflexivity. Qed.

Lemma append_assoc (s t u : string) :
  String.append (String.append s t) u = String.append s (String.append t u).
Proof.
  induction s as [|c s IH]; [reflexivity|].
  now rewrite !append_cons, IH.
Qed.

Lemma prefix_iff (t s : string) :
  String.prefix t s = true <-> exists post, s = String.append t post.
Proof.
  revert s. induction t as [|c t IH]; intros s.
  - split; [intros _; now exists s | intros _; now destruct s].
  - destruct s as [|d s]; [split; [discriminate | intros [post H]; discriminate]|].
    cbn [String.prefix]. destruct (Ascii.ascii_dec c d) as [e|Hne].
    + subst d. rewrite IH. split; intros [post H]; exists post.
      * now rewrite append_cons, H.
      * rewrite append_cons in H. congruence.
    + split; [discriminate|].
      intros [post H]. rewrite append_cons in H. congruence.
Qed.

Lemma includes_iff (s t : string) :
  includes s t = true <->
  exists pre post, s = String.append pre (String.append t post).
Proof.
  induction s as [|c s IH]; cbn [includes]; rewrite orb_true_iff, prefix_iff.
  - split.
    + intros [[post H]|H]; [|discriminate]. now exists EmptyString, post.
    + intros (pre & post & H). left.
      destruct pre; [now exists post | discriminate].
  - rewrite IH. split.
    + intros [[post H]|(pre & post & H)].
      * now exists EmptyString, post.
      * exists (String c pre), post. now rewrite append_cons, H.
    + intros ([|d pre] & post & H).
      * left. now exists post.
      * right. exists pre, post. rewrite append_cons in H. congruence.
Qed.

Lemma includes_trans (s t u : string) :
  includes s t = true -> includes t u = true -> includes s u = true.
Proof.
  rewrite !includes_iff. intros (p1 & q1 & ->) (p2 & q2 & ->).
  exists (String.append p1 p2), (String.append q2 q1).
  now rewrite !append_assoc.
Qed.

(** C6. [Valor Total (R$)] is cleaned to [valor_total__r__] and maps to
    [Receita_Total]. [Qtd Vendida] is cleaned to [qtd_vendida], which holds
    the variant [id] of [ID_Transacao], an entry that comes before
    [Quantidade]: it maps to [ID_Transacao] and not to [Quantidade], and so
    does the header [Quantidade] itself.  In general the result is the key
    of the first entry of [SCHEMA_MAPPING] one of whose variants occurs in
    the cleaned header, and the header itself when there is none. *)
Theorem normalizeHeader_first_match :
  clean_header "Valor Total (R$)" = "valor_total__r__" /\
  normalizeHeader "Valor Total (R$)" = "Receita_Total" /\
  clean_header "Qtd Vendida" = "qtd_vendida" /\
  includes "qtd_vendida" "id" = true /\
  normalizeHeader "Qtd Vendida" = "ID_Transacao" /\
  normalizeHeader "Qtd Vendida" <> "Quantidade" /\
  normalizeHeader "Quantidade" = "ID_Transacao" /\
  (forall header,
      normalizeHeader header =
      match List.find (entry_matches (clean_header header)) SCHEMA_MAPPING with
      | Some entry => fst entry
      | None => header
      end).
Proof.
  repeat (split; [reflexivity || (vm_compute; discriminate)|]).
  intros header. unfold normalizeHeader. rewrite first_standard_find.
  now destruct (List.find _ SCHEMA_MAPPING).
Qed.

(** The variants [quantidade] and [unidades] that the table lists for
    [Quantidade] never win: a header that holds one of them holds [id]. *)
Lemma quantidade_variants_shadowed (header : string) :
  includes (clean_header header) "quantidade" = true \/
  includes (clean_header header) "unidades" = true ->
  normalizeHeader header = "Data" \/ normalizeHeader header = "ID_Transacao".
Proof.
  intros H.
  assert (Hid : includes (clean_header header) "id" = true).
  { destruct H as [H|H]; eapply includes_trans; try exact H; reflexivity. }
  unfold normalizeHeader, SCHEMA_MAPPING. cbn [first_standard].
  destruct (existsb _ ["data"; "date"; "fecha"; "datum"]); [now left|].
  cbn [existsb]. rewrite Hid, orb_true_r. now right.
Qed.

(** *** Rows *)

Lemma fold_left_invariant {A B : Type} (P : A -> Prop) (f : A -> B -> A)
    (l : list B) (init : A) :
  P init -> (forall a b, In b l -> P a -> P (f a b)) -> P (fold_left f l init).
Proof.
  revert init. induction l as [|b l IH]; simpl; [auto|].
  intros init Hinit Hstep. apply IH; [apply Hstep; auto | intros; apply Hstep; auto].
Qed.

(** What one loop iteration leaves under the key [Quantidade]. *)
Lemma normalize_entry_Quantidade (row : gmap string string)
    (normalized : gmap string value) (original standard : string) :
  normalize_entry row normalized (original, standard) !! "Quantidade" =
  if String.eqb standard "Quantidade"
  then Some (VNum (let n := parseInt (String_of (row !! original)) in
                   if num_truthy n then n else num_zero))
  else normalized !! "Quantidade".
Proof.
  unfold normalize_entry.
  destruct (String.eqb standard "Data") eqn:HD.
  - apply String.eqb_eq in HD. subst standard. simpl.
    destruct (parseDate (row !! original)); [|reflexivity].
    now rewrite !lookup_insert_ne by discriminate.
  - destruct (String.eqb standard "Quantidade") eqn:HQ.
    + apply lookup_insert_eq.
    + apply String.eqb_neq in HQ.
      destruct (String.eqb standard "Preco_Unitario" || String.eqb standard "Receita_Total").
      * now rewrite lookup_insert_ne by congruence.
      * destruct (row !! original).
        -- now rewrite lookup_insert_ne by congruence.
        -- now rewrite lookup_delete_ne by congruence.
Qed.

Lemma fold_Quantidade_absent (row : gmap string string)
    (headerMap : list (string * string)) (init : gmap string value) :
  (forall original, ~ In (original, "Quantidade") headerMap) ->
  fold_left (normalize_entry row) headerMap init !! "Quantidade" = init !! "Quantidade".
Proof.
  revert init. induction headerMap as [|[o s] l IH]; [reflexivity|].
  intros init Hno. cbn [fold_left].
  rewrite IH by (intros o' Hin; apply (Hno o'); now right).
  rewrite normalize_entry_Quantidade.
  destruct (String.eqb s "Quantidade") eqn:E; [|reflexivity].
  apply String.eqb_eq in E. subst s. exfalso. apply (Hno o). now left.
Qed.

(** The last step of [normalizeRow] only writes [Receita_Total]. *)
Lemma normalizeRow_other_key (row : gmap string string)
    (headerMap : list (string * string)) (k : string) :
  k <> "Receita_Total" ->
  normalizeRow row headerMap !! k = fold_left (normalize_entry row) headerMap ∅ !! k.
Proof.
  intros Hk. unfold normalizeRow.
  set (normalized := fold_left (normalize_entry row) headerMap ∅).
  destruct (negb _ && _ && _); [|reflexivity].
  destruct (normalized !! "Quantidade"); [|reflexivity].
  destruct (normalized !! "Preco_Unitario"); [|reflexivity].
  now rewrite lookup_insert_ne by congruence.
Qed.

End NormalizerSpec.

(** ** Rows without a date, from the normaliser to the filter *)

Module UndatedSpec.
Import JS Normalizer Query Storage JSFacts FilterSpec NormalizerSpec.

Definition not_int (v : option value) : Prop := forall z, v <> Some (VInt z).

(** The raw row has no cell that [parseDate] accepts under a header mapped
    to [Data]. *)
Definition date_unparsed (raw : gmap string string) (headerMap : list (string * string))
  : Prop :=
  forall original, In (original, "Data") headerMap -> parseDate (raw !! original) = None.

Lemma normalize_entry_not_int (raw : gmap string string)
    (normalized : gmap string value) (original standard k : string) :
  k <> "Quantidade" ->
  (standard = "Data" -> parseDate (raw !! original) = None) ->
  not_int (normalized !! k) ->
  not_int (normalize_entry raw normalized (original, standard) !! k).
Proof.
  intros Hk Hdate Hn. unfold normalize_entry.
  destruct (String.eqb standard "Data") eqn:HD.
  - apply String.eqb_eq in HD. now rewrite (Hdate HD).
  - destruct (String.eqb standard "Quantidade").
    + now rewrite lookup_insert_ne by congruence.
    + destruct (String.eqb standard "Preco_Unitario" || String.eqb standard "Receita_Total").
      * rewrite lookup_insert. case_decide; [intros z; discriminate | assumption].
      * destruct (raw !! original).
        -- rewrite lookup_insert. case_decide; [intros z; discriminate | assumption].
        -- rewrite lookup_delete. case_decide; [intros z; discriminate | assumption].
Qed.

Lemma normalizeRow_not_int (raw : gmap string string)
    (headerMap : list (string * string)) (k : string) :
  k <> "Quantidade" -> k <> "Receita_Total" ->
  date_unparsed raw headerMap ->
  not_int (normalizeRow raw headerMap !! k).
Proof.
  intros Hq Hr Hdate. rewrite normalizeRow_other_key by assumption.
  apply fold_left_invariant.
  - intros z. rewrite lookup_empty. discriminate.
  - intros a [o s] Hin Ha. apply normalize_entry_not_int; [assumption | | assumption].
    intros ->. now apply Hdate.
Qed.

Lemma int_field_not_int (o : gmap string value) (k : string) :
  not_int (o !! k) -> int_field o k = None.
Proof.
  unfold int_field, not_int. intros H.
  destruct (o !! k) as [[s|z|x]|]; try reflexivity.
  now contradiction (H z).
Qed.

(** C10. A raw row whose date cells do not parse is normalised to a row
    without a numeric [Ano] or [Mes]; read back, both are absent, and
    [filterData] drops the row as soon as the context asks for a year or
    for a month.  The last part holds for every row that lacks the field
    the context asks for. *)
Theorem filterData_excludes_undated (raw : gmap string string)
    (headerMap : list (string * string)) (data : list Row) (context : QueryContext) :
  date_unparsed raw headerMap ->
  years context <> [] \/ months context <> [] ->
  not_int (normalizeRow raw headerMap !! "Ano") /\
  not_int (normalizeRow raw headerMap !! "Mes") /\
  Ano (read_row (normalizeRow raw headerMap)) = None /\
  Mes (read_row (normalizeRow raw headerMap)) = None /\
  ~ In (read_row (normalizeRow raw headerMap)) (filterData data context) /\
  (forall row,
      (Ano row = None /\ years context <> []) \/ (Mes row = None /\ months context <> []) ->
      ~ In row (filterData data context)).
Proof.
  intros Hdate Hctx.
  assert (HA : not_int (normalizeRow raw headerMap !! "Ano"))
    by (apply normalizeRow_not_int; [discriminate | discriminate | assumption]).
  assert (HM : not_int (normalizeRow raw headerMap !! "Mes"))
    by (apply normalizeRow_not_int; [discriminate | discriminate | assumption]).
  assert (Hrow : forall row,
      (Ano row = None /\ years context <> []) \/ (Mes row = None /\ months context <> []) ->
      ~ In row (filterData data context)).
  { intros row H Hin. unfold filterData in Hin. apply filter_In in Hin as [_ Hk].
    rewrite (keep_row_needs_date context row H) in Hk. discriminate. }
  repeat split; try assumption.
  - now apply int_field_not_int.
  - now apply int_field_not_int.
  - apply Hrow. simpl. rewrite !int_field_not_int by assumption. tauto.
Qed.

Lemma filterData_excludes_undated_witness :
  ~ In (read_row (normalizeRow {["Data" := "sem data"; "Produto" := "Caneta"]}
                               [("Data", "Data"); ("Produto", "Produto")]))
       (filterData
          [read_row (normalizeRow {["Data" := "sem data"; "Produto" := "Caneta"]}
                                  [("Data", "Data"); ("Produto", "Produto")])]
          (mkQueryContext [2024] [] [] [] [] [] false None)).
Proof.
  refine (proj1 (proj2 (proj2 (proj2 (proj2
    (filterData_excludes_undated
       {["Data" := "sem data"; "Produto" := "Caneta"]}
       [("Data", "Data"); ("Produto", "Produto")]
       _ (mkQueryContext [2024] [] [] [] [] [] false None) _ _)))))).
  - intros original [H|[H|[]]]; inversion H; subst; vm_compute; reflexivity.
  - left. discriminate.
Defined.

End UndatedSpec.

(** ** The query parser and the open filter *)

Module ParseQuerySpec.
Import JS Query JSFacts FilterSpec.

(** The parser recognizes nothing in [query]: no year token, no month
    name, and no product, category or region of the known rows. *)
Definition recognizes_nothing (query : string) (allData : list Row) : Prop :=
  year_matches false query = [] /\
  (forall name num, In (name, num) MONTHS_PT ->
                    includes (toLowerCase query) name = false) /\
  (forall row name,
      In row allData ->
      Produto row = Some name \/ Categoria row = Some name \/ Regiao row = Some name ->
      name <> "" ->
      includes (toLowerCase query) (toLowerCase name) = false).

Lemma fold_add_month_none (lower : string) (table : list (string * Z)) (acc : list Z) :
  (forall name num, In (name, num) table -> includes lower name = false) ->
  fold_left (add_month lower) table acc = acc.
Proof.
  revert acc. induction table as [|[name num] table IH]; intros acc H; [reflexivity|].
  cbn [fold_left]. unfold add_month at 2.
  rewrite (H name num) by now left.
  apply IH. intros n m Hin. apply (H n m). now right.
Qed.

Lemma filter_none {A : Type} (f : A -> bool) (l : list A) :
  (forall x, In x l -> f x = false) -> List.filter f l = [].
Proof.
  induction l as [|a l IH]; intros H; [reflexivity|].
  simpl. rewrite (H a) by now left. apply IH. intros x Hx. apply H. now right.
Qed.

Lemma filter_all {A : Type} (f : A -> bool) (l : list A) :
  (forall x, In x l -> f x = true) -> List.filter f l = l.
Proof.
  induction l as [|a l IH]; intros H; [reflexivity|].
  simpl. rewrite (H a) by now left. f_equal. apply IH. intros x Hx. apply H. now right.
Qed.

Lemma unique_entities_In (field : Row -> option string) (allData : list Row)
    (name : string) :
  In name (unique_entities field allData) ->
  name <> "" /\ exists row, In row allData /\ field row = Some name.
Proof.
  unfold unique_entities. rewrite Set_values_In, filter_In.
  rewrite negb_true_iff, String.eqb_neq.
  intros [Hin Hne]. split; [assumption|].
  apply list_elem_of_In, list_elem_of_omap in Hin as (row & Hrow & Hf).
  exists row. split; [now apply list_elem_of_In | assumption].
Qed.

Lemma mentioned_none (lower : string) (field : Row -> option string)
    (allData : list Row) :
  (forall row name, In row allData -> field row = Some name -> name <> "" ->
                    includes lower (toLowerCase name) = false) ->
  mentioned lower (unique_entities field allData) = [].
Proof.
  intros H. apply filter_none. intros name Hin.
  apply unique_entities_In in Hin as (Hne & row & Hrow & Hf). eauto.
Qed.

(** A context without years, months or entities lets every row through. *)
Lemma filterData_open (data : list Row) (context : QueryContext) :
  years context = [] -> months context = [] -> produtos context = [] ->
  categorias context = [] -> regioes context = [] ->
  filterData data context = data.
Proof.
  intros Hy Hm Hp Hc Hr. apply filter_all. intros row _.
  unfold keep_row. now rewrite Hy, Hm, Hp, Hc, Hr.
Qed.

(** C8. When the parser recognizes no year, month or entity in the query,
    the five filter sets of the context are empty and [filterData] returns
    its input. *)
Theorem parseQuery_unrecognized_open (query : string) (allData data : list Row) :
  recognizes_nothing query allData ->
  years (parseQuery query allData) = [] /\
  months (parseQuery query allData) = [] /\
  produtos (parseQuery query allData) = [] /\
  categorias (parseQuery query allData) = [] /\
  regioes (parseQuery query allData) = [] /\
  filterData data (parseQuery query allData) = data.
Proof.
  intros (Hy & Hm & He).
  assert (Y : years (parseQuery query allData) = []) by exact Hy.
  assert (M : months (parseQuery query allData) = [])
    by (apply fold_add_month_none; exact Hm).
  assert (P : produtos (parseQuery query allData) = [])
    by (apply mentioned_none; intros row name Hin Hf; apply (He row name Hin); tauto).
  assert (C : categorias (parseQuery query allData) = [])
    by (apply mentioned_none; intros row name Hin Hf; apply (He row name Hin); tauto).
  assert (R : regioes (parseQuery query allData) = [])
    by (apply mentioned_none; intros row name Hin Hf; apply (He row name Hin); tauto).
  repeat split; try assumption.
  now apply filterData_open.
Qed.

Definition sample_rows : list Row :=
  [ mkRow (Some 2024) (Some 1) (Some "Notebook") (Some "Informatica") (Some "Sul")
          (Some (num_of_Z 2)) (Some (num_of_Z 7000));
    mkRow None None (Some "Caneta") None (Some "") (Some (num_of_Z 10)) None ].

Lemma parseQuery_unrecognized_open_witness :
  filterData sample_rows (parseQuery "Qual o total geral?" sample_rows) = sample_rows.
Proof.
  refine (proj2 (proj2 (proj2 (proj2 (proj2
    (parseQuery_unrecognized_open "Qual o total geral?" sample_rows sample_rows _)))))).
  split; [reflexivity | split].
  - intros name num Hin. simpl in Hin.
    repeat (destruct Hin as [Hin|Hin]; [inversion Hin; subst; reflexivity|]).
    destruct Hin.
  - intros row name [<-|[<-|[]]] [H|[H|H]] Hne; inversion H; subst;
      solve [reflexivity | now contradiction Hne].
Defined.

End ParseQuerySpec.

(** ** Facts about binary64 subtraction *)

Module NumberFacts.
Import JS.

Lemma round_aux_negative (m e : Z) (l : location) :
  num_pos (binary_round_aux prec emax true m e l) = false.
Proof.
  unfold binary_round_aux.
  destruct (shr_fexp prec emax m e l) as [mrs' e'].
  destruct (shr_fexp prec emax _ e' loc_Exact) as [mrs'' e''].
  destruct (shr_m mrs''); [reflexivity | | reflexivity].
  now destruct (e'' <=? emax - prec)%Z.
Qed.

(** A positive result of [binary_normalize] comes from a positive
    integer. *)
Lemma normalize_pos (n e : Z) :
  num_pos (binary_normalize prec emax n e false) = true -> (0 < n)%Z.
Proof.
  destruct n as [|p|p]; simpl; [discriminate | lia |].
  unfold binary_round.
  destruct (shl_align p e _) as [mz ez].
  now rewrite round_aux_negative.
Qed.

(** [b - a > 0] and [a - b > 0] never hold together. *)
Lemma num_sub_asym (x y : number) :
  num_pos (num_sub y x) = true -> num_pos (num_sub x y) = false.
Proof.
  unfold num_sub.
  destruct x as [sx|sx| |sx mx ex], y as [sy|sy| |sy my ey].
  16: {
    unfold SFsub. cbv zeta. intros H.
    apply normalize_pos in H.
    destruct (num_pos (binary_normalize prec emax _ (Z.min ex ey) false)) eqn:E;
      [|reflexivity].
    apply normalize_pos in E. rewrite (Z.min_comm ey ex) in H. lia. }
  all: try destruct sx; try destruct sy; cbv; congruence.
Qed.

Lemma num_sub_self (x : number) : num_pos (num_sub x x) = false.
Proof.
  destruct (num_pos (num_sub x x)) eqn:E; [|reflexivity].
  pose proof (num_sub_asym x x E). congruence.
Qed.

(** *** The order of the values

    A finite [S754_finite s m e] stands for [(-1)^s * m * 2^e].  Every
    binary64 value has [e >= -1074], the exponent of the least subnormal:
    in units of [2^-1074] its value is an integer. *)

Definition emin64 : Z := -1074.

Lemma fexp_ge (z : Z) : emin64 <= fexp prec emax z.
Proof. unfold fexp, emin, prec, emax, emin64. lia. Qed.

Lemma fexp_cases (z : Z) :
  fexp prec emax z = z - 53 \/ (fexp prec emax z = emin64 /\ z - 53 <= emin64).
Proof. unfold fexp, emin, prec, emax, emin64. lia. Qed.

Lemma digits2_pos_bound (p : positive) : 2 ^ (Zpos (digits2_pos p) - 1) <= Zpos p.
Proof.
  induction p as [p IH|p IH|]; simpl digits2_pos.
  - rewrite Pos2Z.inj_succ. replace (Z.succ (Z.pos (digits2_pos p)) - 1) with (Z.succ (Z.pos (digits2_pos p) - 1)) by lia.
    rewrite Z.pow_succ_r by lia. lia.
  - rewrite Pos2Z.inj_succ. replace (Z.succ (Z.pos (digits2_pos p)) - 1) with (Z.succ (Z.pos (digits2_pos p) - 1)) by lia.
    rewrite Z.pow_succ_r by lia. lia.
  - simpl. lia.
Qed.

Lemma shr_1_half (mrs : shr_record) (k : Z) :
  0 <= k -> 2 ^ (1 + k) <= shr_m mrs -> 2 ^ k <= shr_m (shr_1 mrs).
Proof.
  intros Hk. destruct mrs as [m r s]. simpl shr_m at 1.
  rewrite Z.pow_add_r by lia. change (2 ^ 1) with 2.
  assert (0 < 2 ^ k) by (apply Z.pow_pos_nonneg; lia).
  destruct m as [|[p|p|]|p]; simpl; lia.
Qed.

Lemma iter_shr_1 (n : positive) : forall (mrs : shr_record) (k : Z),
  0 <= k -> 2 ^ (Zpos n + k) <= shr_m mrs -> 2 ^ k <= shr_m (SpecFloat.iter_pos shr_1 n mrs).
Proof.
  induction n as [n IH|n IH|]; intros mrs k Hk H; simpl SpecFloat.iter_pos.
  - apply IH; [lia|]. apply IH; [lia|]. apply shr_1_half; [lia|].
    replace (1 + (Z.pos n + (Z.pos n + k))) with (Z.pos n~1 + k) by lia. exact H.
  - apply IH; [lia|]. apply IH; [lia|].
    replace (Z.pos n + (Z.pos n + k)) with (Z.pos n~0 + k) by lia. exact H.
  - apply shr_1_half; assumption.
Qed.

Lemma shr_m_of_loc (m : Z) (l : location) : shr_m (shr_record_of_loc m l) = m.
Proof. destruct l as [|[]]; reflexivity. Qed.

(** Rounding a positive mantissa at an exponent that is not below [emin]
    leaves a positive mantissa, at an exponent not below [emin]. *)
Lemma shr_fexp_pos (m : positive) (e : Z) (l : location) :
  emin64 <= e ->
  1 <= shr_m (fst (shr_fexp prec emax (Zpos m) e l)) /\
  emin64 <= snd (shr_fexp prec emax (Zpos m) e l).
Proof.
  intros He. unfold shr_fexp, shr. simpl Zdigits2.
  destruct (fexp_cases (Zpos (digits2_pos m) + e)) as [Hf|[Hf Hle]]; rewrite Hf.
  - destruct (Z.pos (digits2_pos m) + e - 53 - e) as [|q|q] eqn:En; simpl fst; simpl snd.
    + rewrite shr_m_of_loc. lia.
    + split; [|pose proof (fexp_ge (Zpos (digits2_pos m) + e)); lia].
      change 1 with (2 ^ 0). apply iter_shr_1; [lia|].
      rewrite shr_m_of_loc.
      etransitivity; [|apply digits2_pos_bound].
      apply Z.pow_le_mono_r; lia.
    + rewrite shr_m_of_loc. lia.
  - destruct (emin64 - e) as [|q|q] eqn:En; simpl fst; simpl snd;
      try (rewrite shr_m_of_loc; lia). lia.
Qed.

Lemma round_nearest_even_ge (m : Z) (l : location) :
  m <= round_nearest_even m l.
Proof. destruct l as [|[]]; simpl; try lia. destruct (Z.even m); lia. Qed.

Definition well_formed (x : number) : Prop :=
  match x with
  | S754_finite _ _ e => emin64 <= e
  | _ => True
  end.

Definition positive_number (x : number) : Prop :=
  match x with
  | S754_finite false _ _ | S754_infinity false => True
  | _ => False
  end.

Lemma num_pos_positive (x : number) : num_pos x = true <-> positive_number x.
Proof.
  destruct x as [s|[]| |[] m e]; cbv; intuition congruence.
Qed.

Lemma round_aux_pos (m : positive) (e : Z) (l : location) :
  emin64 <= e ->
  positive_number (binary_round_aux prec emax false (Zpos m) e l) /\
  well_formed (binary_round_aux prec emax false (Zpos m) e l).
Proof.
  intros He. unfold binary_round_aux.
  destruct (shr_fexp_pos m e l He) as [H1 H2].
  destruct (shr_fexp prec emax (Zpos m) e l) as [mrs' e']. simpl in H1, H2.
  pose proof (round_nearest_even_ge (shr_m mrs') (loc_of_shr_record mrs')) as Hr.
  destruct (round_nearest_even (shr_m mrs') (loc_of_shr_record mrs')) as [|m2|m2]; try lia.
  destruct (shr_fexp_pos m2 e' loc_Exact H2) as [H3 H4].
  destruct (shr_fexp prec emax (Zpos m2) e' loc_Exact) as [mrs'' e'']. simpl in H3, H4.
  destruct (shr_m mrs'') as [|m3|m3]; try lia.
  destruct (e'' <=? emax - prec)%Z; simpl; auto.
Qed.

Lemma round_aux_well_formed (s : bool) (m e : Z) (l : location) :
  well_formed (binary_round_aux prec emax s m e l).
Proof.
  unfold binary_round_aux.
  destruct (shr_fexp prec emax m e l) as [mrs' e'].
  destruct (shr_fexp prec emax _ e' loc_Exact) as [mrs'' e''] eqn:E.
  destruct (shr_m mrs''); simpl; auto.
  destruct (e'' <=? emax - prec)%Z; simpl; auto.
  unfold shr_fexp, shr in E.
  pose proof (fexp_ge (Zdigits2
                (round_nearest_even (shr_m mrs') (loc_of_shr_record mrs')) + e')) as Hf.
  destruct (fexp prec emax _ - e') eqn:En; injection E as _ <-; lia.
Qed.

Lemma shl_align_exp (m : positive) (e e' : Z) :
  emin64 <= e -> emin64 <= e' -> emin64 <= snd (shl_align m e e').
Proof. intros. unfold shl_align. destruct (e' - e); simpl; lia. Qed.

Lemma binary_round_pos (m : positive) (e : Z) :
  emin64 <= e -> positive_number (binary_round prec emax false m e).
Proof.
  intros He. unfold binary_round.
  pose proof (shl_align_exp m e (fexp prec emax (Zpos (digits2_pos m) + e)) He (fexp_ge _)) as H.
  destruct (shl_align m e _) as [mz ez]. simpl in H.
  now apply round_aux_pos.
Qed.

Lemma binary_normalize_well_formed (n e : Z) (s : bool) :
  well_formed (binary_normalize prec emax n e s).
Proof.
  destruct n; simpl; auto; unfold binary_round;
    destruct (shl_align _ e _); apply round_aux_well_formed.
Qed.

Lemma num_add_well_formed (x y : number) :
  well_formed x -> well_formed y -> well_formed (num_add x y).
Proof.
  unfold num_add.
  destruct x as [sx|sx| |sx mx ex], y as [sy|sy| |sy my ey]; intros Hx Hy;
    try (destruct sx, sy; simpl; auto; fail); try (simpl; auto; fail).
  unfold SFadd. apply binary_normalize_well_formed.
Qed.

Lemma shl_value (m : positive) (d : positive) :
  Zpos (Pos.iter xO m d) = Zpos m * 2 ^ Zpos d.
Proof.
  induction d as [|d IH] using Pos.peano_ind.
  - simpl. lia.
  - rewrite Pos.iter_succ, Pos2Z.inj_xO, IH, Pos2Z.inj_succ, Z.pow_succ_r by lia. lia.
Qed.

Lemma shl_align_value (m : positive) (e ez : Z) :
  ez <= e -> Zpos (fst (shl_align m e ez)) = Zpos m * 2 ^ (e - ez).
Proof.
  intros H. unfold shl_align.
  destruct (ez - e) as [|d|d] eqn:E; simpl fst.
  - replace (e - ez) with 0 by lia. lia.
  - lia.
  - rewrite shl_value. f_equal. f_equal. lia.
Qed.

(** The value of a number in units of [2^emin]. *)
Inductive xreal : Type := NegInf | Fin (z : Z) | PosInf.

Definition value (x : number) : option xreal :=
  match x with
  | S754_nan => None
  | S754_infinity true => Some NegInf
  | S754_infinity false => Some PosInf
  | S754_zero _ => Some (Fin 0)
  | S754_finite s m e => Some (Fin (cond_Zopp s (Zpos m * 2 ^ (e - emin64))))
  end.

Definition xle (u v : xreal) : Prop :=
  match u, v with
  | NegInf, _ => True
  | _, PosInf => True
  | Fin a, Fin b => a <= b
  | _, _ => False
  end.

Definition num_le (x y : number) : Prop :=
  match value x, value y with
  | Some u, Some v => xle u v
  | _, _ => False
  end.

Lemma aligned_value (s : bool) (m : positive) (e ez : Z) :
  emin64 <= ez -> ez <= e ->
  cond_Zopp s (Zpos m * 2 ^ (e - emin64)) =
  cond_Zopp s (Zpos (fst (shl_align m e ez))) * 2 ^ (ez - emin64).
Proof.
  intros H1 H2. rewrite shl_align_value by assumption.
  replace (e - emin64) with ((e - ez) + (ez - emin64)) by lia.
  rewrite Z.pow_add_r by lia. destruct s; simpl; lia.
Qed.

(** Unless [b - a] is positive, [b] is not above [a]. *)
Lemma num_sub_not_pos_le (a b : number) :
  well_formed a -> well_formed b ->
  a <> S754_nan -> b <> S754_nan ->
  num_pos (num_sub b a) = false -> num_le b a.
Proof.
  intros Wa Wb Na Nb H.
  destruct (num_pos (num_sub b a)) eqn:E; [discriminate|clear H].
  assert (Hn : ~ positive_number (num_sub b a))
    by (intros Hp; apply num_pos_positive in Hp; congruence).
  clear E. unfold num_le, num_sub in *.
  destruct a as [sa|sa| |sa ma ea], b as [sb|sb| |sb mb eb]; try congruence;
    try (destruct sa, sb; simpl in *; tauto || lia);
    try (destruct sa; simpl in *; tauto || lia);
    try (destruct sb; simpl in *; tauto || lia).
  simpl in Wa, Wb. unfold SFsub in Hn. cbv zeta in Hn.
  set (ez := Z.min eb ea) in *.
  unfold value, xle.
  rewrite (aligned_value sa ma ea ez), (aligned_value sb mb eb ez) by lia.
  set (A := cond_Zopp sa (Z.pos (fst (shl_align ma ea ez)))) in *.
  set (B := cond_Zopp sb (Z.pos (fst (shl_align mb eb ez)))) in *.
  assert (0 < 2 ^ (ez - emin64)) by (apply Z.pow_pos_nonneg; lia).
  destruct (B - A) as [|p|p] eqn:Ed.
  - nia.
  - exfalso. apply Hn. simpl. apply binary_round_pos. lia.
  - nia.
Qed.

(** Rounding a nonzero mantissa never yields [NaN]. *)
Lemma round_aux_not_nan (s : bool) (m : positive) (e : Z) (l : location) :
  emin64 <= e -> binary_round_aux prec emax s (Zpos m) e l <> S754_nan.
Proof.
  intros He. unfold binary_round_aux.
  destruct (shr_fexp_pos m e l He) as [H1 H2].
  destruct (shr_fexp prec emax (Zpos m) e l) as [mrs' e']. simpl in H1, H2.
  pose proof (round_nearest_even_ge (shr_m mrs') (loc_of_shr_record mrs')) as Hr.
  destruct (round_nearest_even (shr_m mrs') (loc_of_shr_record mrs')) as [|m2|m2]; try lia.
  destruct (shr_fexp_pos m2 e' loc_Exact H2) as [H3 H4].
  destruct (shr_fexp prec emax (Zpos m2) e' loc_Exact) as [mrs'' e'']. simpl in H3, H4.
  destruct (shr_m mrs'') as [|m3|m3]; try lia.
  destruct (e'' <=? emax - prec)%Z; discriminate.
Qed.

Lemma binary_normalize_not_nan (n e : Z) :
  emin64 <= e -> binary_normalize prec emax n e false <> S754_nan.
Proof.
  intros He. destruct n as [|p|p]; simpl; [discriminate | |];
    unfold binary_round;
    pose proof (shl_align_exp p e (fexp prec emax (Zpos (digits2_pos p) + e))
                  He (fexp_ge _)) as H;
    destruct (shl_align p e _) as [mz ez]; simpl in H;
    now apply round_aux_not_nan.
Qed.

(** Adding a finite number to a number leaves a number. *)
Lemma num_add_not_nan (x y : number) :
  well_formed x -> well_formed y ->
  x <> S754_nan -> is_finite y = true -> num_add x y <> S754_nan.
Proof.
  unfold num_add.
  destruct x as [sx|sx| |sx mx ex], y as [sy|sy| |sy my ey];
    intros Wx Wy Nx Fy; try discriminate; try congruence;
    try (destruct sx, sy; discriminate).
  unfold SFadd. simpl in Wx, Wy. apply binary_normalize_not_nan. lia.
Qed.

Lemma num_or0_finite (v : option number) :
  (forall x, v = Some x -> is_finite x = true) -> is_finite (num_or0 v) = true.
Proof.
  intros H. destruct v as [x|]; simpl; [|reflexivity].
  destruct (num_truthy x); [now apply H | reflexivity].
Qed.

Lemma num_le_trans (x y z : number) : num_le x y -> num_le y z -> num_le x z.
Proof.
  unfold num_le.
  destruct (value x) as [[|a|]|], (value y) as [[|b|]|], (value z) as [[|c|]|];
    simpl; try tauto. lia.
Qed.

(** The binary64 values of the Standard Library are well formed. *)
Lemma valid_well_formed (x : number) :
  valid_binary prec emax x = true -> well_formed x.
Proof.
  destruct x as [s|s| |s m e]; simpl; auto.
  unfold bounded, canonical_mantissa.
  rewrite andb_true_iff, Z.eqb_eq. intros [H _].
  rewrite <- H. apply fexp_ge.
Qed.

Lemma num_or0_well_formed (v : option number) :
  (forall x, v = Some x -> well_formed x) -> well_formed (num_or0 v).
Proof.
  intros H. destruct v as [x|]; simpl; [|exact I].
  destruct (num_truthy x); [now apply H | exact I].
Qed.

End NumberFacts.

(** ** Integers as Numbers *)

Module IntegerFacts.
Import JS NumberFacts.

Lemma digits2_pos_upper (p : positive) : Zpos p < 2 ^ Zpos (digits2_pos p).
Proof.
  induction p as [p IH|p IH|]; simpl digits2_pos.
  - rewrite Pos2Z.inj_succ, Z.pow_succ_r by lia. lia.
  - rewrite Pos2Z.inj_succ, Z.pow_succ_r by lia. lia.
  - simpl. lia.
Qed.

Lemma digits2_pos_shift (p d : positive) :
  digits2_pos (Pos.iter xO p d) = (digits2_pos p + d)%positive.
Proof.
  induction d as [|d IH] using Pos.peano_ind.
  - simpl. lia.
  - rewrite Pos.iter_succ. simpl digits2_pos. rewrite IH. lia.
Qed.

(** A mantissa that has less than 54 digits: below 2^53. *)
Lemma digits2_pos_small (p : positive) :
  Zpos p < 2 ^ 53 <-> Zpos (digits2_pos p) <= 53.
Proof.
  pose proof (digits2_pos_bound p) as Hlo. pose proof (digits2_pos_upper p) as Hhi.
  split; intros H.
  - destruct (Z_le_gt_dec (Zpos (digits2_pos p)) 53) as [|Hgt]; [assumption|].
    assert (2 ^ 53 <= 2 ^ (Zpos (digits2_pos p) - 1)) by (apply Z.pow_le_mono_r; lia).
    lia.
  - assert (2 ^ Zpos (digits2_pos p) <= 2 ^ 53) by (apply Z.pow_le_mono_r; lia).
    lia.
Qed.

(** Rounding leaves a canonical mantissa as it is. *)
Lemma round_aux_canonical (s : bool) (m : positive) (e : Z) :
  fexp prec emax (Zpos (digits2_pos m) + e) = e -> e <= emax - prec ->
  binary_round_aux prec emax s (Zpos m) e loc_Exact = S754_finite s m e.
Proof.
  intros Hc He. unfold binary_round_aux, shr_fexp. simpl Zdigits2.
  rewrite Hc, Z.sub_diag. simpl shr. cbn [shr_m loc_of_shr_record round_nearest_even].
  simpl Zdigits2. rewrite Hc, Z.sub_diag. simpl.
  apply Z.leb_le in He. now rewrite He.
Qed.

(** The Number of an integer below 2^53: the integer itself, with its
    mantissa shifted to 53 digits. *)
Lemma binary_round_small (s : bool) (p : positive) :
  Zpos p < 2 ^ 53 ->
  exists (m : positive) (k : Z),
    binary_round prec emax s p 0 = S754_finite s m (- k) /\
    0 <= k /\ Zpos m = Zpos p * 2 ^ k.
Proof.
  intros Hp. apply digits2_pos_small in Hp.
  unfold binary_round. rewrite Z.add_0_r.
  assert (Hf : fexp prec emax (Zpos (digits2_pos p)) = Zpos (digits2_pos p) - 53)
    by (unfold fexp, emin, prec, emax; lia).
  rewrite Hf. unfold shl_align. rewrite Z.sub_0_r.
  destruct (Zpos (digits2_pos p) - 53) as [|q|q] eqn:E; try lia.
  - exists p, 0. rewrite round_aux_canonical.
    + repeat split; lia.
    + rewrite Z.add_0_r. exact Hf.
    + unfold emax, prec. lia.
  - exists (Pos.iter xO p q), (Zpos q). rewrite round_aux_canonical.
    + repeat split; [lia|]. apply shl_value.
    + rewrite digits2_pos_shift, Pos2Z.inj_add.
      unfold fexp, emin, prec, emax. lia.
    + unfold emax, prec. lia.
Qed.

Lemma integer_of_small (s : bool) (m p : positive) (k : Z) :
  0 <= k -> Zpos m = Zpos p * 2 ^ k ->
  integer_of (S754_finite s m (- k)) = Some (cond_Zopp s (Zpos p)).
Proof.
  intros Hk Hm. unfold integer_of.
  assert (0 < 2 ^ k) by (apply Z.pow_pos_nonneg; lia).
  destruct (0 <=? - k)%Z eqn:E.
  - apply Z.leb_le in E. assert (k = 0) by lia. subst k.
    simpl in *. do 2 f_equal. lia.
  - rewrite Z.opp_involutive, Hm, Z.mod_mul, Z.eqb_refl, Z.div_mul by lia.
    reflexivity.
Qed.

(** The exponent does not go down in [shr_fexp]. *)
Lemma shr_fexp_exponent (m e : Z) (l : location) :
  e <= snd (shr_fexp prec emax m e l).
Proof.
  unfold shr_fexp, shr. destruct (fexp prec emax (Zdigits2 m + e) - e); simpl; lia.
Qed.

(** Rounding a positive mantissa: a finite number of the same sign whose
    exponent is not below the one given, or the infinity of that sign. *)
Lemma round_aux_finite (s : bool) (m : positive) (e : Z) (l : location) :
  emin64 <= e ->
  (exists m' e', binary_round_aux prec emax s (Zpos m) e l = S754_finite s m' e' /\ e <= e') \/
  binary_round_aux prec emax s (Zpos m) e l = S754_infinity s.
Proof.
  intros He. unfold binary_round_aux.
  destruct (shr_fexp_pos m e l He) as [H1 H2].
  pose proof (shr_fexp_exponent (Zpos m) e l) as Hx.
  destruct (shr_fexp prec emax (Zpos m) e l) as [mrs' e']. simpl in H1, H2, Hx.
  pose proof (round_nearest_even_ge (shr_m mrs') (loc_of_shr_record mrs')) as Hr.
  destruct (round_nearest_even (shr_m mrs') (loc_of_shr_record mrs')) as [|m2|m2]; try lia.
  destruct (shr_fexp_pos m2 e' loc_Exact H2) as [H3 H4].
  pose proof (shr_fexp_exponent (Zpos m2) e' loc_Exact) as Hy.
  destruct (shr_fexp prec emax (Zpos m2) e' loc_Exact) as [mrs'' e'']. simpl in H3, H4, Hy.
  destruct (shr_m mrs'') as [|m3|m3]; try lia.
  destruct (e'' <=? emax - prec)%Z; [left | right; reflexivity].
  exists m3, e''. split; [reflexivity | lia].
Qed.

Lemma binary_round_finite (s : bool) (p : positive) :
  (exists m e, binary_round prec emax s p 0 = S754_finite s m e) \/
  binary_round prec emax s p 0 = S754_infinity s.
Proof.
  unfold binary_round.
  pose proof (shl_align_exp p 0 (fexp prec emax (Zpos (digits2_pos p) + 0))
                ltac:(unfold emin64; lia) (fexp_ge _)) as H.
  destruct (shl_align p 0 _) as [mz ez]. simpl in H.
  destruct (round_aux_finite s mz ez loc_Exact H) as [(m & e & -> & _) | ->]; eauto.
Qed.

(** Beyond 2^53 the Number of an integer is an integer still, or an
    infinity. *)
Lemma binary_round_large (s : bool) (p : positive) :
  2 ^ 53 <= Zpos p ->
  (exists m e, binary_round prec emax s p 0 = S754_finite s m e /\ 0 <= e) \/
  binary_round prec emax s p 0 = S754_infinity s.
Proof.
  intros Hp.
  assert (Hd : 53 < Zpos (digits2_pos p)).
  { destruct (Z_le_gt_dec (Zpos (digits2_pos p)) 53) as [Hle|]; [|lia].
    apply digits2_pos_small in Hle. lia. }
  unfold binary_round. rewrite Z.add_0_r.
  assert (Hf : fexp prec emax (Zpos (digits2_pos p)) = Zpos (digits2_pos p) - 53)
    by (unfold fexp, emin, prec, emax; lia).
  rewrite Hf. unfold shl_align. rewrite Z.sub_0_r.
  destruct (Zpos (digits2_pos p) - 53) as [|q|q] eqn:E; try lia.
  destruct (round_aux_finite s p 0 loc_Exact ltac:(unfold emin64; lia))
    as [(m & e & -> & He) | ->]; eauto.
Qed.

(** [num_of_Z] by the sign of the integer. *)
Lemma num_of_Z_pos (p : positive) : num_of_Z (Zpos p) = binary_round prec emax false p 0.
Proof. reflexivity. Qed.

Lemma num_of_Z_neg (p : positive) : num_of_Z (Zneg p) = binary_round prec emax true p 0.
Proof. reflexivity. Qed.

(** An integer other than 0 has a Number other than 0 and [NaN]. *)
Lemma num_of_Z_truthy (z : Z) : num_truthy (num_of_Z z) = negb (z =? 0)%Z.
Proof.
  destruct z as [|p|p]; [reflexivity | |].
  - rewrite num_of_Z_pos.
    now destruct (binary_round_finite false p) as [(m & e & ->) | ->].
  - rewrite num_of_Z_neg.
    now destruct (binary_round_finite true p) as [(m & e & ->) | ->].
Qed.

Lemma num_of_Z_not_nan (z : Z) : num_of_Z z <> S754_nan.
Proof.
  destruct z as [|p|p]; [discriminate | |].
  - rewrite num_of_Z_pos.
    now destruct (binary_round_finite false p) as [(m & e & ->) | ->].
  - rewrite num_of_Z_neg.
    now destruct (binary_round_finite true p) as [(m & e & ->) | ->].
Qed.

(** Up to 2^53 the Number of an integer holds that integer. *)
Lemma num_of_Z_exact (z : Z) :
  Z.abs z < 2 ^ 53 -> integer_of (num_of_Z z) = Some z.
Proof.
  intros Hz. destruct z as [|p|p]; [reflexivity | |].
  - rewrite num_of_Z_pos.
    destruct (binary_round_small false p Hz) as (m & k & -> & Hk & Hm).
    now rewrite (integer_of_small false m p k).
  - rewrite num_of_Z_neg.
    destruct (binary_round_small true p Hz) as (m & k & -> & Hk & Hm).
    now rewrite (integer_of_small true m p k).
Qed.

(** In every case it holds an integer or is the infinity of its sign. *)
Lemma num_of_Z_integer (z : Z) :
  integer_of (num_of_Z z) <> None \/ num_of_Z z = S754_infinity (z <? 0)%Z.
Proof.
  destruct (Z_lt_le_dec (Z.abs z) (2 ^ 53)) as [Hs|Hl].
  - left. now rewrite num_of_Z_exact.
  - destruct z as [|p|p]; [left; discriminate | |].
    + rewrite num_of_Z_pos.
      destruct (binary_round_large false p Hl) as [(m & e & -> & He) | ->]; [left|now right].
      unfold integer_of. apply Z.leb_le in He. now rewrite He.
    + rewrite num_of_Z_neg.
      destruct (binary_round_large true p Hl) as [(m & e & -> & He) | ->]; [left|now right].
      unfold integer_of. apply Z.leb_le in He. now rewrite He.
Qed.

(** The Number of an integer that is not negative holds no negative
    integer. *)
Lemma num_of_Z_integer_nonneg (z n : Z) :
  0 <= z -> integer_of (num_of_Z z) = Some n -> 0 <= n.
Proof.
  intros Hz. destruct z as [|p|p]; [intros [= <-]; lia | | lia].
  rewrite num_of_Z_pos.
  destruct (binary_round_finite false p) as [(m & e & ->) | ->]; [|discriminate].
  unfold integer_of. destruct (0 <=? e)%Z eqn:E.
  - intros [= <-]. simpl. apply Z.leb_le in E.
    apply Z.mul_nonneg_nonneg; [lia | apply Z.pow_nonneg; lia].
  - destruct (Zpos m mod 2 ^ (- e) =? 0)%Z; [|discriminate].
    intros [= <-]. simpl. apply Z.div_pos; [lia|].
    apply Z.pow_pos_nonneg; [lia|]. apply Z.leb_gt in E. lia.
Qed.

(** *** Sums of integers that stay below 2^53 are exact *)

Lemma iter_shr_1_exact (n : positive) : forall M : positive,
  SpecFloat.iter_pos shr_1 n (Build_shr_record (Zpos (Pos.iter xO M n)) false false)
  = Build_shr_record (Zpos M) false false.
Proof.
  induction n as [n IH|n IH|]; intros M.
  - change (Pos.iter xO M n~1) with (xO (Pos.iter xO (Pos.iter xO M n) n)).
    change (SpecFloat.iter_pos shr_1 n~1 ?x) with
      (SpecFloat.iter_pos shr_1 n (SpecFloat.iter_pos shr_1 n (shr_1 x))).
    cbn [shr_1 orb]. now rewrite !IH.
  - change (Pos.iter xO M n~0) with (Pos.iter xO (Pos.iter xO M n) n).
    change (SpecFloat.iter_pos shr_1 n~0 ?x) with
      (SpecFloat.iter_pos shr_1 n (SpecFloat.iter_pos shr_1 n x)).
    now rewrite !IH.
  - reflexivity.
Qed.

(** A mantissa of 53 digits at an exponent of the binary64 range is the
    result of rounding every mantissa and exponent of the same value. *)
Lemma binary_round_exact (s : bool) (P M : positive) (e t b : Z) :
  Zpos (digits2_pos M) = 53 -> emin64 <= t <= emax - prec ->
  b <= e -> b <= t ->
  Zpos P * 2 ^ (e - b) = Zpos M * 2 ^ (t - b) ->
  binary_round prec emax s P e = S754_finite s M t.
Proof.
  intros HM Ht Hbe Hbt Hv.
  assert (Hcanon : fexp prec emax (Zpos (digits2_pos M) + t) = t)
    by (rewrite HM; unfold fexp, emin, prec, emax, emin64 in *; lia).
  assert (Hpow : 0 < 2 ^ (e - b) /\ 0 < 2 ^ (t - b))
    by (split; apply Z.pow_pos_nonneg; lia).
  destruct (Z.compare_spec e t) as [Heq|Hlt|Hgt].
  - (* the same exponent *)
    subst t. assert (P = M) by nia. subst P.
    unfold binary_round, shl_align. rewrite Hcanon, Z.sub_diag.
    apply round_aux_canonical; [assumption | lia].
  - (* [P] holds [t - e] more digits, all 0 *)
    destruct (t - e) as [|n|n] eqn:En; try lia.
    assert (HP : P = Pos.iter xO M n).
    { apply Pos2Z.inj. rewrite shl_value.
      replace (t - b) with (Zpos n + (e - b)) in Hv by lia.
      rewrite Z.pow_add_r in Hv by lia. nia. }
    assert (Hd : Zpos (digits2_pos P) + e = 53 + t)
      by (rewrite HP, digits2_pos_shift, Pos2Z.inj_add; lia).
    assert (Hf : fexp prec emax (53 + t) = t)
      by (unfold fexp, emin, prec, emax, emin64 in *; lia).
    assert (H1 : shr_fexp prec emax (Zpos P) e loc_Exact
                 = (Build_shr_record (Zpos M) false false, t)).
    { unfold shr_fexp, shr. simpl Zdigits2. rewrite Hd, Hf, En.
      cbn [shr_record_of_loc]. rewrite HP, iter_shr_1_exact. f_equal. lia. }
    assert (H2 : shr_fexp prec emax (Zpos M) t loc_Exact
                 = (Build_shr_record (Zpos M) false false, t)).
    { unfold shr_fexp, shr. simpl Zdigits2. now rewrite Hcanon, Z.sub_diag. }
    unfold binary_round, shl_align. rewrite Hd, Hf, En.
    unfold binary_round_aux. rewrite H1.
    cbn [shr_m loc_of_shr_record round_nearest_even]. rewrite H2. cbn [shr_m].
    destruct Ht as [_ Ht]. apply Z.leb_le in Ht. now rewrite Ht.
  - (* [M] is [P] shifted to 53 digits *)
    destruct (t - e) as [|n|n] eqn:En; try lia.
    assert (HMP : M = Pos.iter xO P n).
    { apply Pos2Z.inj. rewrite shl_value.
      replace (e - b) with (Zpos n + (t - b)) in Hv by lia.
      rewrite Z.pow_add_r in Hv by lia. nia. }
    assert (Hd : Zpos (digits2_pos P) + e = 53 + t).
    { rewrite HMP, digits2_pos_shift, Pos2Z.inj_add in HM. lia. }
    assert (Hf : fexp prec emax (53 + t) = t)
      by (unfold fexp, emin, prec, emax, emin64 in *; lia).
    unfold binary_round, shl_align. rewrite Hd, Hf, En, <- HMP.
    apply round_aux_canonical; [assumption | lia].
Qed.

(** The mantissa of 53 digits of a positive integer below 2^53. *)
Lemma mantissa_53 (c : positive) :
  Zpos c < 2 ^ 53 ->
  exists (M : positive) (t : Z),
    Zpos (digits2_pos M) = 53 /\ -52 <= t <= 0 /\ Zpos M = Zpos c * 2 ^ (- t).
Proof.
  intros Hc. apply digits2_pos_small in Hc.
  destruct (53 - Zpos (digits2_pos c)) as [|k|k] eqn:E; try lia.
  - exists c, 0. repeat split; lia.
  - exists (Pos.iter xO c k), (- Zpos k). rewrite digits2_pos_shift, Pos2Z.inj_add.
    repeat split; try lia.
    rewrite shl_value, Z.opp_involutive. reflexivity.
Qed.

(** Rounding [c * 2^k] at the exponent [-k] gives the Number of [c]. *)
Lemma binary_round_integer (s : bool) (P c : positive) (k : Z) :
  0 <= k -> Zpos P = Zpos c * 2 ^ k -> Zpos c < 2 ^ 53 ->
  binary_round prec emax s P (- k) = binary_round prec emax s c 0.
Proof.
  intros Hk HP Hc.
  destruct (mantissa_53 c Hc) as (M & t & HM & Ht & Hv).
  assert (Hrange : emin64 <= t <= emax - prec) by (unfold emin64, emax, prec; lia).
  rewrite (binary_round_exact s c M 0 t t HM Hrange) by
    (try lia; rewrite Z.sub_diag, Z.sub_0_l; lia).
  apply (binary_round_exact s P M (- k) t (Z.min (- k) t) HM Hrange); try lia.
  rewrite HP, Hv.
  destruct (Z.min_spec (- k) t) as [[Hlt ->]|[Hge ->]].
  - rewrite Z.sub_diag, Z.mul_1_r.
    replace k with ((t - - k) + - t) at 1 by lia.
    rewrite Z.pow_add_r by lia. lia.
  - rewrite Z.sub_diag, Z.mul_1_r.
    replace (- t) with (k + (- k - t)) by lia.
    rewrite Z.pow_add_r by lia. lia.
Qed.

Lemma num_of_Z_canonical (c : positive) :
  Zpos c < 2 ^ 53 ->
  exists (M : positive) (t : Z),
    num_of_Z (Zpos c) = S754_finite false M t /\
    -52 <= t <= 0 /\ Zpos M = Zpos c * 2 ^ (- t).
Proof.
  intros Hc. destruct (mantissa_53 c Hc) as (M & t & HM & Ht & Hv).
  exists M, t. split; [|now split].
  rewrite num_of_Z_pos.
  apply (binary_round_exact false c M 0 t t HM); try lia.
  - unfold emin64, emax, prec. lia.
  - rewrite Z.sub_diag, Z.sub_0_l. lia.
Qed.

(** Adding two integers whose sum is below 2^53: the addition of Numbers
    is the addition of integers. *)
Lemma num_add_exact (a b : Z) :
  0 <= a -> 0 <= b -> a + b < 2 ^ 53 ->
  num_add (num_of_Z a) (num_of_Z b) = num_of_Z (a + b).
Proof.
  intros Ha Hb Hsum.
  destruct a as [|a|a]; [|clear Ha|lia].
  { destruct b as [|b|b]; [reflexivity| |lia].
    destruct (num_of_Z_canonical b ltac:(lia)) as (M & t & HM & _).
    rewrite Z.add_0_l, HM. reflexivity. }
  destruct b as [|b|b]; [|clear Hb|lia].
  { destruct (num_of_Z_canonical a ltac:(lia)) as (M & t & HM & _).
    rewrite Z.add_0_r, HM. reflexivity. }
  destruct (num_of_Z_canonical a ltac:(lia)) as (Ma & ta & -> & Hta & Hva).
  destruct (num_of_Z_canonical b ltac:(lia)) as (Mb & tb & -> & Htb & Hvb).
  unfold num_add, SFadd. cbv zeta. cbn [cond_Zopp].
  set (ez := Z.min ta tb).
  assert (Hez : ez <= ta /\ ez <= tb /\ -52 <= ez <= 0) by (unfold ez; lia).
  rewrite !shl_align_value by lia.
  assert (Hs : Zpos Ma * 2 ^ (ta - ez) + Zpos Mb * 2 ^ (tb - ez)
               = Zpos (a + b) * 2 ^ (- ez)).
  { rewrite Hva, Hvb, Pos2Z.inj_add, <- !Z.mul_assoc, <- !Z.pow_add_r by lia.
    replace (- ta + (ta - ez)) with (- ez) by lia.
    replace (- tb + (tb - ez)) with (- ez) by lia. lia. }
  rewrite Hs.
  assert (0 < 2 ^ (- ez)) by (apply Z.pow_pos_nonneg; lia).
  destruct (Zpos (a + b) * 2 ^ (- ez)) as [|P|P] eqn:EP; try lia.
  cbn [binary_normalize].
  change (Zpos a + Zpos b) with (Zpos (a + b)). rewrite num_of_Z_pos.
  replace ez with (- (- ez)) by lia.
  apply binary_round_integer; lia.
Qed.

End IntegerFacts.

(** ** The quantity of a normalised row *)

Module QuantitySpec.
Import JS Normalizer NormalizerSpec NumberFacts IntegerFacts.

(** The integer that [parseInt(value)] reads in a raw cell, and 0 when it
    reads none: [String(undefined)] has no digit. *)
Definition quantity_of (cell : option string) : Z :=
  int_or0 (parseInt_integer (String_of cell)).

(** [parseInt(value) || 0] is the Number of that integer. *)
Lemma parseInt_or0 (cell : option string) :
  (let n := parseInt (String_of cell) in if num_truthy n then n else num_zero)
  = num_of_Z (quantity_of cell).
Proof.
  cbv zeta. unfold parseInt, quantity_of.
  destruct (parseInt_integer (String_of cell)) as [[|p|p]|]; cbn [int_or0].
  - now destruct (parseInt_sign (String_of cell)).
  - change (binary_normalize prec emax (Zpos p) 0 _) with (num_of_Z (Zpos p)).
    now rewrite num_of_Z_truthy.
  - change (binary_normalize prec emax (Zneg p) 0 _) with (num_of_Z (Zneg p)).
    now rewrite num_of_Z_truthy.
  - reflexivity.
Qed.

(** C9, as the code has it. When [original] is the last header mapped to
    [Quantidade], the field is the Number of the integer that [parseInt]
    reads at the start of the cell, whatever its sign, and 0 when the cell
    is absent or [parseInt] reads no number.  That Number is never [NaN];
    it holds the integer read when this is below 2^53 in magnitude, and
    beyond it holds an integer still or is an infinity. *)
Theorem normalizeRow_Quantidade (row : gmap string string)
    (before after : list (string * string)) (original : string) :
  (forall o, ~ In (o, "Quantidade") after) ->
  let q := quantity_of (row !! original) in
  normalizeRow row (before ++ (original, "Quantidade") :: after) !! "Quantidade"
    = Some (VNum (num_of_Z q)) /\
  (row !! original = None -> q = 0%Z) /\
  (forall s, row !! original = Some s -> parseInt_integer s = None -> q = 0%Z) /\
  (forall s z, row !! original = Some s -> parseInt_integer s = Some z -> q = z) /\
  (q = 0%Z -> num_of_Z q = num_zero) /\
  (Z.abs q < 2 ^ 53 -> integer_of (num_of_Z q) = Some q) /\
  (integer_of (num_of_Z q) <> None \/ num_of_Z q = S754_infinity (q <? 0)%Z) /\
  num_of_Z q <> S754_nan.
Proof.
  intros Hlast q. repeat apply conj.
  - rewrite normalizeRow_other_key by discriminate.
    rewrite fold_left_app. cbn [fold_left].
    rewrite fold_Quantidade_absent by assumption.
    rewrite normalize_entry_Quantidade. cbn [String.eqb Ascii.eqb Bool.eqb].
    f_equal. f_equal. apply parseInt_or0.
  - intros H. unfold q. rewrite H. reflexivity.
  - intros s H Hs. unfold q, quantity_of. rewrite H. cbn [String_of]. now rewrite Hs.
  - intros s z H Hs. unfold q, quantity_of. rewrite H. cbn [String_of]. now rewrite Hs.
  - intros ->. reflexivity.
  - apply num_of_Z_exact.
  - apply num_of_Z_integer.
  - apply num_of_Z_not_nan.
Qed.

Lemma normalizeRow_Quantidade_witness :
  normalizeRow {["Qtd" := "12 un"]} [("Qtd", "Quantidade")] !! "Quantidade"
    = Some (VNum (num_of_Z 12)) /\
  integer_of (num_of_Z 12) = Some 12.
Proof.
  pose proof (normalizeRow_Quantidade {["Qtd" := "12 un"]} [] [] "Qtd"
                (fun o (H : In (o, "Quantidade") []) => H)) as H.
  split; [exact (proj1 H) | exact (proj1 (proj2 (proj2 (proj2 (proj2 (proj2 H))))) eq_refl)].
Defined.

(** C9, as the specification words it, fails: a cell [-5] leaves the
    negative quantity -5. *)
Lemma normalizeRow_Quantidade_negative :
  normalizeRow {["Qtd" := "-5"]} [("Qtd", normalizeHeader "Qtd")] !! "Quantidade"
    = Some (VNum (num_of_Z (-5))) /\
  integer_of (num_of_Z (-5)) = Some (-5)%Z /\ (-5 < 0)%Z.
Proof. split; [vm_compute; reflexivity | split; [reflexivity | lia]]. Qed.

(** Beyond 2^53 the quantity is rounded, and a numeral of 310 digits
    leaves [Infinity]. *)
Lemma normalizeRow_Quantidade_rounded :
  (exists x, normalizeRow {["Qtd" := "9007199254740993"]} [("Qtd", "Quantidade")]
               !! "Quantidade" = Some (VNum x) /\
             integer_of x = Some 9007199254740992%Z) /\
  normalizeRow {["Qtd" := Z_toString (10 ^ 309)]} [("Qtd", "Quantidade")]
    !! "Quantidade" = Some (VNum (S754_infinity false)).
Proof.
  split; [eexists; split|]; vm_compute; reflexivity.
Qed.

End QuantitySpec.

(** ** The aggregation engine *)

Module AnalyzeSpec.
Import JS Query JSFacts NumberFacts.

(** The two accumulating loops are instances of [upsert]. *)
Definition add_group_stats (g : GroupStats) (row : Row) : GroupStats :=
  mkGroupStats (num_add (receita g) (num_or0 (Receita_Total row)))
               (num_add (quantidade g) (num_or0 (Quantidade row)))
               (count g + 1).

Definition add_month_stats (m : MonthStats) (row : Row) : MonthStats :=
  mkMonthStats (num_add (m_receita m) (num_or0 (Receita_Total row)))
               (num_add (m_quantidade m) (num_or0 (Quantidade row))).

Lemma add_to_group_upsert (groupBy : string) :
  add_to_group groupBy =
  upsert (group_key groupBy) (mkGroupStats num_zero num_zero 0) add_group_stats.
Proof. reflexivity. Qed.

Lemma add_to_month_upsert :
  add_to_month = upsert Mes (mkMonthStats num_zero num_zero) add_month_stats.
Proof. reflexivity. Qed.

(** The revenue of a sequence of rows, summed in their order from 0 with
    [row.Receita_Total || 0]. *)
Definition revenue_of (rows : list Row) : number :=
  fold_left (fun acc row => num_add acc (num_or0 (Receita_Total row))) rows num_zero.

Lemma receita_fold (rows : list Row) (g : GroupStats) :
  receita (fold_left add_group_stats rows g) =
  fold_left (fun acc row => num_add acc (num_or0 (Receita_Total row))) rows (receita g).
Proof.
  revert g. induction rows as [|r rows IH]; intros g; [reflexivity|].
  simpl. now rewrite IH.
Qed.

Lemma m_receita_fold (rows : list Row) (m : MonthStats) :
  m_receita (fold_left add_month_stats rows m) =
  fold_left (fun acc row => num_add acc (num_or0 (Receita_Total row))) rows (m_receita m).
Proof.
  revert m. induction rows as [|r rows IH]; intros m; [reflexivity|].
  simpl. now rewrite IH.
Qed.

(** The groups before sorting: one per key, in first-seen order. *)
Definition groups_of (groupBy : string) (data : list Row) : list (string * GroupStats) :=
  grouped (group_key groupBy) (mkGroupStats num_zero num_zero 0) add_group_stats data.

Lemma sorted_groups_eq (groupBy : string) (data : list Row) :
  sorted_groups groupBy data =
  Array_sort grupo_after (map to_grupo (groups_of groupBy data)).
Proof.
  unfold sorted_groups, groups_of.
  now rewrite add_to_group_upsert, fold_upsert.
Qed.

(** What [analysis.grupos] holds when [analyzeData] returns. *)
Definition grupos_of (data : list Row) (context : QueryContext) : list Grupo.t :=
  match data with
  | [] => []
  | _ =>
      if topN_truthy context || comparison context then
        match topN context with
        | Some n =>
            if (n =? 0)%Z then sorted_groups (groupBy_of context) data
            else slice0 n (sorted_groups (groupBy_of context) data)
        | None => sorted_groups (groupBy_of context) data
        end
      else []
  end.

(** The monthly series before it is attached to the result. *)
Definition monthly_of (data : list Row) : completion (list Mensal.t) :=
  match map_completion to_mensal (fold_left add_to_month data []) with
  | Throw e => Throw e
  | Normal entries => Normal (Array_sort mensal_after entries)
  end.

Definition compares (data : list Row) (context : QueryContext) : bool :=
  comparison context &&
  (1 <? List.length (Array_sort default_after (Set_values (map Mes data))))%nat.

Section WithToString.
Variable NumberToString : number -> string.

Lemma analyzeData_empty (context : QueryContext) :
  analyzeData NumberToString [] context =
  Normal (mkAnalysis 0 num_zero num_zero num_zero "" [] None None None (Some erro_sem_dados)).
Proof. reflexivity. Qed.

(** [analyzeData] on rows, by cases on the comparison block. *)
Lemma analyzeData_cases (data : list Row) (context : QueryContext) :
  data <> [] ->
  match analyzeData NumberToString data context with
  | Throw e => compares data context = true /\ monthly_of data = Throw e
  | Normal res =>
      grupos res = grupos_of data context /\
      total_registros res = Z.of_nat (List.length data) /\
      erro res = None /\
      if compares data context then
        exists monthlyData,
          monthly_of data = Normal monthlyData /\
          evolucao_mensal res = Some monthlyData /\
          variacao_mensal res = variacao_of NumberToString monthlyData
      else evolucao_mensal res = None /\ variacao_mensal res = None
  end.
Proof.
  intros Hne. destruct data as [|r0 rest]; [contradiction|].
  unfold analyzeData, grupos_of, monthly_of, compares.
  set (data := r0 :: rest).
  destruct (fold_left add_totals data (num_zero, num_zero)) as [rt qt].
  destruct (topN_truthy context || comparison context);
    destruct (comparison context &&
              (1 <? List.length (Array_sort default_after (Set_values (map Mes data))))%nat);
    try destruct (map_completion to_mensal (fold_left add_to_month data []));
    cbn; eauto 10.
Qed.

Lemma monthly_of_returns (data : list Row) :
  (forall row, In row data -> Mes row <> None) ->
  exists monthlyData, monthly_of data = Normal monthlyData.
Proof.
  intros Hall. unfold monthly_of.
  rewrite add_to_month_upsert, fold_upsert. unfold grouped.
  assert (Hkeys : forall k, In k (Set_values (map Mes data)) -> k <> None).
  { intros k Hk. apply (proj1 (Set_values_In _ _)) in Hk.
    apply in_map_iff in Hk as (row & <- & Hrow). now apply Hall. }
  induction (Set_values (map Mes data)) as [|k keys IH]; cbn [map map_completion].
  - eauto.
  - destruct k as [m|]; [|now contradiction (Hkeys None (or_introl eq_refl))].
    destruct IH as (ys & Hys); [intros k Hk; apply Hkeys; now right|].
    destruct (map_completion to_mensal _) as [entries|e]; [|discriminate].
    unfold to_mensal. destruct (find_month_key (Some m)); eauto.
Qed.

(** [analyzeData] returns unless the comparison block meets a row without
    a month. *)
Lemma analyzeData_returns (data : list Row) (context : QueryContext) :
  comparison context = false \/ (forall row, In row data -> Mes row <> None) ->
  exists res, analyzeData NumberToString data context = Normal res.
Proof.
  intros H. destruct data as [|r0 rest]; [rewrite analyzeData_empty; eauto|].
  pose proof (analyzeData_cases (r0 :: rest) context) as Hc.
  destruct (analyzeData NumberToString (r0 :: rest) context) as [res|e]; [eauto|].
  destruct Hc as [Hcmp Hthrow]; [discriminate|].
  destruct H as [H|H].
  - unfold compares in Hcmp. rewrite H in Hcmp. discriminate.
  - destruct (monthly_of_returns _ H) as (ys & Hys). congruence.
Qed.
End WithToString.

(** *** When the comparison block throws *)

Definition undefined_toString : string :=
  "Cannot read properties of undefined (reading 'toString')".

Lemma map_completion_throws (entries : list (option Z * MonthStats)) :
  (exists stats, In (None, stats) entries) ->
  map_completion to_mensal entries = Throw undefined_toString.
Proof.
  induction entries as [|[k stats] entries IH]; intros (st & Hin); [contradiction|].
  cbn [map_completion]. destruct k as [m|].
  - assert (Htail : exists st', In (None, st') entries).
    { destruct Hin as [Heq|Hin]; [discriminate | eauto]. }
    rewrite (IH Htail). unfold to_mensal.
    now destruct (find_month_key (Some m)).
  - reflexivity.
Qed.

Lemma monthly_of_throws (data : list Row) :
  (exists row, In row data /\ Mes row = None) ->
  monthly_of data = Throw undefined_toString.
Proof.
  intros (row & Hrow & Hmes). unfold monthly_of.
  rewrite add_to_month_upsert, fold_upsert, map_completion_throws; [reflexivity|].
  unfold grouped. eexists. apply in_map_iff. exists None. split; [reflexivity|].
  apply Set_values_In. rewrite <- Hmes. now apply in_map.
Qed.

Lemma two_distinct_length {A : Type} (l : list A) (a b : A) :
  In a l -> In b l -> a <> b -> (1 < List.length l)%nat.
Proof.
  destruct l as [|x [|y l]]; simpl; [tauto | | lia].
  intros [<-|[]] [<-|[]] H. now contradiction H.
Qed.

Lemma analyzeData_throws (NumberToString : number -> string)
    (data : list Row) (context : QueryContext) :
  comparison context = true ->
  (exists row, In row data /\ Mes row = None) ->
  (exists row, In row data /\ Mes row <> None) ->
  analyzeData NumberToString data context = Throw undefined_toString.
Proof.
  intros Hcmp Hnone (row & Hrow & Hsome).
  assert (Hne : data <> []) by now destruct data.
  pose proof (analyzeData_cases NumberToString data context Hne) as Hc.
  pose proof (monthly_of_throws data Hnone) as Hthrow.
  assert (Hcompares : compares data context = true).
  { unfold compares. rewrite Hcmp, Array_sort_length. apply Nat.ltb_lt.
    destruct Hnone as (r0 & Hr0 & Hm0).
    apply (two_distinct_length _ (Mes r0) (Mes row)).
    - apply Set_values_In. now apply in_map.
    - apply Set_values_In. now apply in_map.
    - congruence. }
  destruct (analyzeData NumberToString data context) as [res|e].
  - destruct Hc as (_ & _ & _ & Hc). rewrite Hcompares in Hc.
    destruct Hc as (md & Hmd & _). congruence.
  - destruct Hc as [_ Hc]. congruence.
Qed.

(** *** Ranking and top-N *)

(** [a] may stand before [b]: the comparator of the sort,
    [b.receita_total - a.receita_total], is not positive. *)
Definition descending (a b : Grupo.t) : Prop := grupo_after a b = false.

(** The key [a] is seen in the data before the key [b] is. *)
Definition first_seen_before (keys : list string) (a b : string) : Prop :=
  exists pre post, keys = pre ++ a :: post /\ ~ In b pre.

Lemma Sorted_firstn {A : Type} (R : A -> A -> Prop) (n : nat) (l : list A) :
  Sorted R l -> Sorted R (firstn n l).
Proof.
  revert l. induction n as [|n IH]; intros l Hs; [constructor|].
  destruct l as [|x l]; [constructor|]. simpl.
  apply Sorted_inv in Hs as [Hs Hhd]. constructor; [now apply IH|].
  destruct n; [constructor|]. destruct l as [|y l]; [constructor|].
  simpl. constructor. now inversion Hhd.
Qed.

Lemma In_firstn {A : Type} (n : nat) (l : list A) (x : A) :
  In x (firstn n l) -> In x l.
Proof.
  intros H. rewrite <- (firstn_skipn n l). apply in_app_iff. now left.
Qed.

Lemma grupo_after_asym (a b : Grupo.t) :
  grupo_after a b = true -> grupo_after b a = false.
Proof. unfold grupo_after. apply num_sub_asym. Qed.

Lemma groups_of_names (groupBy : string) (data : list Row) :
  map Grupo.nome (map to_grupo (groups_of groupBy data)) =
  Set_values (map (group_key groupBy) data).
Proof.
  unfold groups_of, grouped. rewrite !map_map. simpl. apply map_id.
Qed.

Lemma groups_of_NoDup (groupBy : string) (data : list Row) :
  List.NoDup (map to_grupo (groups_of groupBy data)).
Proof.
  apply (NoDup_map_inv Grupo.nome). rewrite groups_of_names.
  apply Set_values_NoDup.
Qed.

Lemma groups_of_revenue (groupBy : string) (data : list Row) (g : Grupo.t) :
  In g (map to_grupo (groups_of groupBy data)) ->
  In (Grupo.nome g) (map (group_key groupBy) data) /\
  Grupo.receita_total g =
    revenue_of (rows_of (group_key groupBy) (Grupo.nome g) data).
Proof.
  unfold groups_of, grouped. rewrite map_map.
  intros H. apply in_map_iff in H as (k & <- & Hk).
  apply (proj1 (Set_values_In _ _)) in Hk.
  split; [exact Hk|]. simpl. now rewrite receita_fold.
Qed.

(** Rows that hold finite binary64 values, the only numbers of JSON. *)
Definition binary64_rows (data : list Row) : Prop :=
  forall row x, In row data -> Receita_Total row = Some x ->
                valid_binary prec emax x = true /\ is_finite x = true.

Lemma revenue_of_number (rows : list Row) :
  binary64_rows rows ->
  well_formed (revenue_of rows) /\ revenue_of rows <> S754_nan.
Proof.
  intros H. unfold revenue_of.
  apply (NormalizerSpec.fold_left_invariant
           (fun acc => well_formed acc /\ acc <> S754_nan)).
  - split; [exact I | discriminate].
  - intros acc row Hin [Wacc Nacc].
    assert (Wrow : well_formed (num_or0 (Receita_Total row))).
    { apply num_or0_well_formed. intros x Hx.
      now apply valid_well_formed, (H row x). }
    split; [now apply num_add_well_formed|].
    apply num_add_not_nan; try assumption.
    apply num_or0_finite. intros x Hx. now apply (H row x).
Qed.

(** [a] stands for at least as much revenue as [b]. *)
Definition revenue_ge (a b : Grupo.t) : Prop :=
  num_le (Grupo.receita_total b) (Grupo.receita_total a).

Lemma Sorted_revenue_ge (l : list Grupo.t) :
  (forall g, In g l -> well_formed (Grupo.receita_total g) /\
                       Grupo.receita_total g <> S754_nan) ->
  Sorted descending l -> StronglySorted revenue_ge l.
Proof.
  intros Hall Hs. apply Sorted_StronglySorted.
  - intros a b c. unfold revenue_ge. intros H1 H2. eapply num_le_trans; eassumption.
  - induction Hs as [|a l Hs IH Hhd]; constructor.
    + apply IH. intros g Hg. apply Hall. now right.
    + destruct Hhd as [|b l Hab]; constructor.
      destruct (Hall a (or_introl eq_refl)) as [Wa Na].
      destruct (Hall b (or_intror (or_introl eq_refl))) as [Wb Nb].
      now apply num_sub_not_pos_le.
Qed.

Section TopN.
Variable NumberToString : number -> string.

(** C1, as the code has it. With [topN = N] and [N >= 1], whenever
    [analyzeData] returns, [grupos] has at most [N] elements; their names
    are distinct keys of the data and each holds the summed revenue of the
    rows of its key; no element has to come after its successor for the
    comparator [b.receita_total - a.receita_total]; when the rows hold
    finite binary64 values, every group stands for at least as much
    revenue as all the groups after it; and of two groups with the
    same revenue, the one that stands first is the one whose key is seen
    first in the data.  [analyzeData] does return when no comparison is
    asked for or every row has a month. *)
Theorem analyzeData_topN (data : list Row) (context : QueryContext) (N : Z) :
  topN context = Some N ->
  (0 < N)%Z ->
  (forall res,
      analyzeData NumberToString data context = Normal res ->
      (Z.of_nat (List.length (grupos res)) <= N)%Z /\
      List.NoDup (map Grupo.nome (grupos res)) /\
      (forall g, In g (grupos res) ->
         In (Grupo.nome g) (map (group_key (groupBy_of context)) data) /\
         Grupo.receita_total g =
           revenue_of (rows_of (group_key (groupBy_of context)) (Grupo.nome g) data)) /\
      Sorted descending (grupos res) /\
      (binary64_rows data -> StronglySorted revenue_ge (grupos res)) /\
      (forall a b,
          precedes (grupos res) a b ->
          Grupo.receita_total a = Grupo.receita_total b ->
          first_seen_before (map (group_key (groupBy_of context)) data)
                            (Grupo.nome a) (Grupo.nome b))) /\
  (comparison context = false \/ (forall row, In row data -> Mes row <> None) ->
   exists res, analyzeData NumberToString data context = Normal res).
Proof.
  intros HN Hpos. split; [|apply analyzeData_returns].
  intros res Hres.
  destruct data as [|r0 rest].
  { rewrite analyzeData_empty in Hres. injection Hres as <-. simpl.
    split; [lia|]. split; [constructor|]. split; [tauto|].
    split; [constructor|]. split; [constructor | tauto]. }
  set (data := r0 :: rest) in *.
  pose proof (analyzeData_cases NumberToString data context) as Hc.
  rewrite Hres in Hc. destruct Hc as (Hg & _); [discriminate|].
  assert (Hgr : grupos res =
                firstn (Z.to_nat N) (sorted_groups (groupBy_of context) data)).
  { rewrite Hg. unfold grupos_of, data, topN_truthy. rewrite HN.
    replace (N =? 0)%Z with false by (symmetry; apply Z.eqb_neq; lia).
    simpl. unfold slice0.
    now replace (N <? 0)%Z with false by (symmetry; apply Z.ltb_ge; lia). }
  rewrite Hgr, sorted_groups_eq.
  set (groups := map to_grupo (groups_of (groupBy_of context) data)).
  set (sorted := Array_sort grupo_after groups).
  assert (Hin : forall g, In g (firstn (Z.to_nat N) sorted) -> In g groups).
  { intros g Hg'. now apply In_firstn, Array_sort_In in Hg'. }
  assert (Hsorted : Sorted descending (firstn (Z.to_nat N) sorted))
    by apply Sorted_firstn, Array_sort_Sorted, grupo_after_asym.
  split; [|split; [|split; [|split; [|split]]]].
  - pose proof (firstn_le_length (Z.to_nat N) sorted). lia.
  - assert (Hnames : List.NoDup (map Grupo.nome sorted)).
    { eapply Permutation_NoDup;
        [apply Permutation_map; symmetry; apply Array_sort_perm|].
      unfold groups. rewrite groups_of_names. apply Set_values_NoDup. }
    rewrite <- (firstn_skipn (Z.to_nat N) sorted), map_app in Hnames.
    now apply NoDup_app_remove_r in Hnames.
  - intros g Hg'. now apply groups_of_revenue, Hin.
  - exact Hsorted.
  - intros Hrows. apply Sorted_revenue_ge; [|exact Hsorted].
    intros g Hg'.
    destruct (groups_of_revenue _ _ _ (Hin g Hg')) as [_ ->].
    apply revenue_of_number. intros row x Hrow Hx.
    apply (Hrows row x); [|assumption].
    unfold rows_of in Hrow. apply filter_In in Hrow. tauto.
  - intros a b Hp Heq.
    apply precedes_firstn in Hp.
    apply Array_sort_stable in Hp; [|apply groups_of_NoDup|].
    + apply (precedes_map Grupo.nome) in Hp.
      unfold groups in Hp. rewrite groups_of_names in Hp.
      now apply Set_values_first_seen in Hp.
    + unfold grupo_after. rewrite Heq. apply num_sub_self.
Qed.
End TopN.

(** *** Month-over-month growth *)

(** The name under which a month appears in the monthly series. *)
Definition month_name (m : Z) : string :=
  match find_month_key (Some m) with
  | Some k => k
  | None => Z_toString m
  end.

(** The revenue of the rows of month [m], summed in their order. *)
Definition month_revenue (data : list Row) (m : Z) : number :=
  revenue_of (rows_of Mes (Some m) data).

Lemma month_1_12 (m : Z) :
  (1 <= m <= 12)%Z ->
  find_month_key (Some m) = Some (month_name m) /\
  month_number (month_name m) = Some m.
Proof.
  intros H.
  assert (Hm : (m = 1 \/ m = 2 \/ m = 3 \/ m = 4 \/ m = 5 \/ m = 6 \/ m = 7 \/
                m = 8 \/ m = 9 \/ m = 10 \/ m = 11 \/ m = 12)%Z) by lia.
  repeat (destruct Hm as [->|Hm]; [split; reflexivity|]).
  subst m. split; reflexivity.
Qed.

Lemma two_keys {A : Type} (l : list A) (a b : A) :
  List.NoDup l -> a <> b -> In a l -> In b l ->
  (forall k, In k l -> k = a \/ k = b) ->
  l = [a; b] \/ l = [b; a].
Proof.
  intros Hnd Hab Ha Hb Hall.
  destruct l as [|x [|y [|z l]]].
  - contradiction.
  - simpl in Ha, Hb. intuition congruence.
  - apply NoDup_cons_iff in Hnd as [Hx _]. simpl in Hx.
    destruct (Hall x (or_introl eq_refl)), (Hall y (or_intror (or_introl eq_refl)));
      subst; tauto.
  - exfalso.
    apply NoDup_cons_iff in Hnd as [Hx Hnd]. apply NoDup_cons_iff in Hnd as [Hy _].
    simpl in Hx, Hy.
    destruct (Hall x (or_introl eq_refl)),
             (Hall y (or_intror (or_introl eq_refl))),
             (Hall z (or_intror (or_intror (or_introl eq_refl))));
      subst; tauto.
Qed.

Definition month_entry (data : list Row) (m : Z) : option Z * MonthStats :=
  (Some m, fold_left add_month_stats (rows_of Mes (Some m) data) (mkMonthStats num_zero num_zero)).

Definition mensal_of (data : list Row) (m : Z) : Mensal.t :=
  Mensal.mk (month_name m) (month_revenue data m)
            (m_quantidade (snd (month_entry data m))).

Lemma to_mensal_entry (data : list Row) (m : Z) :
  (1 <= m <= 12)%Z -> to_mensal (month_entry data m) = Normal (mensal_of data m).
Proof.
  intros Hm. unfold to_mensal, month_entry, mensal_of.
  rewrite (proj1 (month_1_12 m Hm)). unfold month_revenue, revenue_of.
  now rewrite m_receita_fold.
Qed.

Lemma monthly_of_two (data : list Row) (m1 m2 : Z) :
  (1 <= m1)%Z -> (m1 < m2)%Z -> (m2 <= 12)%Z ->
  (forall row, In row data -> Mes row = Some m1 \/ Mes row = Some m2) ->
  (exists row, In row data /\ Mes row = Some m1) ->
  (exists row, In row data /\ Mes row = Some m2) ->
  List.length (Set_values (map Mes data)) = 2%nat /\
  monthly_of data = Normal [mensal_of data m1; mensal_of data m2].
Proof.
  intros H1 H12 H2 Hall (r1 & Hr1 & E1) (r2 & Hr2 & E2).
  assert (Hkeys : Set_values (map Mes data) = [Some m1; Some m2] \/
                  Set_values (map Mes data) = [Some m2; Some m1]).
  { apply two_keys.
    - apply Set_values_NoDup.
    - intros [= E]. lia.
    - apply Set_values_In. rewrite <- E1. now apply in_map.
    - apply Set_values_In. rewrite <- E2. now apply in_map.
    - intros k Hk. apply (proj1 (Set_values_In _ _)) in Hk.
      apply in_map_iff in Hk as (row & <- & Hrow). now apply Hall. }
  assert (Hafter12 : mensal_after (mensal_of data m1) (mensal_of data m2) = false).
  { unfold mensal_after, mensal_of. cbn [Mensal.mes].
    rewrite (proj2 (month_1_12 m1 ltac:(lia))), (proj2 (month_1_12 m2 ltac:(lia))).
    apply Z.ltb_ge. lia. }
  assert (Hafter21 : mensal_after (mensal_of data m2) (mensal_of data m1) = true).
  { unfold mensal_after, mensal_of. cbn [Mensal.mes].
    rewrite (proj2 (month_1_12 m1 ltac:(lia))), (proj2 (month_1_12 m2 ltac:(lia))).
    apply Z.ltb_lt. lia. }
  unfold monthly_of. rewrite add_to_month_upsert, fold_upsert. unfold grouped.
  destruct Hkeys as [-> | ->]; (split; [reflexivity|]);
    cbn [map map_completion];
    fold (month_entry data m1); fold (month_entry data m2);
    rewrite !to_mensal_entry by lia;
    cbn [Array_sort sort_insert].
  - now rewrite Hafter12.
  - now rewrite Hafter21.
Qed.

Section Growth.
Variable NumberToString : number -> string.

(** With a comparison asked for and rows of exactly two months [m1 < m2],
    the growth is computed from the month [m1] to the month [m2]. *)
Lemma analyzeData_two_months (data : list Row) (context : QueryContext) (m1 m2 : Z) :
  comparison context = true ->
  (1 <= m1)%Z -> (m1 < m2)%Z -> (m2 <= 12)%Z ->
  (forall row, In row data -> Mes row = Some m1 \/ Mes row = Some m2) ->
  (exists row, In row data /\ Mes row = Some m1) ->
  (exists row, In row data /\ Mes row = Some m2) ->
  exists res,
    analyzeData NumberToString data context = Normal res /\
    variacao_mensal res =
      Some (growth_of NumberToString (mensal_of data m2) (mensal_of data m1)).
Proof.
  intros Hcmp H1 H12 H2 Hall Hm1 Hm2.
  destruct (monthly_of_two data m1 m2 H1 H12 H2 Hall Hm1 Hm2) as [Hlen Hmonthly].
  assert (Hne : data <> []) by (destruct Hm1 as (r & Hr & _); now destruct data).
  pose proof (analyzeData_cases NumberToString data context Hne) as Hc.
  assert (Hcompares : compares data context = true).
  { unfold compares. now rewrite Hcmp, Array_sort_length, Hlen. }
  destruct (analyzeData NumberToString data context) as [res|e].
  - exists res. split; [reflexivity|].
    destruct Hc as (_ & _ & _ & Hc). rewrite Hcompares in Hc.
    destruct Hc as (monthlyData & Hmd & _ & ->).
    rewrite Hmonthly in Hmd. now injection Hmd as <-.
  - destruct Hc as [_ Hthrow]. congruence.
Qed.

(** C4, as the code has it. With a comparison asked for and rows of
    exactly two month numbers [m1 < m2] (from 1 to 12) whose revenues sum
    to 1000 and 1200, [analyzeData] returns and reports the growth [20.00]
    from the month [m1] to the month [m2]. The months are told apart and
    ordered by their number: the year of a row plays no part. *)
Theorem analyzeData_growth_20 (data : list Row) (context : QueryContext) (m1 m2 : Z) :
  comparison context = true ->
  (1 <= m1)%Z -> (m1 < m2)%Z -> (m2 <= 12)%Z ->
  (forall row, In row data -> Mes row = Some m1 \/ Mes row = Some m2) ->
  (exists row, In row data /\ Mes row = Some m1) ->
  (exists row, In row data /\ Mes row = Some m2) ->
  month_revenue data m1 = num_of_Z 1000 ->
  month_revenue data m2 = num_of_Z 1200 ->
  exists res,
    analyzeData NumberToString data context = Normal res /\
    variacao_mensal res = Some (mkVariacao "20.00" (month_name m1) (month_name m2)).
Proof.
  intros Hcmp H1 H12 H2 Hall Hm1 Hm2 Hr1 Hr2.
  destruct (analyzeData_two_months data context m1 m2 Hcmp H1 H12 H2 Hall Hm1 Hm2)
    as (res & Hres & Hv).
  exists res. split; [exact Hres|]. rewrite Hv.
  unfold growth_of, mensal_of. cbn [Mensal.receita Mensal.mes].
  rewrite Hr1, Hr2. reflexivity.
Qed.

(** Dividing by a previous revenue of 0 leaves no finite percentage. *)
Lemma growth_by_zero (last prev : Mensal.t) (s : bool) :
  Mensal.receita prev = S754_zero s ->
  In (crescimento_pct (growth_of NumberToString last prev))
     ["Infinity"; "-Infinity"; "NaN"].
Proof.
  intros H. unfold growth_of. cbn [crescimento_pct]. rewrite H.
  destruct (Mensal.receita last) as [sl|sl| |sl ml el];
    destruct s; try destruct sl; vm_compute; tauto.
Qed.
End Growth.

(** *** Concrete runs *)

Definition venda (ano mes : Z) (produto : string) (qtd receita : Z) : Row :=
  mkRow (Some ano) (Some mes) (Some produto) (Some "Papelaria") (Some "Sul")
        (Some (num_of_Z qtd)) (Some (num_of_Z receita)).

(** A row whose date did not parse. *)
Definition venda_sem_data (produto : string) (qtd receita : Z) : Row :=
  mkRow None None (Some produto) (Some "Papelaria") (Some "Sul")
        (Some (num_of_Z qtd)) (Some (num_of_Z receita)).

Definition vendas : list Row :=
  [ venda 2024 1 "Caneta" 4 400; venda 2024 2 "Caderno" 2 1200;
    venda 2024 1 "Lapis" 6 600; venda 2024 1 "Borracha" 1 600 ].

Definition vendas_20 : list Row :=
  [ venda 2024 1 "Caneta" 4 400; venda 2024 2 "Caderno" 2 1200;
    venda 2024 1 "Lapis" 6 600 ].

Definition top2 : QueryContext := mkQueryContext [] [] [] [] [] [] false (Some 2).

Lemma vendas_binary64 : binary64_rows vendas.
Proof.
  intros row x Hin Hx.
  repeat (destruct Hin as [<-|Hin]; [injection Hx as <-; split; reflexivity|]).
  destruct Hin.
Qed.

Lemma analyzeData_topN_witness :
  exists res,
    analyzeData (fun _ => "") vendas top2 = Normal res /\
    (Z.of_nat (List.length (grupos res)) <= 2)%Z /\
    Sorted descending (grupos res) /\
    StronglySorted revenue_ge (grupos res).
Proof.
  pose proof (analyzeData_topN (fun _ => "") vendas top2 2 eq_refl eq_refl)
    as [Hall Hret].
  destruct (Hret (or_introl eq_refl)) as [res Hres].
  exists res.
  destruct (Hall res Hres) as (Hlen & _ & _ & Hsorted & Hstrong & _).
  split; [exact Hres|]. split; [exact Hlen|]. split; [exact Hsorted|].
  exact (Hstrong vendas_binary64).
Defined.

Example analyzeData_top2_names :
  match analyzeData (fun _ => "") vendas top2 with
  | Normal res => map Grupo.nome (grupos res) = ["Caderno"; "Lapis"]
  | Throw _ => False
  end.
Proof. vm_compute. reflexivity. Qed.

(** C1, as the specification words it, fails for [topN = 0]: the query
    [top 0 vs] is parsed to [topN = 0] with a comparison, [0] is falsy in
    [context.topN ? sorted.slice(0, context.topN) : sorted], and all four
    groups are returned. *)
Lemma analyzeData_top0_unbounded :
  parseQuery "top 0 vs" vendas = mkQueryContext [] [] [] [] [] [] true (Some 0) /\
  exists res,
    analyzeData (fun _ => "") vendas (parseQuery "top 0 vs" vendas) = Normal res /\
    List.length (grupos res) = 4%nat /\
    ~ (Z.of_nat (List.length (grupos res)) <= 0)%Z.
Proof.
  split; [vm_compute; reflexivity|].
  eexists. split; [vm_compute; reflexivity|].
  split; [reflexivity | simpl; lia].
Qed.

Definition compara : QueryContext := mkQueryContext [] [] [] [] [] [] true None.

Lemma analyzeData_growth_20_witness :
  exists res,
    analyzeData (fun _ => "") vendas_20 compara = Normal res /\
    variacao_mensal res = Some (mkVariacao "20.00" "janeiro" "fevereiro").
Proof.
  apply (analyzeData_growth_20 (fun _ => "") vendas_20 compara 1 2).
  - reflexivity.
  - lia.
  - lia.
  - lia.
  - intros row [<-|[<-|[<-|[]]]]; [left | right | left]; reflexivity.
  - exists (venda 2024 1 "Caneta" 4 400). split; [left|]; reflexivity.
  - exists (venda 2024 2 "Caderno" 2 1200). split; [right; left|]; reflexivity.
  - vm_compute. reflexivity.
  - vm_compute. reflexivity.
Defined.

(** C4, as the specification words it, fails: the buckets are keyed and
    ordered by month number alone.  For December 2023 (1000) followed by
    January 2024 (1200) the growth is computed from January to December
    and is not [20.00]; for January 2023 (1000) and January 2024 (1200),
    two months of one number, there is one bucket and no growth at all. *)
Lemma analyzeData_growth_ignores_year :
  (exists res,
     analyzeData (fun _ => "")
       [venda 2023 12 "Caneta" 1 1000; venda 2024 1 "Lapis" 1 1200] compara
     = Normal res /\
     variacao_mensal res = Some (mkVariacao "-16.67" "janeiro" "dezembro") /\
     option_map crescimento_pct (variacao_mensal res) <> Some "20.00") /\
  (exists res,
     analyzeData (fun _ => "")
       [venda 2023 1 "Caneta" 1 1000; venda 2024 1 "Lapis" 1 1200] compara
     = Normal res /\
     variacao_mensal res = None).
Proof.
  split; eexists; (split; [vm_compute; reflexivity|]);
    [split; [reflexivity | discriminate] | reflexivity].
Qed.

(** C7. On the empty sequence the result is the record with zero totals, no
    group and the marker, whatever the context; but rows are not always
    answered with a result: with a comparison asked for, one dated row and
    one row whose date did not parse, [mes.toString()] is evaluated on
    [undefined] and [analyzeData] throws.  It does so for every row
    sequence that mixes rows with and without a month. *)
Theorem analyzeData_empty_marker_but_throws (NumberToString : number -> string) :
  (forall context,
      analyzeData NumberToString [] context =
      Normal (mkAnalysis 0 num_zero num_zero num_zero "" [] None None None
                         (Some erro_sem_dados))) /\
  analyzeData NumberToString
    [venda 2024 1 "Caneta" 1 10; venda_sem_data "Lapis" 2 5] compara
  = Throw "Cannot read properties of undefined (reading 'toString')" /\
  (forall data context,
      comparison context = true ->
      (exists row, In row data /\ Mes row = None) ->
      (exists row, In row data /\ Mes row <> None) ->
      analyzeData NumberToString data context
      = Throw "Cannot read properties of undefined (reading 'toString')").
Proof.
  split; [intros context; reflexivity|].
  split; [vm_compute; reflexivity|].
  apply analyzeData_throws.
Qed.

(** C5. The division of the growth is not guarded: with a previous month
    of revenue 0 the percentage is the string [Infinity], and [NaN] when
    the last month has revenue 0 too.  In general, for rows of two months
    the first of which sums to 0, [crescimento_pct] is one of [Infinity],
    [-Infinity] and [NaN]. *)
Theorem analyzeData_growth_unguarded (NumberToString : number -> string) :
  (exists res,
      analyzeData NumberToString
        [venda 2024 1 "Caneta" 1 0; venda 2024 2 "Lapis" 2 100] compara = Normal res /\
      variacao_mensal res = Some (mkVariacao "Infinity" "janeiro" "fevereiro")) /\
  (exists res,
      analyzeData NumberToString
        [venda 2024 1 "Caneta" 1 0; venda 2024 2 "Lapis" 2 0] compara = Normal res /\
      variacao_mensal res = Some (mkVariacao "NaN" "janeiro" "fevereiro")) /\
  (forall data context m1 m2,
      comparison context = true ->
      (1 <= m1)%Z -> (m1 < m2)%Z -> (m2 <= 12)%Z ->
      (forall row, In row data -> Mes row = Some m1 \/ Mes row = Some m2) ->
      (exists row, In row data /\ Mes row = Some m1) ->
      (exists row, In row data /\ Mes row = Some m2) ->
      month_revenue data m1 = num_zero ->
      exists res v,
        analyzeData NumberToString data context = Normal res /\
        variacao_mensal res = Some v /\
        In (crescimento_pct v) ["Infinity"; "-Infinity"; "NaN"]).
Proof.
  split; [eexists; split; [vm_compute; reflexivity | reflexivity]|].
  split; [eexists; split; [vm_compute; reflexivity | reflexivity]|].
  intros data context m1 m2 Hcmp H1 H12 H2 Hall Hm1 Hm2 Hzero.
  destruct (analyzeData_two_months NumberToString data context m1 m2
              Hcmp H1 H12 H2 Hall Hm1 Hm2) as (res & Hres & Hv).
  exists res, (growth_of NumberToString (mensal_of data m2) (mensal_of data m1)).
  split; [exact Hres|]. split; [exact Hv|].
  apply (growth_by_zero NumberToString _ _ false). exact Hzero.
Qed.

End AnalyzeSpec.

(** ** Numerals *)

Module DigitFacts.
Import JS NormalizerSpec.

Lemma append_nil_l (s : string) : String.append "" s = s.
Proof. reflexivity. Qed.

Lemma append_nil_r (s : string) : String.append s "" = s.
Proof. induction s as [|c s IH]; [reflexivity|]. now rewrite append_cons, IH. Qed.

(** The value of a string of decimal digits read after [acc]. *)
Fixpoint digits_value (acc : Z) (s : string) : Z :=
  match s with
  | EmptyString => acc
  | String c r => digits_value (10 * acc + digit_value c) r
  end.

Lemma digit_value_range (c : ascii) : is_digit c = true -> 0 <= digit_value c <= 9.
Proof.
  destruct c as [[] [] [] [] [] [] [] []]; vm_compute; intros; split; congruence.
Qed.

Lemma digits_value_bounds (s : string) : forall acc,
  all_chars is_digit s = true -> 0 <= acc ->
  acc * 10 ^ Z.of_nat (String.length s) <= digits_value acc s
    < (acc + 1) * 10 ^ Z.of_nat (String.length s).
Proof.
  induction s as [|c r IH]; intros acc Hs Hacc.
  - simpl. lia.
  - simpl in Hs. apply andb_true_iff in Hs as [Hc Hr].
    pose proof (digit_value_range c Hc) as Hd.
    cbn [digits_value String.length].
    specialize (IH (10 * acc + digit_value c) Hr ltac:(lia)).
    rewrite Nat2Z.inj_succ, Z.pow_succ_r by lia.
    assert (0 < 10 ^ Z.of_nat (String.length r)) by (apply Z.pow_pos_nonneg; lia).
    nia.
Qed.

Lemma read_digits_seen (s : string) : forall acc,
  all_chars is_digit s = true ->
  read_digits 10 acc true s = Some (digits_value acc s).
Proof.
  induction s as [|c r IH]; intros acc Hs; [reflexivity|].
  simpl in Hs. apply andb_true_iff in Hs as [Hc Hr].
  cbn [read_digits digits_value]. unfold radix_value.
  change (10 =? 16)%Z with false. cbv iota. rewrite Hc. now apply IH.
Qed.

(** The integer of a numeral without sign: its value in base 10. *)
Lemma parseInt_integer_digits (s : string) :
  all_chars is_digit s = true -> s <> "" -> parseInt_integer s = Some (digits_value 0 s).
Proof.
  intros Hs Hne. destruct s as [|c r]; [congruence|clear Hne].
  pose proof Hs as Hs'. simpl in Hs'. apply andb_true_iff in Hs' as [Hc Hr].
  assert (Hread : read_digits 10 0 false (String c r) = Some (digits_value 0 (String c r))).
  { cbn [read_digits digits_value]. unfold radix_value.
    change (10 =? 16)%Z with false. cbv iota. rewrite Hc. now apply read_digits_seen. }
  unfold parseInt_integer.
  rewrite trimStart_first by (now destruct (digit_not_special c Hc)).
  destruct c as [[] [] [] [] [] [] [] []]; try (vm_compute in Hc; discriminate);
    try (cbv zeta iota beta; rewrite Hread; reflexivity).
  (* the leading digit is 0: what follows is no x *)
  destruct r as [|c2 r2]; [reflexivity|].
  simpl in Hr. apply andb_true_iff in Hr as [Hc2 Hr2].
  destruct c2 as [[] [] [] [] [] [] [] []]; try (vm_compute in Hc2; discriminate);
    cbv zeta iota beta; rewrite Hread; reflexivity.
Qed.

Lemma parseInt_sign_digits (s : string) :
  all_chars is_digit s = true -> parseInt_sign s = false.
Proof.
  destruct s as [|c r]; [reflexivity|].
  intros Hs. simpl in Hs. apply andb_true_iff in Hs as [Hc _].
  unfold parseInt_sign.
  rewrite trimStart_first by (now destruct (digit_not_special c Hc)).
  destruct c as [[] [] [] [] [] [] [] []]; try reflexivity.
  vm_compute in Hc. discriminate.
Qed.

(** [parseInt] on a numeral without sign: the Number of its value. *)
Lemma parseInt_digits (s : string) :
  all_chars is_digit s = true -> s <> "" -> parseInt s = num_of_Z (digits_value 0 s).
Proof.
  intros Hs Hne. unfold parseInt.
  now rewrite parseInt_integer_digits, parseInt_sign_digits.
Qed.

Lemma digits_no (sep : ascii) (g : string) :
  is_digit sep = false ->
  all_chars is_digit g = true ->
  all_chars (fun c => negb (Ascii.eqb c sep)) g = true.
Proof.
  intros Hsep. apply all_chars_impl. intros c Hc.
  apply negb_true_iff, Ascii.eqb_neq. intros ->. congruence.
Qed.

Lemma digits_no_space (g : string) :
  all_chars is_digit g = true -> all_chars (fun c => negb (is_space c)) g = true.
Proof.
  apply all_chars_impl. intros c Hc.
  destruct (digit_not_special c Hc) as (-> & _). reflexivity.
Qed.

End DigitFacts.

(** ** What the query parser recognizes *)

Module QueryProps.
Import JS Query JSFacts NormalizerSpec ParseQuerySpec IntegerFacts DigitFacts.

(** *** Years *)

(** [year_at] with its pattern spelled out. *)
Lemma year_at_eq (prev : bool) (s : string) :
  year_at prev s =
  match s with
  | String c1 (String c2 (String d1 (String d2 rest))) =>
      if Ascii.eqb c1 "2" && Ascii.eqb c2 "0" && negb prev
         && is_digit d1 && is_digit d2 && negb (starts_word rest)
      then parseInt_integer (String "2" (String "0" (String d1 (String d2 EmptyString))))
      else None
  | _ => None
  end.
Proof.
  destruct s as [|c1 [|c2 [|d1 [|d2 rest]]]];
    try (destruct c1 as [[] [] [] [] [] [] [] []]; reflexivity);
    try (destruct c1 as [[] [] [] [] [] [] [] []]; try reflexivity;
         destruct c2 as [[] [] [] [] [] [] [] []]; reflexivity).
  reflexivity.
Qed.

(** The year written [20d1d2]. *)
Definition year_value (d1 d2 : ascii) : Z := 2000 + 10 * digit_value d1 + digit_value d2.

(** [pre] followed by the token [20d1d2] and by [post]. *)
Definition with_year (pre : string) (d1 d2 : ascii) (post : string) : string :=
  String.append pre (String "2" (String "0" (String d1 (String d2 post)))).

(** A year token in [s]: four characters [20d1d2] with two digits, not
    preceded and not followed by a word character. *)
Definition year_token (prev : bool) (s : string) (y : Z) : Prop :=
  exists pre d1 d2 post,
    s = with_year pre d1 d2 post /\
    is_digit d1 = true /\ is_digit d2 = true /\
    ends_word prev pre = false /\ starts_word post = false /\
    y = year_value d1 d2.

Lemma year_at_Some (prev : bool) (s : string) (y : Z) :
  year_at prev s = Some y <->
  exists d1 d2 post,
    s = with_year "" d1 d2 post /\
    is_digit d1 = true /\ is_digit d2 = true /\
    prev = false /\ starts_word post = false /\ y = year_value d1 d2.
Proof.
  rewrite year_at_eq. split.
  - destruct s as [|c1 [|c2 [|d1 [|d2 rest]]]]; try discriminate.
    destruct (Ascii.eqb c1 "2") eqn:E1; [|discriminate].
    destruct (Ascii.eqb c2 "0") eqn:E2; [|discriminate].
    destruct prev; [discriminate|].
    destruct (is_digit d1) eqn:D1; [|discriminate].
    destruct (is_digit d2) eqn:D2; [|discriminate].
    destruct (starts_word rest) eqn:W; [discriminate|].
    apply Ascii.eqb_eq in E1, E2. subst c1 c2. cbn [andb negb].
    rewrite parseInt_integer_digits by (simpl; now rewrite ?D1, ?D2).
    intros [= <-]. exists d1, d2, rest. repeat split; try assumption.
    unfold year_value. cbn [digits_value].
    change (digit_value "2") with 2. change (digit_value "0") with 0. lia.
  - intros (d1 & d2 & post & -> & D1 & D2 & -> & W & ->).
    unfold with_year. rewrite append_nil_l.
    rewrite !Ascii.eqb_refl, D1, D2, W. cbn [andb negb].
    rewrite parseInt_integer_digits by (simpl; now rewrite ?D1, ?D2).
    f_equal. unfold year_value. cbn [digits_value].
    change (digit_value "2") with 2. change (digit_value "0") with 0. lia.
Qed.

Lemma year_matches_In (s : string) : forall (prev : bool) (y : Z),
  In y (year_matches prev s) <-> year_token prev s y.
Proof.
  induction s as [|c r IH]; intros prev y.
  - simpl. split; [tauto|].
    intros (pre & d1 & d2 & post & H & _). destruct pre; discriminate.
  - assert (Hstep : In y (year_matches prev (String c r)) <->
                    year_at prev (String c r) = Some y \/
                    In y (year_matches (is_word c) r)).
    { cbn [year_matches]. destruct (year_at prev (String c r)) as [y'|]; simpl.
      - split; [intros [->|H]; auto | intros [[= ->]|H]; auto].
      - split; [auto | intros [H|H]; [discriminate | assumption]]. }
    rewrite Hstep, year_at_Some, IH. split.
    + intros [(d1 & d2 & post & Hs & D1 & D2 & -> & W & ->)|
              (pre & d1 & d2 & post & Hs & D1 & D2 & E & W & ->)].
      * exists "", d1, d2, post. repeat split; assumption.
      * exists (String c pre), d1, d2, post. unfold with_year in *.
        rewrite append_cons, Hs. repeat split; assumption.
    + intros ([|c' pre] & d1 & d2 & post & Hs & D1 & D2 & E & W & ->).
      * left. exists d1, d2, post. repeat split; assumption.
      * right. unfold with_year in Hs. rewrite append_cons in Hs.
        injection Hs as -> ->.
        exists pre, d1, d2, post. repeat split; assumption.
Qed.

(** X15. The years of the context are exactly the tokens [20d1d2] of the
    query that stand alone, with no word character before or after: all
    are between 2000 and 2099, and a year of another century is not
    recognized. *)
Theorem parseQuery_years (query : string) (allData : list Row) :
  (forall y, In y (years (parseQuery query allData)) <-> year_token false query y) /\
  (forall y, In y (years (parseQuery query allData)) -> 2000 <= y <= 2099).
Proof.
  assert (H : forall y, In y (years (parseQuery query allData)) <->
                        year_token false query y)
    by (intros y; apply year_matches_In).
  split; [exact H|].
  intros y Hy. apply H in Hy as (pre & d1 & d2 & post & _ & D1 & D2 & _ & _ & ->).
  pose proof (digit_value_range d1 D1). pose proof (digit_value_range d2 D2).
  unfold year_value. lia.
Qed.

(** *** Months *)

Lemma add_month_In (lower : string) (acc : list Z) (name : string) (num m : Z) :
  In m (add_month lower acc (name, num)) <->
  In m acc \/ (m = num /\ includes lower name = true).
Proof.
  unfold add_month. destruct (includes lower name) eqn:E.
  - destruct (Array_includes acc num) eqn:I.
    + apply Array_includes_In in I. split; [tauto|].
      intros [H|[-> _]]; assumption.
    + rewrite in_app_iff. simpl. split; [intros [H|[->|[]]]; auto | ].
      intros [H|[-> _]]; auto.
  - split; [tauto|]. intros [H|[_ H]]; [assumption | discriminate].
Qed.

Lemma fold_add_month_In (lower : string) (table : list (string * Z)) :
  forall (acc : list Z) (m : Z),
  In m (fold_left (add_month lower) table acc) <->
  In m acc \/ exists name, In (name, m) table /\ includes lower name = true.
Proof.
  induction table as [|[name num] table IH]; intros acc m; cbn [fold_left].
  - split; [tauto|]. intros [H|(name & [] & _)]. assumption.
  - rewrite IH, add_month_In. split.
    + intros [[Ha|[-> Hi]]|(n & Hin & Hi)]; [tauto | |].
      * right. exists name. split; [now left | assumption].
      * right. exists n. split; [now right | assumption].
    + intros [Ha|(n & [[= -> ->]|Hin] & Hi)]; [tauto | tauto |].
      right. exists n. tauto.
Qed.

Lemma StronglySorted_snoc (l : list Z) (x : Z) :
  StronglySorted Z.lt l -> (forall y, In y l -> y < x) ->
  StronglySorted Z.lt (l ++ [x]).
Proof.
  induction l as [|a l IH]; intros Hs Hlt; simpl.
  - repeat constructor.
  - apply StronglySorted_inv in Hs as [Hs Ha]. constructor.
    + apply IH; [assumption | intros y Hy; apply Hlt; now right].
    + apply List.Forall_forall. intros y Hy. apply in_app_iff in Hy as [Hy|[<-|[]]].
      * rewrite List.Forall_forall in Ha. now apply Ha.
      * apply Hlt. now left.
Qed.

Lemma fold_add_month_sorted (lower : string) (table : list (string * Z)) :
  forall acc : list Z,
  StronglySorted Z.le (map snd table) ->
  StronglySorted Z.lt acc ->
  (forall x e, In x acc -> In e table -> x <= snd e) ->
  StronglySorted Z.lt (fold_left (add_month lower) table acc).
Proof.
  induction table as [|[name num] table IH]; intros acc Ht Hs Hle; cbn [fold_left];
    [assumption|].
  simpl in Ht. apply StronglySorted_inv in Ht as [Ht Hnum].
  rewrite List.Forall_forall in Hnum.
  assert (Hnext : forall e, In e table -> num <= snd e).
  { intros e He. apply Hnum. now apply in_map. }
  apply IH; [assumption | |].
  - unfold add_month. destruct (includes lower name); [|assumption].
    destruct (Array_includes acc num) eqn:I; [assumption|].
    apply StronglySorted_snoc; [assumption|].
    intros y Hy.
    assert (y <= num) by (apply (Hle y (name, num)); [assumption | now left]).
    assert (y <> num).
    { intros ->. apply (proj2 (Array_includes_In acc num)) in Hy. congruence. }
    lia.
  - intros x e Hx He. apply add_month_In in Hx as [Hx|[-> _]].
    + apply (Hle x e); [assumption | now right].
    + now apply Hnext.
Qed.

(** X16. A month is in the context exactly when one of its names in
    [MONTHS_PT] occurs somewhere in the lowercased query, inside a longer
    word or not; the months come in calendar order, each once. *)
Theorem parseQuery_months (query : string) (allData : list Row) :
  (forall m, In m (months (parseQuery query allData)) <->
             exists name, In (name, m) MONTHS_PT /\
                          includes (toLowerCase query) name = true) /\
  StronglySorted Z.lt (months (parseQuery query allData)) /\
  (forall m, In m (months (parseQuery query allData)) -> 1 <= m <= 12).
Proof.
  assert (H : forall m, In m (months (parseQuery query allData)) <->
             exists name, In (name, m) MONTHS_PT /\
                          includes (toLowerCase query) name = true).
  { intros m. cbn [parseQuery months]. rewrite fold_add_month_In. simpl In at 1. tauto. }
  split; [exact H|]. split.
  - cbn [parseQuery months]. apply fold_add_month_sorted.
    + unfold MONTHS_PT. cbn [map snd].
      repeat (apply SSorted_cons;
              [|apply List.Forall_forall; intros z Hz; simpl in Hz; lia]).
      constructor.
    + constructor.
    + intros x e [].
  - intros m Hm. apply H in Hm as (name & Hin & _).
    simpl in Hin.
    repeat (destruct Hin as [[= _ <-]|Hin]; [lia|]). destruct Hin.
Qed.

(** *** Top N *)

Lemma take_digits_all (s : string) : all_chars is_digit (take_digits s) = true.
Proof.
  induction s as [|c r IH]; [reflexivity|].
  simpl. destruct (is_digit c) eqn:E; [|reflexivity]. simpl. now rewrite E.
Qed.

Lemma top_alt_digits (alts : list string) (s ds : string) :
  top_alt alts s = Some ds -> all_chars is_digit ds = true /\ ds <> "".
Proof.
  induction alts as [|w alts IH]; [discriminate|].
  cbn [top_alt]. destruct (strip_prefix w s) as [rest|]; [|exact IH].
  pose proof (take_digits_all (skip_spaces rest)) as Hall.
  destruct (take_digits (skip_spaces rest)) as [|c r]; [exact IH|].
  intros [= <-]. split; [assumption | discriminate].
Qed.

Lemma top_match_digits (s : string) : forall (prev : bool) (ds : string),
  top_match prev s = Some ds -> all_chars is_digit ds = true /\ ds <> "".
Proof.
  assert (Hat : forall prev s ds, top_at prev s = Some ds ->
                                  all_chars is_digit ds = true /\ ds <> "").
  { intros prev s' ds. unfold top_at. destruct (boundary prev s'); [|discriminate].
    apply top_alt_digits. }
  induction s as [|c r IH]; intros prev ds; cbn [top_match].
  - destruct (top_at prev "") eqn:E; [|discriminate].
    intros [= <-]. now apply (Hat prev "").
  - destruct (top_at prev (String c r)) eqn:E.
    + intros [= <-]. now apply (Hat prev (String c r)).
    + apply IH.
Qed.

(** X17. [topN] is set exactly when the pattern of the keyword followed
    by digits matches.  It is then the integer that [parseInt] of these
    digits holds: their decimal value when this is below 2^53, and beyond
    the integer of the nearest binary64 Number, for as long as that
    Number is finite.  It is never negative. *)
Theorem parseQuery_topN (query : string) (allData : list Row) :
  let matched := top_match false (toLowerCase query) in
  (topN (parseQuery query allData) = None <-> matched = None) /\
  (forall ds, matched = Some ds ->
     all_chars is_digit ds = true /\ ds <> "" /\
     parseInt ds = num_of_Z (digits_value 0 ds) /\
     (forall n, integer_of (parseInt ds) = Some n ->
                topN (parseQuery query allData) = Some n) /\
     (digits_value 0 ds < 2 ^ 53 ->
      topN (parseQuery query allData) = Some (digits_value 0 ds))) /\
  (forall n, topN (parseQuery query allData) = Some n -> 0 <= n).
Proof.
  cbv zeta. cbn [parseQuery topN].
  destruct (top_match false (toLowerCase query)) as [ds|] eqn:E.
  2: { split; [tauto|]. split; [discriminate|]. discriminate. }
  apply top_match_digits in E as [Hall Hne].
  pose proof (digits_value_bounds ds 0 Hall ltac:(lia)) as [Hv _].
  rewrite Z.mul_0_l in Hv.
  assert (Hnum : parseInt ds = num_of_Z (digits_value 0 ds))
    by now apply parseInt_digits.
  assert (Hint : parseInt_integer ds = Some (digits_value 0 ds))
    by now apply parseInt_integer_digits.
  split; [|split].
  - split; [|discriminate].
    destruct (integer_of (parseInt ds)); [discriminate | congruence].
  - intros ds' [= <-]. repeat split; try assumption.
    + intros n Hn. now rewrite Hn.
    + intros Hsmall. rewrite Hnum, num_of_Z_exact; [reflexivity|].
      now rewrite Z.abs_eq.
  - intros n. rewrite Hnum, Hint.
    destruct (integer_of (num_of_Z (digits_value 0 ds))) as [k|] eqn:Ek.
    + intros [= <-]. exact (num_of_Z_integer_nonneg _ _ Hv Ek).
    + intros [= <-]. lia.
Qed.

(** *** Products, categories and regions *)

Lemma unique_entities_iff (field : Row -> option string) (allData : list Row)
    (name : string) :
  In name (unique_entities field allData) <->
  name <> "" /\ exists row, In row allData /\ field row = Some name.
Proof.
  split; [apply unique_entities_In|].
  intros (Hne & row & Hrow & Hf).
  unfold unique_entities. rewrite Set_values_In, filter_In. split.
  - apply list_elem_of_In, list_elem_of_omap. exists row.
    split; [now apply list_elem_of_In | assumption].
  - now apply negb_true_iff, String.eqb_neq.
Qed.

Lemma mentioned_iff (lower : string) (field : Row -> option string)
    (allData : list Row) (name : string) :
  In name (mentioned lower (unique_entities field allData)) <->
  name <> "" /\ (exists row, In row allData /\ field row = Some name) /\
  includes lower (toLowerCase name) = true.
Proof.
  unfold mentioned. rewrite filter_In, unique_entities_iff. tauto.
Qed.

Lemma mentioned_NoDup (lower : string) (field : Row -> option string)
    (allData : list Row) :
  List.NoDup (mentioned lower (unique_entities field allData)).
Proof. apply List.NoDup_filter, Set_values_NoDup. Qed.

(** X18. A product, category or region enters the context exactly when it is a
    non-empty value of the known rows whose lowercased name occurs
    somewhere in the lowercased query; each is listed once. *)
Theorem parseQuery_entities (query : string) (allData : list Row) :
  let context := parseQuery query allData in
  let named (field : Row -> option string) (name : string) :=
    name <> "" /\ (exists row, In row allData /\ field row = Some name) /\
    includes (toLowerCase query) (toLowerCase name) = true in
  (forall p, In p (produtos context) <-> named Produto p) /\
  (forall c, In c (categorias context) <-> named Categoria c) /\
  (forall r, In r (regioes context) <-> named Regiao r) /\
  List.NoDup (produtos context) /\ List.NoDup (categorias context) /\
  List.NoDup (regioes context).
Proof.
  cbv zeta. cbn [parseQuery produtos categorias regioes].
  split; [intros p; apply mentioned_iff|].
  split; [intros c; apply mentioned_iff|].
  split; [intros r; apply mentioned_iff|].
  split; [|split]; apply mentioned_NoDup.
Qed.

(** *** Upper and lower case *)

Lemma lower_char_facts (c : ascii) :
  lower_char (lower_char c) = lower_char c /\
  is_word (lower_char c) = is_word c /\
  is_digit (lower_char c) = is_digit c /\
  (is_digit c = true -> lower_char c = c) /\
  Ascii.eqb (lower_char c) "2" = Ascii.eqb c "2" /\
  Ascii.eqb (lower_char c) "0" = Ascii.eqb c "0".
Proof.
  destruct c as [[] [] [] [] [] [] [] []]; vm_compute;
    repeat split; intros; congruence.
Qed.

Lemma toLowerCase_idem (s : string) : toLowerCase (toLowerCase s) = toLowerCase s.
Proof.
  induction s as [|c s IH]; [reflexivity|].
  cbn [toLowerCase]. rewrite IH.
  now destruct (lower_char_facts c) as (-> & _).
Qed.

Lemma starts_word_lower (s : string) : starts_word (toLowerCase s) = starts_word s.
Proof.
  destruct s as [|c s]; [reflexivity|]. cbn [toLowerCase starts_word].
  now destruct (lower_char_facts c) as (_ & -> & _).
Qed.

Lemma year_at_lower (prev : bool) (s : string) :
  year_at prev (toLowerCase s) = year_at prev s.
Proof.
  rewrite !year_at_eq.
  destruct s as [|c1 [|c2 [|d1 [|d2 rest]]]]; try reflexivity.
  cbn [toLowerCase].
  destruct (lower_char_facts c1) as (_ & _ & _ & _ & -> & _).
  destruct (lower_char_facts c2) as (_ & _ & _ & _ & _ & ->).
  destruct (lower_char_facts d1) as (_ & _ & -> & K1 & _).
  destruct (lower_char_facts d2) as (_ & _ & -> & K2 & _).
  rewrite starts_word_lower.
  destruct (is_digit d1); [|now rewrite !andb_false_r].
  destruct (is_digit d2); [|now rewrite !andb_false_r].
  now rewrite K1, K2.
Qed.

Lemma year_matches_lower (s : string) : forall prev : bool,
  year_matches prev (toLowerCase s) = year_matches prev s.
Proof.
  induction s as [|c s IH]; intros prev; [reflexivity|].
  change (toLowerCase (String c s)) with (String (lower_char c) (toLowerCase s)).
  cbn [year_matches].
  change (String (lower_char c) (toLowerCase s)) with (toLowerCase (String c s)).
  rewrite year_at_lower, IH.
  now destruct (lower_char_facts c) as (_ & -> & _).
Qed.

(** X19. On the strings of this development, whose characters are those
    of Latin-1, the parser does not tell upper case from lower case: a
    query and its lowercased form give the same context.  (Beyond Latin-1
    this is not so: the Kelvin sign U+212A is no word character and its
    lower case [k] is one, which changes where a year may stand.) *)
Theorem parseQuery_case_insensitive (query : string) (allData : list Row) :
  parseQuery (toLowerCase query) allData = parseQuery query allData.
Proof.
  unfold parseQuery. now rewrite toLowerCase_idem, year_matches_lower.
Qed.

End QueryProps.

(** ** Headers and dates, once more *)

Module HeaderProps.
Import JS Normalizer NormalizerSpec.

Lemma first_standard_In (cleaned : string) (table : list (string * list string))
    (standard : string) :
  first_standard cleaned table = Some standard -> In standard (map fst table).
Proof.
  induction table as [|[st variants] table IH]; [discriminate|].
  cbn [first_standard]. destruct (existsb _ variants).
  - intros [= <-]. now left.
  - intros H. right. now apply IH.
Qed.

(** X6. The result of [normalizeHeader] is a key of [SCHEMA_MAPPING] or the
    header as it came.  Normalising the result again changes nothing,
    except for [Quantidade], which is mapped to [ID_Transacao]: the name
    holds the variant [id]. *)
Theorem normalizeHeader_again (header : string) :
  (In (normalizeHeader header) (map fst SCHEMA_MAPPING) \/
   normalizeHeader header = header) /\
  normalizeHeader (normalizeHeader header) =
    if String.eqb (normalizeHeader header) "Quantidade" then "ID_Transacao"
    else normalizeHeader header.
Proof.
  destruct (first_standard (clean_header header) SCHEMA_MAPPING) as [standard|] eqn:E.
  - assert (Hn : normalizeHeader header = standard)
      by (unfold normalizeHeader; now rewrite E).
    apply first_standard_In in E. rewrite Hn. split; [now left|].
    simpl in E.
    repeat (destruct E as [<-|E]; [reflexivity|]). destruct E.
  - assert (Hn : normalizeHeader header = header)
      by (unfold normalizeHeader; now rewrite E).
    rewrite !Hn. split; [now right|].
    destruct (String.eqb header "Quantidade") eqn:Q; [|reflexivity].
    apply String.eqb_eq in Q. subst header. vm_compute in E. discriminate.
Qed.

End HeaderProps.

Module DateProps.
Import JS Normalizer NormalizerSpec IntegerFacts DigitFacts.

(** *** Trimming *)

Lemma trimEnd_head (c : ascii) (s : string) :
  is_space c = false -> exists r, trimEnd (String c s) = String c r.
Proof.
  intros Hc. cbn [trimEnd]. destruct (trimEnd s); rewrite ?Hc; eauto.
Qed.

Lemma trimEnd_cons (c : ascii) (s : string) :
  trimEnd (String c s) =
  match trimEnd s with
  | EmptyString => if is_space c then EmptyString else String c EmptyString
  | r => String c r
  end.
Proof. reflexivity. Qed.

Lemma trimEnd_idem (s : string) : trimEnd (trimEnd s) = trimEnd s.
Proof.
  induction s as [|c s IH]; [reflexivity|].
  rewrite (trimEnd_cons c s). destruct (trimEnd s) as [|d r] eqn:E.
  - destruct (is_space c) eqn:Hc; [reflexivity|].
    rewrite trimEnd_cons. cbn [trimEnd]. now rewrite Hc.
  - rewrite trimEnd_cons, IH. reflexivity.
Qed.

Lemma trimStart_head (s : string) :
  trimStart s = "" \/ exists c r, trimStart s = String c r /\ is_space c = false.
Proof.
  induction s as [|c s IH]; [now left|].
  cbn [trimStart]. destruct (is_space c) eqn:Hc; [exact IH|].
  right. eauto.
Qed.

Lemma trim_idem (s : string) : trim (trim s) = trim s.
Proof.
  unfold trim. destruct (trimStart_head s) as [->|(c & r & -> & Hc)]; [reflexivity|].
  destruct (trimEnd_head c r Hc) as (r' & E).
  rewrite <- (trimEnd_idem (String c r)) at 2. f_equal.
  rewrite E. now apply trimStart_first.
Qed.

(** *** The two shapes *)

Definition dash_cell (y m d : string) : string :=
  String.append y (String "-" (String.append m (String "-" d))).

(** A cell [y-m-d] of four digits, one or two digits and one or two
    digits. *)
Lemma parse_trimmed_dash (y m d : string) :
  digits_between 4 4 y = true ->
  digits_between 1 2 m = true ->
  digits_between 1 2 d = true ->
  trim (dash_cell y m d) = dash_cell y m d /\
  String.eqb (dash_cell y m d) "" = false /\
  parse_trimmed (dash_cell y m d) =
    Some (mkParsedDate (dash_cell y (padStart2 m) (padStart2 d))
                       (group_value y) (group_value m)).
Proof.
  intros Hy Hm Hd.
  pose proof (digits_between_all _ _ _ Hy) as Ay.
  pose proof (digits_between_all _ _ _ Hm) as Am.
  pose proof (digits_between_all _ _ _ Hd) as Ad.
  split; [|split].
  - apply trim_no_space. unfold dash_cell.
    rewrite all_chars_append. simpl. rewrite all_chars_append. simpl.
    now rewrite !digits_no_space.
  - unfold digits_between in Hy. destruct y; [discriminate | reflexivity].
  - unfold parse_trimmed, match_ymd, dash_cell.
    rewrite (split_at "-" y), (split_at "-" m), (split_none "-" d)
      by (now apply digits_no).
    now rewrite Hy, Hm, Hd.
Qed.

Lemma parseDate_dash (y m d : string) :
  digits_between 4 4 y = true ->
  digits_between 1 2 m = true ->
  digits_between 1 2 d = true ->
  parseDate (Some (dash_cell y m d)) =
    Some (mkParsedDate (dash_cell y (padStart2 m) (padStart2 d))
                       (group_value y) (group_value m)).
Proof.
  intros Hy Hm Hd.
  destruct (parse_trimmed_dash y m d Hy Hm Hd) as (Ht & Hne & Hp).
  unfold parseDate. now rewrite Hne, Ht.
Qed.

(** Every result of [parse_trimmed] comes from one of the two shapes. *)
Lemma parse_trimmed_shape (str : string) (p : ParsedDate) :
  parse_trimmed str = Some p ->
  (exists y m d,
      digits_between 4 4 y = true /\ digits_between 1 2 m = true /\
      digits_between 1 2 d = true /\
      p = mkParsedDate (dash_cell y (padStart2 m) (padStart2 d))
                       (group_value y) (group_value m)) \/
  (exists g1 g2 g3 day month,
      digits_between 1 2 g1 = true /\ digits_between 1 2 g2 = true /\
      digits_between 4 4 g3 = true /\
      ((day = group_value g1 /\ month = group_value g2) \/
       (day = group_value g2 /\ month = group_value g1)) /\
      p = mkParsedDate
            (dash_cell (Z_toString (group_value g3))
                       (padStart2 (Z_toString month)) (padStart2 (Z_toString day)))
            (group_value g3) month).
Proof.
  unfold parse_trimmed.
  destruct (match_ymd str) as [[[y m] d]|] eqn:Eymd.
  - intros [= <-]. left. exists y, m, d.
    unfold match_ymd in Eymd.
    destruct (split "-" str) as [|a [|b [|c [|? ?]]]]; try discriminate.
    destruct (digits_between 4 4 a) eqn:Ha; [|discriminate].
    destruct (digits_between 1 2 b) eqn:Hb; [|discriminate].
    destruct (digits_between 1 2 c) eqn:Hc; [|discriminate].
    injection Eymd as <- <- <-. repeat split; assumption.
  - destruct (match_dmy str) as [[[g1 g2] g3]|] eqn:Edmy; [|discriminate].
    unfold match_dmy in Edmy.
    destruct (split "/" str) as [|a [|b [|c [|? ?]]]]; try discriminate.
    destruct (digits_between 1 2 a) eqn:Ha; [|discriminate].
    destruct (digits_between 1 2 b) eqn:Hb; [|discriminate].
    destruct (digits_between 4 4 c) eqn:Hc; [|discriminate].
    injection Edmy as <- <- <-.
    destruct (12 <? group_value a)%Z; intros [= <-]; right.
    + exists a, b, c, (group_value a), (group_value b). repeat split; auto.
    + exists a, b, c, (group_value b), (group_value a). repeat split; auto.
Qed.

Lemma group_value_range (lo hi : nat) (s : string) :
  (1 <= lo)%nat -> digits_between lo hi s = true ->
  0 <= group_value s < 10 ^ Z.of_nat hi.
Proof.
  intros Hlo H. unfold digits_between in H.
  apply andb_true_iff in H as [Hall Hlen].
  apply andb_true_iff in Hlen as [Hl Hh].
  apply Nat.leb_le in Hl, Hh.
  assert (Hne : s <> "") by (destruct s; [simpl in Hl; lia | discriminate]).
  unfold group_value. rewrite (parseInt_integer_digits s Hall Hne). simpl.
  pose proof (digits_value_bounds s 0 Hall ltac:(lia)) as Hb.
  assert (10 ^ Z.of_nat (String.length s) <= 10 ^ Z.of_nat hi)
    by (apply Z.pow_le_mono_r; lia).
  lia.
Qed.

(** On a capture group of the two date patterns, which holds at most four
    digits, the Number that [parseInt] returns holds the integer that
    [group_value] gives. *)
Lemma group_value_exact (lo hi : nat) (s : string) :
  (1 <= lo)%nat -> (hi <= 4)%nat -> digits_between lo hi s = true ->
  integer_of (parseInt s) = Some (group_value s).
Proof.
  intros Hlo Hhi H. pose proof (group_value_range lo hi s Hlo H) as Hr.
  assert (10 ^ Z.of_nat hi <= 10 ^ 4) by (apply Z.pow_le_mono_r; lia).
  unfold digits_between in H. apply andb_true_iff in H as [Hall Hlen].
  apply andb_true_iff in Hlen as [Hl _]. apply Nat.leb_le in Hl.
  assert (Hne : s <> "") by (destruct s; [simpl in Hl; lia | discriminate]).
  unfold group_value in *.
  rewrite (parseInt_digits s Hall Hne).
  rewrite (parseInt_integer_digits s Hall Hne) in *. cbn [int_or0] in *.
  apply num_of_Z_exact. rewrite Z.abs_eq by lia.
  assert (10 ^ 4 < 2 ^ 53) by reflexivity. lia.
Qed.

(** X7. [parseDate] checks the shape of a cell and not the calendar: the year
    it returns is between 0 and 9999 and the month between 0 and 99, and a
    cell [y-m-d] of digits is accepted whatever its month and day. *)
Theorem parseDate_unchecked :
  (forall v p, parseDate v = Some p -> 0 <= year p <= 9999 /\ 0 <= month p <= 99) /\
  (forall y m d,
      digits_between 4 4 y = true ->
      digits_between 1 2 m = true ->
      digits_between 1 2 d = true ->
      parseDate (Some (dash_cell y m d)) =
        Some (mkParsedDate (dash_cell y (padStart2 m) (padStart2 d))
                           (group_value y) (group_value m))) /\
  parseDate (Some "2024-13-45") = Some (mkParsedDate "2024-13-45" 2024 13).
Proof.
  split; [|split; [exact parseDate_dash | reflexivity]].
  intros v p H. unfold parseDate in H.
  destruct v as [raw|]; [|discriminate].
  destruct (String.eqb raw ""); [discriminate|].
  apply parse_trimmed_shape in H
    as [(y & m & d & Hy & Hm & Hd & ->)|
        (g1 & g2 & g3 & day & mon & H1 & H2 & H3 & Hdm & ->)]; cbn [year month].
  - pose proof (group_value_range 4 4 y ltac:(lia) Hy).
    pose proof (group_value_range 1 2 m ltac:(lia) Hm).
    change (10 ^ Z.of_nat 4) with 10000 in *. change (10 ^ Z.of_nat 2) with 100 in *. lia.
  - pose proof (group_value_range 4 4 g3 ltac:(lia) H3).
    pose proof (group_value_range 1 2 g1 ltac:(lia) H1).
    pose proof (group_value_range 1 2 g2 ltac:(lia) H2).
    change (10 ^ Z.of_nat 4) with 10000 in *. change (10 ^ Z.of_nat 2) with 100 in *.
    destruct Hdm as [[-> ->]|[-> ->]]; lia.
Qed.

End DateProps.

(** *** The normalised date is a date *)

Module DateNormalForm.
Import JS Normalizer NormalizerSpec DigitFacts DateProps.

(** A check that holds on every integer of a range, by enumeration. *)
Lemma forall_range (P : Z -> bool) (lo len : Z) :
  forallb P (map (fun i => lo + Z.of_nat i) (seq 0 (Z.to_nat len))) = true ->
  forall z, lo <= z < lo + len -> P z = true.
Proof.
  intros H z Hz. rewrite forallb_forall in H. apply H.
  apply in_map_iff. exists (Z.to_nat (z - lo)). split; [lia|].
  apply in_seq. lia.
Qed.

Definition four_digits (z : Z) : bool :=
  digits_between 4 4 (Z_toString z) && (group_value (Z_toString z) =? z)%Z.

Definition two_digits (z : Z) : bool :=
  digits_between 1 2 (Z_toString z) && (group_value (Z_toString z) =? z)%Z.

Lemma Z_toString_year (z : Z) :
  1000 <= z <= 9999 ->
  digits_between 4 4 (Z_toString z) = true /\ group_value (Z_toString z) = z.
Proof.
  intros Hz.
  assert (H : four_digits z = true).
  { apply (forall_range four_digits 1000 9000); [vm_compute; reflexivity | lia]. }
  unfold four_digits in H. apply andb_true_iff in H as [H1 H2].
  apply Z.eqb_eq in H2. now split.
Qed.

Lemma Z_toString_two (z : Z) :
  0 <= z <= 99 ->
  digits_between 1 2 (Z_toString z) = true /\ group_value (Z_toString z) = z.
Proof.
  intros Hz.
  assert (H : two_digits z = true).
  { apply (forall_range two_digits 0 100); [vm_compute; reflexivity | lia]. }
  unfold two_digits in H. apply andb_true_iff in H as [H1 H2].
  apply Z.eqb_eq in H2. now split.
Qed.

(** [padStart(2, '0')] on one or two digits. *)
Lemma padStart2_digits (m : string) :
  digits_between 1 2 m = true ->
  digits_between 1 2 (padStart2 m) = true /\
  padStart2 (padStart2 m) = padStart2 m /\
  group_value (padStart2 m) = group_value m.
Proof.
  intros H. pose proof H as H'. unfold digits_between in H'.
  apply andb_true_iff in H' as [Hall Hlen].
  destruct m as [|c1 [|c2 [|c3 r]]]; try discriminate.
  - (* one digit *)
    simpl in Hall. rewrite andb_true_r in Hall.
    assert (Hall2 : all_chars is_digit (String "0" (String c1 "")) = true)
      by (simpl; now rewrite Hall).
    change (padStart2 (String c1 "")) with (String "0" (String c1 "")).
    split; [|split].
    + unfold digits_between. now rewrite Hall2.
    + reflexivity.
    + unfold group_value.
      rewrite (parseInt_integer_digits _ Hall2) by discriminate.
      rewrite (parseInt_integer_digits (String c1 "")) by (simpl; now rewrite ?Hall).
      cbn [digits_value int_or0]. change (digit_value "0") with 0. f_equal.
  - (* two digits *)
    now repeat split.
Qed.

(** X8. The [date] that [parseDate] returns is a cell that [parseDate] reads
    to the same result, when the year has four digits as a number: a year
    below 1000 of a cell with slashes is printed without its leading
    zeros, and the [date] no longer parses. *)
Theorem parseDate_date_reparsed (v : option string) (p : ParsedDate) :
  parseDate v = Some p -> 1000 <= year p ->
  parseDate (Some (date p)) = Some p.
Proof.
  intros H Hyear. unfold parseDate in H.
  destruct v as [raw|]; [|discriminate].
  destruct (String.eqb raw ""); [discriminate|].
  apply parse_trimmed_shape in H
    as [(y & m & d & Hy & Hm & Hd & ->)|
        (g1 & g2 & g3 & day & mon & H1 & H2 & H3 & Hdm & ->)]; cbn [date year] in *.
  - destruct (padStart2_digits m Hm) as (Pm & Im & Vm).
    destruct (padStart2_digits d Hd) as (Pd & Id & Vd).
    rewrite (parseDate_dash y (padStart2 m) (padStart2 d) Hy Pm Pd).
    now rewrite Im, Id, Vm.
  - pose proof (group_value_range 4 4 g3 ltac:(lia) H3) as R3.
    pose proof (group_value_range 1 2 g1 ltac:(lia) H1) as R1.
    pose proof (group_value_range 1 2 g2 ltac:(lia) H2) as R2.
    change (10 ^ Z.of_nat 4) with 10000 in *. change (10 ^ Z.of_nat 2) with 100 in *.
    assert (Rd : 0 <= day <= 99) by (destruct Hdm as [[-> ->]|[-> ->]]; lia).
    assert (Rm : 0 <= mon <= 99) by (destruct Hdm as [[-> ->]|[-> ->]]; lia).
    destruct (Z_toString_year (group_value g3) ltac:(lia)) as (Yd & Yv).
    destruct (Z_toString_two mon Rm) as (Md & Mv).
    destruct (Z_toString_two day Rd) as (Dd & Dv).
    destruct (padStart2_digits _ Md) as (Pm & Im & Vm).
    destruct (padStart2_digits _ Dd) as (Pd & Id & Vd).
    rewrite (parseDate_dash _ _ _ Yd Pm Pd).
    now rewrite Im, Id, Vm, Yv, Mv.
Qed.

Lemma parseDate_date_reparsed_witness :
  parseDate (Some "2024-03-15") = Some (mkParsedDate "2024-03-15" 2024 3).
Proof.
  exact (parseDate_date_reparsed (Some "15/03/2024")
           (mkParsedDate "2024-03-15" 2024 3) eq_refl ltac:(simpl; lia)).
Defined.

(** X9. Surrounding white space is ignored, and a cell of white space alone
    is no date. *)
Theorem parseDate_trim (raw : string) :
  parseDate (Some raw) = parseDate (Some (trim raw)) /\
  (trim raw = "" -> parseDate (Some raw) = None).
Proof.
  assert (Hblank : trim raw = "" -> parseDate (Some raw) = None).
  { intros E. unfold parseDate. rewrite E. now destruct (String.eqb raw ""). }
  split; [|exact Hblank].
  destruct (String.eqb (trim raw) "") eqn:E.
  - apply String.eqb_eq in E. now rewrite (Hblank E), E.
  - unfold parseDate. rewrite E, trim_idem.
    destruct (String.eqb raw "") eqn:E'; [|reflexivity].
    apply String.eqb_eq in E'. subst raw. discriminate.
Qed.

End DateNormalForm.

(** ** The fields of a normalised row *)

Module RowProps.
Import JS Normalizer NormalizerSpec QuantitySpec DigitFacts.

(** [original] is the last header of the map that is mapped to
    [standard]. *)
Definition last_mapped (headerMap : list (string * string))
    (standard original : string) : Prop :=
  exists before after,
    headerMap = before ++ (original, standard) :: after /\
    forall o, ~ In (o, standard) after.

Definition date_keys : list string := ["Data"; "Ano"; "Mes"; "Trimestre"].

(** One iteration writes under its own standard name only; when that name
    is [Data] it writes under the four date keys, and only if the cell
    parses. *)
Lemma normalize_entry_frame (row : gmap string string) (normalized : gmap string value)
    (original standard k : string) :
  (standard = "Data" -> parseDate (row !! original) = None \/ ~ In k date_keys) ->
  (standard <> "Data" -> k <> standard) ->
  normalize_entry row normalized (original, standard) !! k = normalized !! k.
Proof.
  intros Hdate Hk. unfold normalize_entry.
  destruct (String.eqb standard "Data") eqn:HD.
  - apply String.eqb_eq in HD.
    destruct (Hdate HD) as [->|Hnot]; [reflexivity|].
    destruct (parseDate (row !! original)); [|reflexivity].
    unfold date_keys in Hnot. simpl in Hnot.
    rewrite !lookup_insert_ne; [reflexivity | | | |]; intros E; apply Hnot; auto.
  - apply String.eqb_neq in HD. specialize (Hk HD).
    destruct (String.eqb standard "Quantidade") eqn:HQ.
    + apply String.eqb_eq in HQ. subst standard.
      now rewrite lookup_insert_ne by congruence.
    + destruct (String.eqb standard "Preco_Unitario" || String.eqb standard "Receita_Total").
      * now rewrite lookup_insert_ne by congruence.
      * destruct (row !! original).
        -- now rewrite lookup_insert_ne by congruence.
        -- now rewrite lookup_delete_ne by congruence.
Qed.

Lemma fold_frame (row : gmap string string) (l : list (string * string)) (k : string) :
  forall init : gmap string value,
  (forall o s, In (o, s) l ->
     (s = "Data" -> parseDate (row !! o) = None \/ ~ In k date_keys) /\
     (s <> "Data" -> k <> s)) ->
  fold_left (normalize_entry row) l init !! k = init !! k.
Proof.
  induction l as [|[o s] l IH]; intros init H; [reflexivity|].
  cbn [fold_left]. rewrite IH by (intros o' s' Hin; apply H; now right).
  destruct (H o s (or_introl eq_refl)) as [Hd Hk].
  now apply normalize_entry_frame.
Qed.

(** The price that [parseFloat(cleaned) || 0] leaves for a raw cell. *)
Definition price_of (cell : option string) : number :=
  let x := parseFloat (clean_price cell) in
  if num_truthy x then x else num_zero.

Lemma normalize_entry_own (row : gmap string string) (normalized : gmap string value)
    (original : string) :
  normalize_entry row normalized (original, "Quantidade") !! "Quantidade"
    = Some (VNum (num_of_Z (quantity_of (row !! original)))) /\
  normalize_entry row normalized (original, "Preco_Unitario") !! "Preco_Unitario"
    = Some (VNum (price_of (row !! original))) /\
  normalize_entry row normalized (original, "Receita_Total") !! "Receita_Total"
    = Some (VNum (price_of (row !! original))).
Proof.
  rewrite <- parseInt_or0.
  unfold normalize_entry. cbn [String.eqb Ascii.eqb Bool.eqb orb].
  repeat split; apply lookup_insert_eq.
Qed.

Lemma not_date_key (k : string) :
  k = "Quantidade" \/ k = "Preco_Unitario" \/ k = "Receita_Total" -> ~ In k date_keys.
Proof. intros [-> | [-> | ->]] H; simpl in H; intuition discriminate. Qed.

Lemma fold_last (row : gmap string string) (headerMap : list (string * string))
    (k original : string) :
  k = "Quantidade" \/ k = "Preco_Unitario" \/ k = "Receita_Total" ->
  last_mapped headerMap k original ->
  fold_left (normalize_entry row) headerMap ∅ !! k =
    if String.eqb k "Quantidade"
    then Some (VNum (num_of_Z (quantity_of (row !! original))))
    else Some (VNum (price_of (row !! original))).
Proof.
  intros Hk (before & after & -> & Hlast).
  rewrite fold_left_app. cbn [fold_left].
  rewrite fold_frame.
  - destruct (normalize_entry_own row (fold_left (normalize_entry row) before ∅) original)
      as (HQ & HP & HR).
    destruct Hk as [-> | [-> | ->]]; assumption.
  - intros o s Hin. split.
    + intros _. right. now apply not_date_key.
    + intros _ ->. now apply (Hlast o).
Qed.

Lemma fold_absent (row : gmap string string) (headerMap : list (string * string))
    (k : string) :
  k = "Quantidade" \/ k = "Preco_Unitario" \/ k = "Receita_Total" ->
  (forall o, ~ In (o, k) headerMap) ->
  fold_left (normalize_entry row) headerMap ∅ !! k = None.
Proof.
  intros Hk Hno. rewrite fold_frame; [apply lookup_empty|].
  intros o s Hin. split.
  - intros _. right. now apply not_date_key.
  - intros _ ->. now apply (Hno o).
Qed.

(** *** Dates and quarters *)

Lemma ceil_div3_quarter (m : Z) :
  3 * (ceil_div3 m - 1) < m <= 3 * ceil_div3 m.
Proof.
  unfold ceil_div3.
  pose proof (Z.div_mod (- m) 3 ltac:(lia)).
  pose proof (Z.mod_pos_bound (- m) 3 ltac:(lia)). lia.
Qed.

(** X10. When the cell under the last header mapped to [Data] parses, and no
    later column is named [Ano], [Mes] or [Trimestre] or holds another
    date that parses, the row gets the four date fields of that cell:
    [Trimestre] is the least integer not below a third of the month, the
    calendar quarter for the months 1 to 12. *)
Theorem normalizeRow_date_fields (row : gmap string string)
    (before after : list (string * string)) (original : string) (p : ParsedDate) :
  parseDate (row !! original) = Some p ->
  (forall o s, In (o, s) after ->
     (s = "Data" -> parseDate (row !! o) = None) /\
     s <> "Ano" /\ s <> "Mes" /\ s <> "Trimestre") ->
  let normalized := normalizeRow row (before ++ (original, "Data") :: after) in
  normalized !! "Data" = Some (VStr (date p)) /\
  normalized !! "Ano" = Some (VInt (year p)) /\
  normalized !! "Mes" = Some (VInt (month p)) /\
  normalized !! "Trimestre" = Some (VInt (ceil_div3 (month p))) /\
  3 * (ceil_div3 (month p) - 1) < month p <= 3 * ceil_div3 (month p) /\
  (1 <= month p <= 12 -> 1 <= ceil_div3 (month p) <= 4).
Proof.
  intros Hp Hafter. cbv zeta.
  assert (Hkey : forall k, In k date_keys ->
            normalizeRow row (before ++ (original, "Data") :: after) !! k =
            normalize_entry row (fold_left (normalize_entry row) before ∅)
                            (original, "Data") !! k).
  { intros k Hk. rewrite normalizeRow_other_key
      by (intros ->; simpl in Hk; intuition discriminate).
    rewrite fold_left_app. cbn [fold_left]. apply fold_frame.
    intros o s Hin. destruct (Hafter o s Hin) as (Hd & HA & HM & HT).
    split; [intros E; left; now apply Hd|].
    intros Hs <-. simpl in Hk. intuition congruence. }
  assert (Hentry : forall n,
            normalize_entry row n (original, "Data") =
            <["Trimestre" := VInt (ceil_div3 (month p))]>
              (<["Mes" := VInt (month p)]>
                 (<["Ano" := VInt (year p)]> (<["Data" := VStr (date p)]> n)))).
  { intros n. unfold normalize_entry. cbn [String.eqb Ascii.eqb Bool.eqb].
    now rewrite Hp. }
  rewrite !Hkey by (simpl; auto). rewrite !Hentry.
  split; [now rewrite !lookup_insert_ne, lookup_insert_eq by discriminate|].
  split; [now rewrite !lookup_insert_ne, lookup_insert_eq by discriminate|].
  split; [now rewrite !lookup_insert_ne, lookup_insert_eq by discriminate|].
  split; [now rewrite lookup_insert_eq|].
  pose proof (ceil_div3_quarter (month p)). split; [assumption | lia].
Qed.

Lemma normalizeRow_date_fields_witness :
  let normalized :=
    normalizeRow {["Dia" := "2024-05-17"; "Item" := "Caneta"]}
                 [("Dia", "Data"); ("Item", "Produto")] in
  normalized !! "Ano" = Some (VInt 2024) /\
  normalized !! "Mes" = Some (VInt 5) /\
  normalized !! "Trimestre" = Some (VInt 2).
Proof.
  pose proof (normalizeRow_date_fields
                {["Dia" := "2024-05-17"; "Item" := "Caneta"]}
                [] [("Item", "Produto")] "Dia"
                (mkParsedDate "2024-05-17" 2024 5) eq_refl) as H.
  destruct H as (_ & HA & HM & HT & _).
  - intros o s [[= <- <-]|[]]. repeat split; discriminate.
  - cbv zeta. repeat split; assumption.
Defined.

End RowProps.

(** ** Prices *)

Module PriceFacts.
Import JS Normalizer NormalizerSpec DigitFacts.

(** Zero, a positive number or [Infinity]: neither [NaN] nor below zero,
    nor the negative zero. *)
Definition nonneg_number (x : number) : Prop :=
  match x with
  | S754_zero false | S754_finite false _ _ | S754_infinity false => True
  | _ => False
  end.

Lemma shr_1_nonneg (mrs : shr_record) : 0 <= shr_m mrs -> 0 <= shr_m (shr_1 mrs).
Proof. destruct mrs as [[|[p|p|]|p] r s]; simpl; lia. Qed.

Lemma iter_shr_1_nonneg (n : positive) : forall mrs : shr_record,
  0 <= shr_m mrs -> 0 <= shr_m (SpecFloat.iter_pos shr_1 n mrs).
Proof.
  induction n as [n IH|n IH|]; intros mrs H; simpl SpecFloat.iter_pos.
  - now apply IH, IH, shr_1_nonneg.
  - now apply IH, IH.
  - now apply shr_1_nonneg.
Qed.

Lemma shr_fexp_nonneg (m e : Z) (l : location) :
  0 <= m -> 0 <= shr_m (fst (shr_fexp prec emax m e l)).
Proof.
  intros Hm. unfold shr_fexp, shr.
  destruct (fexp prec emax (Zdigits2 m + e) - e) as [|q|q]; simpl fst;
    try (now rewrite NumberFacts.shr_m_of_loc).
  apply iter_shr_1_nonneg. now rewrite NumberFacts.shr_m_of_loc.
Qed.

Lemma round_aux_nonneg (m e : Z) (l : location) :
  0 <= m -> nonneg_number (binary_round_aux prec emax false m e l).
Proof.
  intros Hm. unfold binary_round_aux.
  pose proof (shr_fexp_nonneg m e l Hm) as H1.
  destruct (shr_fexp prec emax m e l) as [mrs' e']. simpl in H1.
  pose proof (NumberFacts.round_nearest_even_ge (shr_m mrs') (loc_of_shr_record mrs')) as Hr.
  pose proof (shr_fexp_nonneg
                (round_nearest_even (shr_m mrs') (loc_of_shr_record mrs')) e' loc_Exact
                ltac:(lia)) as H2.
  destruct (shr_fexp prec emax _ e' loc_Exact) as [mrs'' e'']. simpl in H2.
  destruct (shr_m mrs'') as [|m3|m3]; [exact I | | lia].
  now destruct (e'' <=? emax - prec)%Z.
Qed.

Lemma num_of_Z_nonneg (z : Z) : 0 <= z -> nonneg_number (num_of_Z z).
Proof.
  intros Hz. unfold num_of_Z. destruct z as [|p|p]; [exact I | | lia].
  simpl. unfold binary_round.
  destruct (shl_align p 0 _) as [mz ez]. now apply round_aux_nonneg.
Qed.

Lemma num_of_decimal_nonneg (m : Z) (k : nat) : nonneg_number (num_of_decimal m k).
Proof.
  unfold num_of_decimal. destruct m as [|p|p]; try exact I.
  unfold SFdiv, SFdiv_core_binary. cbv zeta.
  set (q := Z.to_pos (10 ^ Z.of_nat k)).
  set (m' := match _ - _ - _ with Z0 => Zpos p | Zpos _ => _ | Zneg _ => 0 end).
  assert (Hm' : 0 <= m').
  { subst m'. destruct (_ - _ - _) as [|s|s]; [lia | | lia].
    apply Z.shiftl_nonneg. lia. }
  pose proof (Z.div_pos m' (Zpos q) Hm' ltac:(lia)) as Hq.
  unfold Z.div in Hq.
  destruct (Z.div_eucl m' (Zpos q)) as [quo r]. simpl in Hq.
  now apply round_aux_nonneg.
Qed.

Lemma read_decimal_nonneg (s : string) : forall (acc : Z) (n : nat),
  0 <= acc -> 0 <= fst (fst (read_decimal acc n s)).
Proof.
  induction s as [|c r IH]; intros acc n Hacc; [assumption|].
  cbn [read_decimal]. destruct (is_digit c) eqn:E; [|assumption].
  apply IH. pose proof (digit_value_range c E). lia.
Qed.

Lemma parseFloat_nonneg (s : string) :
  parseFloat s = S754_nan \/ nonneg_number (parseFloat s).
Proof.
  unfold parseFloat.
  pose proof (read_decimal_nonneg s 0 0 ltac:(lia)) as Hip.
  destruct (read_decimal 0 0 s) as [[ip ni] rest]. simpl in Hip.
  assert (Hint : match ni with O => S754_nan | S _ => num_of_Z ip end = S754_nan \/
                 nonneg_number (match ni with O => S754_nan | S _ => num_of_Z ip end)).
  { destruct ni; [now left | right; now apply num_of_Z_nonneg]. }
  destruct rest as [|c r]; [exact Hint|].
  destruct (Ascii.eqb c ".") eqn:E.
  - apply Ascii.eqb_eq in E. subst c.
    destruct (read_decimal ip 0 r) as [[all nf] rest'].
    destruct ni, nf; auto using num_of_Z_nonneg, num_of_decimal_nonneg.
  - destruct c as [[] [] [] [] [] [] [] []]; try exact Hint. discriminate.
Qed.

End PriceFacts.

Module PriceProps.
Import JS Normalizer NormalizerSpec IntegerFacts QuantitySpec DigitFacts RowProps PriceFacts.

Lemma price_of_nonneg (cell : option string) : nonneg_number (price_of cell).
Proof.
  unfold price_of. cbv zeta.
  destruct (parseFloat_nonneg (clean_price cell)) as [->|H]; [exact I|].
  destruct (parseFloat (clean_price cell)) as [[]|[]| |[] m e]; simpl in *; tauto.
Qed.

Lemma replace_outside_append (keep : ascii -> bool) (by_ s t : string) :
  replace_outside keep by_ (String.append s t) =
  String.append (replace_outside keep by_ s) (replace_outside keep by_ t).
Proof.
  induction s as [|c s IH]; [reflexivity|].
  rewrite append_cons. cbn [replace_outside]. now rewrite IH, append_assoc.
Qed.

Lemma replace_outside_kept (keep : ascii -> bool) (by_ s : string) :
  all_chars keep s = true -> replace_outside keep by_ s = s.
Proof.
  induction s as [|c s IH]; [reflexivity|].
  simpl. rewrite andb_true_iff. intros [Hc Hs]. now rewrite Hc, (IH Hs).
Qed.

Lemma replace_outside_cons (keep : ascii -> bool) (c : ascii) (s : string) :
  replace_outside keep "" (String c s) =
  if keep c then String c (replace_outside keep "" s) else replace_outside keep "" s.
Proof. cbn [replace_outside]. now destruct (keep c). Qed.

(** A character outside [[0-9.,]] plays no part in the price: a minus
    sign, a currency symbol or a blank is dropped. *)
Lemma price_of_dropped (c : ascii) (s : string) :
  is_price_char c = false -> price_of (Some (String c s)) = price_of (Some s).
Proof.
  intros Hc. unfold price_of, clean_price, String_of.
  now rewrite replace_outside_cons, Hc.
Qed.

(** X11. When [original] is the last header mapped to [Preco_Unitario], the
    field is the number that [parseFloat] reads in the cell once every
    character other than a digit, a point or a comma is removed and the
    first comma is made a point, and 0 when it reads none.  That number is
    never [NaN] and never negative: the minus sign of a cell is among the
    characters removed. *)
Theorem normalizeRow_price (row : gmap string string)
    (headerMap : list (string * string)) (original : string) :
  last_mapped headerMap "Preco_Unitario" original ->
  normalizeRow row headerMap !! "Preco_Unitario"
    = Some (VNum (price_of (row !! original))) /\
  nonneg_number (price_of (row !! original)) /\
  (forall s, row !! original = Some (String "-" s) ->
             price_of (row !! original) = price_of (Some s)).
Proof.
  intros Hlast. split; [|split].
  - rewrite normalizeRow_other_key by discriminate.
    now rewrite (fold_last row headerMap "Preco_Unitario" original) by auto.
  - apply price_of_nonneg.
  - intros s ->. now apply price_of_dropped.
Qed.

Lemma normalizeRow_price_witness :
  normalizeRow {["Valor" := "-12,50"]} [("Valor", "Preco_Unitario")] !! "Preco_Unitario"
    = Some (VNum (price_of (Some "-12,50"))) /\
  price_of (Some "-12,50") = price_of (Some "12,50").
Proof.
  destruct (normalizeRow_price {["Valor" := "-12,50"]} [("Valor", "Preco_Unitario")]
              "Valor") as (H1 & _ & H3).
  - exists [], []. split; [reflexivity | intros o []].
  - split; [exact H1 | exact (H3 "12,50" eq_refl)].
Defined.

(** *** A second separator *)

(** [.] or [,] *)
Definition is_separator (c : ascii) : bool := Ascii.eqb c "." || Ascii.eqb c ",".

Lemma separator_cases (c : ascii) :
  is_separator c = true -> (c = "." \/ c = ",")%char.
Proof.
  unfold is_separator. rewrite orb_true_iff, !Ascii.eqb_eq. tauto.
Qed.

Lemma read_decimal_digits (a : string) : forall (acc : Z) (n : nat) (rest : string),
  all_chars is_digit a = true ->
  match rest with String c _ => is_digit c = false | EmptyString => True end ->
  read_decimal acc n (String.append a rest)
    = (digits_value acc a, (n + String.length a)%nat, rest).
Proof.
  induction a as [|d a IH]; intros acc n rest Ha Hrest.
  - rewrite append_nil_l, Nat.add_0_r. destruct rest as [|c r]; [reflexivity|].
    cbn [read_decimal]. now rewrite Hrest.
  - simpl in Ha. apply andb_true_iff in Ha as [Hd Ha].
    rewrite append_cons. cbn [read_decimal digits_value String.length].
    rewrite Hd, (IH _ _ _ Ha Hrest). f_equal. f_equal. lia.
Qed.

(** [parseFloat] stops at the second separator. *)
Lemma parseFloat_point (a b rest : string) :
  all_chars is_digit a = true -> all_chars is_digit b = true ->
  match rest with String c _ => is_digit c = false | EmptyString => True end ->
  parseFloat (String.append a (String "." (String.append b rest))) =
  match String.length a, String.length b with
  | O, O => S754_nan
  | _, O => num_of_Z (digits_value 0 a)
  | _, _ => num_of_decimal (digits_value (digits_value 0 a) b) (String.length b)
  end.
Proof.
  intros Ha Hb Hrest. unfold parseFloat.
  rewrite (read_decimal_digits a 0 0 _ Ha) by reflexivity.
  cbv iota beta zeta.
  rewrite (read_decimal_digits b _ 0 _ Hb Hrest). reflexivity.
Qed.

Lemma replace_first_append (c : ascii) (by_ a rest : string) :
  all_chars (fun d => negb (Ascii.eqb d c)) a = true ->
  replace_first c by_ (String.append a rest) =
  String.append a (replace_first c by_ rest).
Proof.
  induction a as [|d a IH]; intros Ha; [reflexivity|].
  simpl in Ha. apply andb_true_iff in Ha as [Hd Ha].
  apply negb_true_iff in Hd.
  rewrite !append_cons. cbn [replace_first]. now rewrite Hd, (IH Ha).
Qed.

Lemma digits_price (a : string) :
  all_chars is_digit a = true -> all_chars is_price_char a = true.
Proof.
  apply all_chars_impl. intros c Hc. unfold is_price_char. now rewrite Hc.
Qed.

(** The cleaned form of a cell with two separators: the first separator
    has become a point, and a separator follows the second group. *)
Lemma clean_price_two (a b c : string) (s1 s2 : ascii) :
  all_chars is_digit a = true -> all_chars is_digit b = true ->
  is_separator s1 = true -> is_separator s2 = true ->
  exists t rest,
    is_digit t = false /\
    clean_price (Some (String.append a (String s1 (String.append b (String s2 c)))))
      = String.append a (String "." (String.append b (String t rest))).
Proof.
  intros Ha Hb H1 H2. unfold clean_price, String_of.
  assert (K1 : is_price_char s1 = true)
    by (destruct (separator_cases s1 H1) as [-> | ->]; reflexivity).
  assert (K2 : is_price_char s2 = true)
    by (destruct (separator_cases s2 H2) as [-> | ->]; reflexivity).
  rewrite replace_outside_append, replace_outside_cons, K1,
    replace_outside_append, replace_outside_cons, K2,
    !replace_outside_kept by now apply digits_price.
  set (c' := replace_outside is_price_char "" c).
  rewrite replace_first_append by (now apply digits_no).
  destruct (separator_cases s1 H1) as [-> | ->];
    destruct (separator_cases s2 H2) as [-> | ->];
    cbn [replace_first Ascii.eqb Bool.eqb];
    rewrite ?replace_first_append by (now apply digits_no);
    cbn [replace_first Ascii.eqb Bool.eqb];
    rewrite ?append_cons, ?append_nil_l;
    eexists _, _; (split; [|reflexivity]); reflexivity.
Qed.

(** X12. A cell that holds two separators, as the thousands point and the
    decimal comma of [1.234,56] (or the comma and the point of
    [1,234.56]), is read up to the second one: its price is the one of the
    cell cut there, 1.234 in both examples. *)
Theorem normalizeRow_price_second_separator (row : gmap string string)
    (headerMap : list (string * string)) (original : string)
    (a b c : string) (s1 s2 : ascii) :
  last_mapped headerMap "Preco_Unitario" original ->
  all_chars is_digit a = true -> all_chars is_digit b = true ->
  is_separator s1 = true -> is_separator s2 = true ->
  row !! original = Some (String.append a (String s1 (String.append b (String s2 c)))) ->
  normalizeRow row headerMap !! "Preco_Unitario"
    = Some (VNum (price_of (Some (String.append a (String "." b))))).
Proof.
  intros Hlast Ha Hb H1 H2 Hcell.
  rewrite normalizeRow_other_key by discriminate.
  rewrite (fold_last row headerMap "Preco_Unitario" original) by auto.
  cbn [String.eqb Ascii.eqb Bool.eqb]. do 2 f_equal. rewrite Hcell.
  unfold price_of. cbv zeta.
  destruct (clean_price_two a b c s1 s2 Ha Hb H1 H2) as (t & rest & Ht & ->).
  assert (Hplain : clean_price (Some (String.append a (String "." b)))
                   = String.append a (String "." (String.append b ""))).
  { unfold clean_price, String_of.
    rewrite replace_outside_kept.
    - rewrite replace_first_append by (now apply digits_no).
      cbn [replace_first Ascii.eqb Bool.eqb].
      rewrite <- (append_nil_r b) at 1.
      rewrite replace_first_append by (now apply digits_no).
      reflexivity.
    - rewrite all_chars_append. cbn [all_chars].
      rewrite !digits_price by assumption. reflexivity. }
  rewrite Hplain.
  now rewrite (parseFloat_point a b (String t rest)), (parseFloat_point a b "").
Qed.

Lemma normalizeRow_price_second_separator_witness :
  normalizeRow {["Valor" := "1.234,56"]} [("Valor", "Preco_Unitario")] !! "Preco_Unitario"
    = Some (VNum (price_of (Some "1.234"))).
Proof.
  apply (normalizeRow_price_second_separator
           {["Valor" := "1.234,56"]} [("Valor", "Preco_Unitario")] "Valor"
           "1" "234" "56" "."%char ","%char).
  - exists [], []. split; [reflexivity | intros o []].
  - reflexivity.
  - reflexivity.
  - reflexivity.
  - reflexivity.
  - reflexivity.
Defined.

(** *** The revenue of a row *)

(** X13. With a quantity column and a unit-price column: when no header is
    mapped to [Receita_Total], the field is the product of quantity and
    price, and is absent when one of them is 0; when a header is mapped
    to it, the price read in its cell is kept if it is not 0, whatever
    the product, and replaced by the product otherwise. *)
Theorem normalizeRow_revenue (row : gmap string string)
    (headerMap : list (string * string)) (oq op : string) :
  last_mapped headerMap "Quantidade" oq ->
  last_mapped headerMap "Preco_Unitario" op ->
  let q := quantity_of (row !! oq) in
  let p := price_of (row !! op) in
  let product := VNum (num_mul (num_of_Z q) p) in
  ((forall o, ~ In (o, "Receita_Total") headerMap) ->
   normalizeRow row headerMap !! "Receita_Total" =
     if (q =? 0)%Z || negb (num_truthy p) then None else Some product) /\
  (forall o, last_mapped headerMap "Receita_Total" o ->
   normalizeRow row headerMap !! "Receita_Total" =
     if num_truthy (price_of (row !! o)) then Some (VNum (price_of (row !! o)))
     else if (q =? 0)%Z || negb (num_truthy p) then Some (VNum (price_of (row !! o)))
     else Some product).
Proof.
  intros HQ HP. cbv zeta.
  pose proof (fold_last row headerMap "Quantidade" oq ltac:(auto) HQ) as EQ.
  pose proof (fold_last row headerMap "Preco_Unitario" op ltac:(auto) HP) as EP.
  cbn [String.eqb Ascii.eqb Bool.eqb] in EQ, EP.
  split.
  - intros Hno.
    pose proof (fold_absent row headerMap "Receita_Total" ltac:(auto) Hno) as ER.
    unfold normalizeRow. rewrite ER, EQ, EP. cbn [truthy negb andb to_number].
    rewrite num_of_Z_truthy.
    destruct (quantity_of (row !! oq) =? 0)%Z; cbn [negb andb orb]; [exact ER|].
    destruct (num_truthy (price_of (row !! op))); cbn [negb].
    + apply lookup_insert_eq.
    + exact ER.
  - intros o HR.
    pose proof (fold_last row headerMap "Receita_Total" o ltac:(auto) HR) as ER.
    cbn [String.eqb Ascii.eqb Bool.eqb] in ER.
    unfold normalizeRow. rewrite ER, EQ, EP. cbn [truthy negb andb to_number].
    rewrite num_of_Z_truthy.
    destruct (num_truthy (price_of (row !! o))); cbn [negb andb]; [exact ER|].
    destruct (quantity_of (row !! oq) =? 0)%Z; cbn [negb andb orb]; [exact ER|].
    destruct (num_truthy (price_of (row !! op))); cbn [negb].
    + apply lookup_insert_eq.
    + exact ER.
Qed.

Lemma normalizeRow_revenue_witness :
  normalizeRow {["Qtd" := "3"; "Valor" := "2,50"]}
               [("Qtd", "Quantidade"); ("Valor", "Preco_Unitario")] !! "Receita_Total"
    = Some (VNum (num_mul (num_of_Z 3) (price_of (Some "2,50")))).
Proof.
  refine (proj1 (normalizeRow_revenue {["Qtd" := "3"; "Valor" := "2,50"]}
                   [("Qtd", "Quantidade"); ("Valor", "Preco_Unitario")]
                   "Qtd" "Valor" _ _) _).
  - exists [], [("Valor", "Preco_Unitario")]. split; [reflexivity|].
    intros o [[=]|[]].
  - exists [("Qtd", "Quantidade")], []. split; [reflexivity | intros o []].
  - intros o [[=]|[[=]|[]]].
Defined.

End PriceProps.

(** ** Totals, months and the period label *)

Module AnalyzeProps.
Import JS Query JSFacts NumberFacts IntegerFacts AnalyzeSpec.

(** The sum of a list of integers. *)
Definition total (l : list Z) : Z := fold_right Z.add 0 l.

(** The quantity of a sequence of rows: the Numbers [row.Quantidade || 0]
    added in the order of the rows, from 0. *)
Definition quantity_of_rows (rows : list Row) : number :=
  fold_left (fun acc row => num_add acc (num_or0 (Quantidade row))) rows num_zero.

(** The integer that the quantity of a row holds, and 0 when it holds
    none. *)
Definition whole_quantity (row : Row) : Z :=
  int_or0 (integer_of (num_or0 (Quantidade row))).

Definition whole_total (rows : list Row) : Z := total (map whole_quantity rows).

(** The quantities are integers that are not negative, each the Number
    of its integer, and their sum is below 2^53. *)
Definition whole_quantities (rows : list Row) : Prop :=
  (forall row, In row rows ->
     0 <= whole_quantity row /\
     num_or0 (Quantidade row) = num_of_Z (whole_quantity row)) /\
  whole_total rows < 2 ^ 53.

Lemma total_cons (a : Z) (l : list Z) : total (a :: l) = a + total l.
Proof. reflexivity. Qed.

Lemma total_perm (l1 l2 : list Z) : Permutation l1 l2 -> total l1 = total l2.
Proof. induction 1; simpl; lia. Qed.

Lemma add_totals_quantity (rows : list Row) : forall acc : number * number,
  snd (fold_left add_totals rows acc) =
  fold_left (fun acc row => num_add acc (num_or0 (Quantidade row))) rows (snd acc).
Proof.
  induction rows as [|r rows IH]; intros acc; [reflexivity|].
  simpl. now rewrite IH.
Qed.

Lemma group_quantity (rows : list Row) : forall g : GroupStats,
  quantidade (fold_left add_group_stats rows g) =
  fold_left (fun acc row => num_add acc (num_or0 (Quantidade row))) rows (quantidade g).
Proof.
  induction rows as [|r rows IH]; intros g; [reflexivity|].
  simpl. now rewrite IH.
Qed.

Lemma month_quantity (rows : list Row) : forall m : MonthStats,
  m_quantidade (fold_left add_month_stats rows m) =
  fold_left (fun acc row => num_add acc (num_or0 (Quantidade row))) rows (m_quantidade m).
Proof.
  induction rows as [|r rows IH]; intros m; [reflexivity|].
  simpl. now rewrite IH.
Qed.

(** *** Sums of whole quantities *)

Lemma whole_total_nonneg (rows : list Row) :
  (forall row, In row rows -> 0 <= whole_quantity row) -> 0 <= whole_total rows.
Proof.
  unfold whole_total.
  induction rows as [|r rows IH]; intros H; simpl; [lia|].
  pose proof (H r (or_introl eq_refl)).
  assert (0 <= total (map whole_quantity rows)) by (apply IH; intros; apply H; now right).
  lia.
Qed.

Lemma whole_total_filter (p : Row -> bool) (rows : list Row) :
  (forall row, In row rows -> 0 <= whole_quantity row) ->
  whole_total (List.filter p rows) <= whole_total rows.
Proof.
  unfold whole_total.
  induction rows as [|r rows IH]; intros H; simpl; [lia|].
  pose proof (H r (or_introl eq_refl)).
  assert (total (map whole_quantity (List.filter p rows)) <= total (map whole_quantity rows))
    by (apply IH; intros; apply H; now right).
  destruct (p r); simpl; lia.
Qed.

(** While the sum stays below 2^53, the Numbers add up as the integers
    do. *)
Lemma quantity_fold_exact (rows : list Row) : forall acc : Z,
  0 <= acc ->
  (forall row, In row rows ->
     0 <= whole_quantity row /\
     num_or0 (Quantidade row) = num_of_Z (whole_quantity row)) ->
  acc + whole_total rows < 2 ^ 53 ->
  fold_left (fun acc row => num_add acc (num_or0 (Quantidade row))) rows (num_of_Z acc)
  = num_of_Z (acc + whole_total rows).
Proof.
  unfold whole_total.
  induction rows as [|r rows IH]; intros acc Hacc Hrows Hsum; simpl.
  - now rewrite Z.add_0_r.
  - destruct (Hrows r (or_introl eq_refl)) as [Hr Er].
    assert (Hrest : 0 <= total (map whole_quantity rows))
      by (apply whole_total_nonneg; intros row Hin; apply Hrows; now right).
    simpl in Hsum.
    rewrite Er, num_add_exact by lia.
    rewrite IH; [f_equal; lia | lia | intros row Hin; apply Hrows; now right | lia].
Qed.

Lemma quantity_of_rows_exact (rows : list Row) :
  whole_quantities rows -> quantity_of_rows rows = num_of_Z (whole_total rows).
Proof.
  intros [Hrows Hsum]. unfold quantity_of_rows.
  change num_zero with (num_of_Z 0).
  now rewrite quantity_fold_exact by (try assumption; lia).
Qed.

Lemma whole_quantities_filter (p : Row -> bool) (rows : list Row) :
  whole_quantities rows -> whole_quantities (List.filter p rows).
Proof.
  intros [Hrows Hsum]. split.
  - intros row Hin. apply filter_In in Hin as [Hin _]. now apply Hrows.
  - pose proof (whole_total_filter p rows (fun row Hin => proj1 (Hrows row Hin))). lia.
Qed.

(** The integer that the quantity of a part of the rows holds. *)
Lemma quantity_of_rows_whole (p : Row -> bool) (rows : list Row) :
  whole_quantities rows ->
  int_or0 (integer_of (quantity_of_rows (List.filter p rows)))
  = whole_total (List.filter p rows).
Proof.
  intros H. pose proof (whole_quantities_filter p rows H) as Hp.
  rewrite (quantity_of_rows_exact _ Hp).
  destruct Hp as [Hrows Hsum].
  pose proof (whole_total_nonneg _ (fun row Hin => proj1 (Hrows row Hin))).
  now rewrite num_of_Z_exact by lia.
Qed.

(** *** Grouping is a partition *)

Section Partition.
Context {K : Type} `{EqDecision K}.
Variable key : Row -> K.

Lemma total_split (G : K -> Z) (x : K) (l : list K) :
  List.NoDup l -> (~ In x l -> G x = 0) ->
  total (map G l) =
  G x + total (map G (List.filter (fun y => negb (bool_decide (y = x))) l)).
Proof.
  induction l as [|a l IH]; intros Hnd Hx.
  - simpl. rewrite Hx by tauto. lia.
  - apply NoDup_cons_iff in Hnd as [Ha Hnd]. simpl.
    destruct (bool_decide (a = x)) eqn:E; simpl.
    + apply bool_decide_eq_true in E. subst a.
      assert (Hsame : List.filter (fun y => negb (bool_decide (y = x))) l = l).
      { apply ParseQuerySpec.filter_all. intros y Hy.
        apply negb_true_iff, bool_decide_eq_false. intros ->. contradiction. }
      now rewrite Hsame.
    + apply bool_decide_eq_false in E.
      rewrite IH; [lia | assumption |].
      intros Hn. apply Hx. simpl. tauto.
Qed.

(** Summed over the distinct keys, the whole quantities of the rows of
    each key give the whole quantity of all rows. *)
Lemma quantity_partition (data : list Row) :
  total (map (fun k => whole_total (rows_of key k data))
             (Set_values (map key data)))
  = whole_total data.
Proof.
  induction data as [|r data IH]; [reflexivity|].
  set (G := fun k => whole_total (rows_of key k data)) in *.
  set (others := List.filter (fun y => negb (bool_decide (y = key r)))
                             (Set_values (map key data))).
  assert (Hhead : whole_total (rows_of key (key r) (r :: data)) =
                  whole_quantity r + G (key r)).
  { unfold rows_of. simpl. rewrite bool_decide_true by reflexivity. reflexivity. }
  assert (Htail : map (fun k => whole_total (rows_of key k (r :: data))) others
                  = map G others).
  { apply map_ext_in. intros k Hk. apply filter_In in Hk as [_ Hk].
    apply negb_true_iff, bool_decide_eq_false in Hk.
    unfold G, rows_of. simpl. rewrite bool_decide_false by congruence. reflexivity. }
  assert (Hsplit : total (map G (Set_values (map key data))) =
                   G (key r) + total (map G others)).
  { apply total_split; [apply Set_values_NoDup|].
    intros Hn. unfold G. rewrite (rows_of_absent key tt (fun v _ => v)); [reflexivity|].
    intros Hin. apply Hn. now apply Set_values_In. }
  change (Set_values (map key (r :: data))) with (key r :: others).
  change (whole_total (r :: data)) with (whole_quantity r + whole_total data).
  cbn [map]. rewrite total_cons, Hhead, Htail. lia.
Qed.
End Partition.

(** *** The fields of the result *)

Section Fields.
Variable NumberToString : number -> string.

Lemma analyzeData_fields (data : list Row) (context : QueryContext)
    (res : AnalysisResult) :
  data <> [] ->
  analyzeData NumberToString data context = Normal res ->
  quantidade_total res = quantity_of_rows data /\
  periodo_analizado res = periodo data.
Proof.
  intros Hne. destruct data as [|r0 rest]; [contradiction|].
  unfold analyzeData.
  set (data := r0 :: rest).
  pose proof (add_totals_quantity data (num_zero, num_zero)) as Hq.
  destruct (fold_left add_totals data (num_zero, num_zero)) as [rt qt]. simpl in Hq.
  destruct (topN_truthy context || comparison context);
    destruct (comparison context &&
              (1 <? List.length (Array_sort default_after (Set_values (map Mes data))))%nat);
    try destruct (map_completion to_mensal (fold_left add_to_month data []));
    intros [= <-]; cbn; auto; discriminate.
Qed.

Lemma map_completion_quantity (entries : list (option Z * MonthStats))
    (ms : list Mensal.t) :
  map_completion to_mensal entries = Normal ms ->
  map Mensal.quantidade ms = map (fun e => m_quantidade (snd e)) entries.
Proof.
  revert ms. induction entries as [|[k st] entries IH]; intros ms.
  - intros [= <-]. reflexivity.
  - cbn [map_completion].
    destruct (to_mensal (k, st)) as [y|e] eqn:Ey; [|discriminate].
    destruct (map_completion to_mensal entries) as [ys|e]; [|discriminate].
    intros [= <-]. cbn [map]. rewrite (IH ys eq_refl). f_equal.
    unfold to_mensal in Ey.
    destruct (find_month_key k); [now injection Ey as <-|].
    destruct k; [now injection Ey as <- | discriminate].
Qed.

(** The groups when no top-N cut applies. *)
Lemma grupos_uncut (data : list Row) (context : QueryContext) :
  data <> [] -> comparison context = true -> topN_truthy context = false ->
  grupos_of data context = sorted_groups (groupBy_of context) data.
Proof.
  intros Hne Hcmp Htop. destruct data as [|r0 rest]; [contradiction|].
  unfold grupos_of. rewrite Htop, Hcmp. cbn [orb].
  unfold topN_truthy in Htop. destruct (topN context) as [n|]; [|reflexivity].
  apply negb_false_iff in Htop. now rewrite Htop.
Qed.

Lemma groups_of_quantity (groupBy : string) (data : list Row) :
  map Grupo.quantidade_total (map to_grupo (groups_of groupBy data)) =
  map (fun k => quantity_of_rows (rows_of (group_key groupBy) k data))
      (Set_values (map (group_key groupBy) data)).
Proof.
  unfold groups_of, grouped. rewrite !map_map.
  apply map_ext. intros k. simpl. now rewrite group_quantity.
Qed.

(** X20. With a comparison asked for and no top-N cut, there is one group
    for each key of the rows, and the quantity of a group is the sum of
    the quantities of the rows of its key, as [quantidade_total] is the
    sum over all rows.  These are sums of Numbers, in the order of the
    rows, and each is rounded.  When the quantities are integers that are
    not negative and add up to less than 2^53, nothing is rounded:
    [quantidade_total] is their sum, and the quantities of the groups add
    up to it, as do those of the monthly series when there is one. *)
Theorem analyzeData_quantity_conserved (data : list Row) (context : QueryContext)
    (res : AnalysisResult) :
  comparison context = true ->
  topN_truthy context = false ->
  analyzeData NumberToString data context = Normal res ->
  let key := group_key (groupBy_of context) in
  quantidade_total res = quantity_of_rows data /\
  Permutation (map Grupo.nome (grupos res)) (Set_values (map key data)) /\
  (forall g, In g (grupos res) ->
     Grupo.quantidade_total g = quantity_of_rows (rows_of key (Grupo.nome g) data)) /\
  (whole_quantities data ->
   quantidade_total res = num_of_Z (whole_total data) /\
   total (map (fun g => int_or0 (integer_of (Grupo.quantidade_total g))) (grupos res))
     = whole_total data /\
   (forall monthlyData,
      evolucao_mensal res = Some monthlyData ->
      total (map (fun m => int_or0 (integer_of (Mensal.quantidade m))) monthlyData)
        = whole_total data)).
Proof.
  intros Hcmp Htop Hres key. subst key.
  destruct data as [|r0 rest].
  { rewrite analyzeData_empty in Hres. injection Hres as <-. simpl.
    repeat split; try constructor; try tauto. discriminate. }
  assert (Hne : r0 :: rest <> []) by discriminate.
  destruct (analyzeData_fields (r0 :: rest) context res Hne Hres) as [Hq _].
  pose proof (analyzeData_cases NumberToString (r0 :: rest) context Hne) as Hc.
  rewrite Hres in Hc. destruct Hc as (Hg & _ & _ & Hm).
  rewrite (grupos_uncut _ _ Hne Hcmp Htop), sorted_groups_eq in Hg.
  assert (Hperm : Permutation (grupos res)
                    (map to_grupo (groups_of (groupBy_of context) (r0 :: rest))))
    by (rewrite Hg; apply Array_sort_perm).
  split; [exact Hq|]. split; [|split].
  - rewrite <- groups_of_names. now apply Permutation_map.
  - intros g Hin. apply (Permutation_in _ Hperm) in Hin.
    unfold groups_of, grouped in Hin. rewrite map_map in Hin.
    apply in_map_iff in Hin as (k & <- & _). simpl. now rewrite group_quantity.
  - intros Hwhole. split; [|split].
    + rewrite Hq. now apply quantity_of_rows_exact.
    + rewrite (total_perm _ _ (Permutation_map _ Hperm)).
      rewrite <- (map_map Grupo.quantidade_total
                    (fun q => int_or0 (integer_of q))).
      rewrite groups_of_quantity, map_map.
      rewrite <- (quantity_partition (group_key (groupBy_of context)) (r0 :: rest)).
      f_equal. apply map_ext. intros k. now apply quantity_of_rows_whole.
    + intros monthlyData Hev.
      destruct (compares (r0 :: rest) context); [|destruct Hm; congruence].
      destruct Hm as (md & Hmd & Hev' & _).
      assert (md = monthlyData) by congruence. subst md.
      unfold monthly_of in Hmd.
      destruct (map_completion to_mensal (fold_left add_to_month (r0 :: rest) []))
        as [entries|e] eqn:E; [|discriminate].
      injection Hmd as <-.
      rewrite (total_perm _ (map (fun m => int_or0 (integer_of (Mensal.quantidade m)))
                                 entries))
        by (apply Permutation_map, Array_sort_perm).
      rewrite <- (map_map Mensal.quantidade (fun q => int_or0 (integer_of q))).
      rewrite (map_completion_quantity _ _ E).
      rewrite add_to_month_upsert, fold_upsert.
      rewrite <- (quantity_partition Mes (r0 :: rest)).
      unfold grouped. rewrite !map_map. f_equal.
      apply map_ext. intros k. cbn [snd]. rewrite month_quantity.
      exact (quantity_of_rows_whole (fun r => bool_decide (Mes r = k)) _ Hwhole).
Qed.

End Fields.

Lemma vendas_whole : whole_quantities vendas.
Proof.
  split; [|reflexivity].
  intros row [<-|[<-|[<-|[<-|[]]]]]; split; (reflexivity || discriminate).
Qed.

Lemma analyzeData_quantity_conserved_witness :
  exists res,
    analyzeData (fun _ => "") vendas compara = Normal res /\
    quantidade_total res = num_of_Z 13 /\
    total (map (fun g => int_or0 (integer_of (Grupo.quantidade_total g))) (grupos res))
      = 13.
Proof.
  destruct (analyzeData_returns (fun _ => "") vendas compara) as [res Hres].
  { right. intros row [<-|[<-|[<-|[<-|[]]]]]; discriminate. }
  exists res. split; [exact Hres|].
  destruct (analyzeData_quantity_conserved (fun _ => "") vendas compara res
              eq_refl eq_refl Hres) as (_ & _ & _ & Hw).
  destruct (Hw vendas_whole) as (Hq & Hg & _).
  split; assumption.
Defined.

(** Beyond 2^53 the sums are rounded and the groups need not add up to
    the total: with the quantities 2^53, 1 and 1, the total is 2^53 while
    the two groups hold 2^53 and 2. *)
Definition vendas_grandes : list Row :=
  [ venda 2024 1 "Caneta" (2 ^ 53) 10; venda 2024 1 "Lapis" 1 10;
    venda 2024 1 "Lapis" 1 10 ].

Lemma quantity_rounded :
  exists res,
    analyzeData (fun _ => "") vendas_grandes compara = Normal res /\
    quantidade_total res = num_of_Z (2 ^ 53) /\
    map (fun g => (Grupo.nome g, Grupo.quantidade_total g)) (grupos res)
      = [("Lapis", num_of_Z 2); ("Caneta", num_of_Z (2 ^ 53))].
Proof.
  eexists. split; [vm_compute; reflexivity|]. split; vm_compute; reflexivity.
Qed.

End AnalyzeProps.

Module MonthlyProps.
Import JS Query JSFacts AnalyzeSpec AnalyzeProps.

(** *** Sorting through a map *)

Section SortMap.
Context {A B : Type} (f : A -> B) (after : A -> A -> bool) (after' : B -> B -> bool).

Lemma sort_insert_map (x : A) (l : list A) :
  (forall y, In y l -> after' (f x) (f y) = after x y) ->
  sort_insert after' (f x) (map f l) = map f (sort_insert after x l).
Proof.
  induction l as [|y l IH]; intros H; [reflexivity|].
  cbn [map sort_insert]. rewrite (H y) by now left.
  destruct (after x y); [|reflexivity].
  cbn [map]. f_equal. apply IH. intros z Hz. apply H. now right.
Qed.

Lemma Array_sort_map (l : list A) :
  (forall x y, In x l -> In y l -> after' (f x) (f y) = after x y) ->
  Array_sort after' (map f l) = map f (Array_sort after l).
Proof.
  induction l as [|x l IH]; intros H; [reflexivity|].
  cbn [map Array_sort].
  rewrite IH by (intros a b Ha Hb; apply H; now right).
  apply sort_insert_map. intros y Hy. apply H; [now left|].
  right. exact (proj1 (Array_sort_In after l y) Hy).
Qed.
End SortMap.

Lemma filter_map_Some {A : Type} `{EqDecision A} (a : A) (s : list A) :
  List.filter (fun y => negb (bool_decide (y = Some a))) (map Some s) =
  map Some (List.filter (fun y => negb (bool_decide (y = a))) s).
Proof.
  induction s as [|x s IH]; [reflexivity|].
  cbn [map List.filter].
  destruct (decide (x = a)) as [->|Hne].
  - rewrite !bool_decide_true by reflexivity. exact IH.
  - rewrite !bool_decide_false by congruence. cbn [negb map]. now rewrite IH.
Qed.

Lemma Set_values_map_Some {A : Type} `{EqDecision A} (l : list A) :
  Set_values (map Some l) = map Some (Set_values l).
Proof.
  induction l as [|a l IH]; [reflexivity|].
  cbn [map Set_values]. now rewrite IH, filter_map_Some.
Qed.

Lemma map_Mes_Some (data : list Row) :
  (forall row, In row data -> Mes row <> None) ->
  map Mes data = map Some (omap Mes data).
Proof.
  induction data as [|r data IH]; intros H; [reflexivity|].
  destruct (Mes r) as [m|] eqn:E.
  - simpl. rewrite E. simpl. f_equal. apply IH. intros row Hrow. apply H. now right.
  - exfalso. apply (H r); [now left | assumption].
Qed.

Lemma omap_Mes_In (data : list Row) (m : Z) :
  In m (omap Mes data) <-> exists row, In row data /\ Mes row = Some m.
Proof.
  rewrite <- list_elem_of_In, list_elem_of_omap.
  split; intros (row & Hrow & Hm); exists row; split;
    try assumption; now apply list_elem_of_In.
Qed.

Lemma map_completion_map {A B C : Type} (f : B -> completion C) (g : A -> B)
    (h : A -> C) (l : list A) :
  (forall x, In x l -> f (g x) = Normal (h x)) ->
  map_completion f (map g l) = Normal (map h l).
Proof.
  induction l as [|x l IH]; intros H; [reflexivity|].
  cbn [map_completion map]. rewrite (H x) by now left.
  rewrite IH by (intros y Hy; apply H; now right). reflexivity.
Qed.

(** The comparator of the monthly sort, on month numbers. *)
Definition later (a b : Z) : bool := (0 <? a - b)%Z.

Lemma later_sorted (l : list Z) :
  List.NoDup l -> StronglySorted Z.lt (Array_sort later l).
Proof.
  intros Hnd.
  assert (Hle : StronglySorted Z.le (Array_sort later l)).
  { apply Sorted_StronglySorted; [intros a b c; lia|].
    eapply Sorted_ind with (P := fun l' => Sorted Z.le l');
      [constructor | | apply (Array_sort_Sorted later)].
    - intros a l' _ IH Hhd. constructor; [exact IH|].
      destruct Hhd as [|b l'' Hab]; constructor.
      unfold later in Hab. apply Z.ltb_ge in Hab. lia.
    - intros x y. unfold later. rewrite Z.ltb_lt, Z.ltb_ge. lia. }
  assert (Hnd' : List.NoDup (Array_sort later l)).
  { eapply Permutation_NoDup; [symmetry; apply Array_sort_perm | exact Hnd]. }
  induction Hle as [|a l' Hs IH Hall]; constructor.
  - apply IH. now apply NoDup_cons_iff in Hnd'.
  - apply NoDup_cons_iff in Hnd' as [Ha _].
    rewrite List.Forall_forall in *. intros x Hx.
    specialize (Hall x Hx). assert (x <> a) by congruence. lia.
Qed.

Section Monthly.
Variable NumberToString : number -> string.

(** X21. With a comparison asked for and rows that all have a month from 1 to
    12, of at least two different months, [evolucao_mensal] holds one
    entry per month number, in calendar order, under the full Portuguese
    name: the rows of one month number go to one entry whatever their
    year, with the sum of their revenues and the sum of their quantities,
    both sums of Numbers in the order of the rows.  [variacao_mensal]
    compares the two entries of the highest month numbers. *)
Theorem analyzeData_monthly_series (data : list Row) (context : QueryContext) :
  comparison context = true ->
  (forall row, In row data -> exists m, Mes row = Some m /\ 1 <= m <= 12) ->
  (exists r1 r2, In r1 data /\ In r2 data /\ Mes r1 <> Mes r2) ->
  exists res months,
    analyzeData NumberToString data context = Normal res /\
    evolucao_mensal res = Some (map (mensal_of data) months) /\
    StronglySorted Z.lt months /\
    (forall m, In m months <-> exists row, In row data /\ Mes row = Some m) /\
    (forall m, In m months ->
       Mensal.mes (mensal_of data m) = month_name m /\
       Mensal.receita (mensal_of data m) = revenue_of (rows_of Mes (Some m) data) /\
       Mensal.quantidade (mensal_of data m) = quantity_of_rows (rows_of Mes (Some m) data)) /\
    (forall earlier a b, months = earlier ++ [a; b] ->
       variacao_mensal res =
         Some (growth_of NumberToString (mensal_of data b) (mensal_of data a))) /\
    map month_name [1; 2; 3; 4; 5; 6; 7; 8; 9; 10; 11; 12] =
      ["janeiro"; "fevereiro"; marco; "abril"; "maio"; "junho";
       "julho"; "agosto"; "setembro"; "outubro"; "novembro"; "dezembro"].
Proof.
  intros Hcmp Hall (r1 & r2 & Hr1 & Hr2 & Hdiff).
  assert (Hsome : forall row, In row data -> Mes row <> None).
  { intros row Hrow. destruct (Hall row Hrow) as (m & -> & _). discriminate. }
  set (keys := Set_values (omap Mes data)).
  assert (Hkeys : Set_values (map Mes data) = map Some keys).
  { rewrite (map_Mes_Some data Hsome). apply Set_values_map_Some. }
  assert (Hin : forall m, In m keys <-> exists row, In row data /\ Mes row = Some m).
  { intros m. unfold keys. rewrite Set_values_In. apply omap_Mes_In. }
  assert (Hrange : forall m, In m keys -> 1 <= m <= 12).
  { intros m Hm. apply Hin in Hm as (row & Hrow & E).
    destruct (Hall row Hrow) as (m' & E' & Hm'). congruence. }
  assert (Hafter : forall a b, In a keys -> In b keys ->
            mensal_after (mensal_of data a) (mensal_of data b) = later a b).
  { intros a b Ha Hb. unfold mensal_after, mensal_of. cbn [Mensal.mes].
    rewrite (proj2 (month_1_12 a (Hrange a Ha))), (proj2 (month_1_12 b (Hrange b Hb))).
    reflexivity. }
  assert (Hmonthly : monthly_of data =
                     Normal (map (mensal_of data) (Array_sort later keys))).
  { unfold monthly_of. rewrite add_to_month_upsert, fold_upsert. unfold grouped.
    rewrite Hkeys, map_map.
    change (map (fun x : Z => (Some x, fold_left add_month_stats (rows_of Mes (Some x) data)
                                         (mkMonthStats num_zero num_zero))) keys)
      with (map (month_entry data) keys).
    rewrite (map_completion_map to_mensal (month_entry data) (mensal_of data))
      by (intros m Hm; now apply to_mensal_entry, Hrange).
    now rewrite (Array_sort_map (mensal_of data) later mensal_after keys Hafter). }
  assert (Hne : data <> []) by (now destruct data).
  assert (Hcompares : compares data context = true).
  { unfold compares. rewrite Hcmp, Array_sort_length. apply Nat.ltb_lt.
    apply (two_distinct_length _ (Mes r1) (Mes r2)); [| |assumption];
      apply Set_values_In; now apply in_map. }
  pose proof (analyzeData_cases NumberToString data context Hne) as Hc.
  destruct (analyzeData NumberToString data context) as [res|e];
    [|destruct Hc as [_ Hc]; congruence].
  destruct Hc as (_ & _ & _ & Hc). rewrite Hcompares in Hc.
  destruct Hc as (md & Hmd & Hev & Hvar).
  rewrite Hmonthly in Hmd. injection Hmd as <-.
  exists res, (Array_sort later keys).
  split; [reflexivity|]. split; [exact Hev|].
  split; [apply later_sorted, Set_values_NoDup|].
  split; [intros m; rewrite (Array_sort_In later); apply Hin|].
  split; [|split; [|reflexivity]].
  - intros m Hm. unfold mensal_of. cbn [Mensal.mes Mensal.receita Mensal.quantidade].
    repeat split. unfold month_entry. cbn [snd]. now rewrite month_quantity.
  - intros earlier a b Hmonths. rewrite Hvar, Hmonths. unfold variacao_of.
    now rewrite map_app, rev_app_distr.
Qed.

End Monthly.

Lemma analyzeData_monthly_series_witness :
  exists res months,
    analyzeData (fun _ => "") vendas compara = Normal res /\
    evolucao_mensal res = Some (map (mensal_of vendas) months) /\
    StronglySorted Z.lt months.
Proof.
  destruct (analyzeData_monthly_series (fun _ => "") vendas compara)
    as (res & months & Hres & Hev & Hs & _).
  - reflexivity.
  - intros row [<-|[<-|[<-|[<-|[]]]]]; eexists; (split; [reflexivity | lia]).
  - exists (venda 2024 1 "Caneta" 4 400), (venda 2024 2 "Caderno" 2 1200).
    split; [now left|]. split; [right; now left | discriminate].
  - exists res, months. repeat split; assumption.
Defined.

(** *** The period label *)

Lemma Set_values_constant {A B : Type} `{EqDecision B} (f : A -> B) (x : B)
    (l : list A) :
  l <> [] -> (forall a, In a l -> f a = x) -> Set_values (map f l) = [x].
Proof.
  intros Hne Hall. destruct l as [|a l]; [contradiction|clear Hne].
  revert a Hall. induction l as [|b l IH]; intros a Hall.
  - simpl. now rewrite (Hall a) by now left.
  - assert (Hb : Set_values (map f (b :: l)) = [x])
      by (apply IH; intros c Hc; apply Hall; now right).
    change (Set_values (map f (a :: b :: l)))
      with (f a :: List.filter (fun y => negb (bool_decide (y = f a)))
                               (Set_values (map f (b :: l)))).
    rewrite Hb, (Hall a) by now left. simpl.
    now rewrite bool_decide_true.
Qed.

Section Period.
Variable NumberToString : number -> string.

(** X22. When the rows all have the same year and the same month, the label is
    the month, a slash and the year: the month under the first name that
    [MONTHS_PT] has for its number, or as a number when it has none.
    [analyzeData] returns then.  Rows that have neither year nor month
    are labelled [undefined/undefined]. *)
Theorem analyzeData_period_label (data : list Row) (context : QueryContext)
    (ano mes : option Z) :
  data <> [] ->
  (forall row, In row data -> Ano row = ano /\ Mes row = mes) ->
  exists res,
    analyzeData NumberToString data context = Normal res /\
    periodo_analizado res =
      String.append (match find_month_key mes with
                     | Some k => k
                     | None => show mes
                     end)
                    (String.append "/" (show ano)) /\
    (ano = None -> mes = None -> periodo_analizado res = "undefined/undefined").
Proof.
  intros Hne Hall.
  assert (Hy : Set_values (map Ano data) = [ano])
    by (apply Set_values_constant; [assumption | intros r Hr; now apply Hall]).
  assert (Hm : Set_values (map Mes data) = [mes])
    by (apply Set_values_constant; [assumption | intros r Hr; now apply Hall]).
  assert (Hret : exists res, analyzeData NumberToString data context = Normal res).
  { pose proof (analyzeData_cases NumberToString data context Hne) as Hc.
    destruct (analyzeData NumberToString data context) as [res|e]; [eauto|].
    destruct Hc as [Hc _]. unfold compares in Hc. rewrite Hm in Hc.
    simpl in Hc. now rewrite andb_false_r in Hc. }
  destruct Hret as [res Hres]. exists res. split; [exact Hres|].
  destruct (analyzeData_fields NumberToString data context res Hne Hres) as [_ Hp].
  assert (Hlabel : periodo data =
      String.append (match find_month_key mes with
                     | Some k => k
                     | None => show mes
                     end)
                    (String.append "/" (show ano))).
  { unfold periodo. rewrite Hy, Hm. reflexivity. }
  rewrite Hp, Hlabel. split; [reflexivity|].
  intros -> ->. reflexivity.
Qed.
End Period.

Lemma analyzeData_period_label_witness :
  exists res,
    analyzeData (fun _ => "")
      [venda_sem_data "Caneta" 1 10; venda_sem_data "Lapis" 2 5] top2 = Normal res /\
    periodo_analizado res = "undefined/undefined".
Proof.
  destruct (analyzeData_period_label (fun _ => "")
              [venda_sem_data "Caneta" 1 10; venda_sem_data "Lapis" 2 5] top2
              None None) as (res & Hres & _ & Hu).
  - discriminate.
  - intros row [<-|[<-|[]]]; split; reflexivity.
  - exists res. split; [exact Hres | exact (Hu eq_refl eq_refl)].
Defined.

End MonthlyProps.

(** ** The CSV reader *)

Module CsvProps.
Import JS Text Csv NormalizerSpec DigitFacts DateProps.

(** *** Blank text *)

Lemma trimStart_empty (s : string) :
  trimStart s = "" <-> all_chars is_space s = true.
Proof.
  induction s as [|c s IH]; [simpl; tauto|].
  cbn [trimStart all_chars]. destruct (is_space c); [exact IH|].
  split; discriminate.
Qed.

Lemma trim_empty (s : string) : trim s = "" <-> all_chars is_space s = true.
Proof.
  rewrite <- trimStart_empty. unfold trim.
  destruct (trimStart_head s) as [->|(c & r & -> & Hc)]; [tauto|].
  destruct (trimEnd_head c r Hc) as (r' & ->). split; discriminate.
Qed.

Lemma split_nonempty (sep : ascii) (s : string) : split sep s <> [].
Proof.
  destruct s as [|c r]; [discriminate|]. cbn [split].
  destruct (Ascii.eqb c sep); [discriminate|].
  destruct (split sep r); discriminate.
Qed.

Lemma split_cons (sep c : ascii) (r : string) :
  split sep (String c r) =
  if Ascii.eqb c sep then EmptyString :: split sep r
  else match split sep r with
       | p :: ps => String c p :: ps
       | [] => [String c EmptyString]
       end.
Proof. reflexivity. Qed.

(** The pieces of a string hold its characters, the separators apart. *)
Lemma split_all_chars (p : ascii -> bool) (sep : ascii) (s : string) :
  p sep = true ->
  forallb (all_chars p) (split sep s) = all_chars p s.
Proof.
  intros Hsep. induction s as [|c r IH]; [reflexivity|].
  rewrite split_cons. destruct (Ascii.eqb c sep) eqn:E.
  - apply Ascii.eqb_eq in E. subst c. cbn [forallb all_chars].
    now rewrite IH, Hsep.
  - pose proof (split_nonempty sep r) as Hne.
    destruct (split sep r) as [|p0 ps]; [contradiction|].
    cbn [forallb all_chars] in *. rewrite <- IH. now rewrite andb_assoc.
Qed.

Lemma split_pieces (p : ascii -> bool) (sep : ascii) (s piece : string) :
  all_chars p s = true -> In piece (split sep s) -> all_chars p piece = true.
Proof.
  revert piece. induction s as [|c r IH]; intros piece Hs Hin.
  - destruct Hin as [<-|[]]. reflexivity.
  - simpl in Hs. apply andb_true_iff in Hs as [Hc Hr].
    rewrite split_cons in Hin. destruct (Ascii.eqb c sep).
    + destruct Hin as [<-|Hin]; [reflexivity | now apply IH].
    + pose proof (split_nonempty sep r) as Hne.
      destruct (split sep r) as [|p0 ps]; [contradiction|].
      destruct Hin as [<-|Hin].
      * simpl. rewrite Hc. apply IH; [assumption | now left].
      * apply IH; [assumption | now right].
Qed.

Lemma split_no_sep (sep : ascii) (s piece : string) :
  In piece (split sep s) -> all_chars (fun c => negb (Ascii.eqb c sep)) piece = true.
Proof.
  revert piece. induction s as [|c r IH]; intros piece Hin.
  - destruct Hin as [<-|[]]. reflexivity.
  - rewrite split_cons in Hin. destruct (Ascii.eqb c sep) eqn:E.
    + destruct Hin as [<-|Hin]; [reflexivity | now apply IH].
    + pose proof (split_nonempty sep r) as Hne.
      destruct (split sep r) as [|p0 ps]; [contradiction|].
      destruct Hin as [<-|Hin].
      * simpl. rewrite E. apply IH. now left.
      * apply IH. now right.
Qed.

Lemma filter_nil_iff {A : Type} (f : A -> bool) (l : list A) :
  List.filter f l = [] <-> forallb (fun x => negb (f x)) l = true.
Proof.
  induction l as [|a l IH]; [simpl; tauto|].
  simpl. destruct (f a); simpl; [split; discriminate | exact IH].
Qed.

Lemma lines_of_nil (text : string) :
  lines_of text = [] <-> all_chars is_space text = true.
Proof.
  unfold lines_of. rewrite filter_nil_iff.
  rewrite <- (split_all_chars is_space line_feed text) by reflexivity.
  assert (H : forall l, forallb (fun x => negb (negb (String.eqb (trim x) ""))) l =
                        forallb (all_chars is_space) l).
  { intros l. induction l as [|x l IHl]; [reflexivity|].
    cbn [forallb]. rewrite IHl, negb_involutive. f_equal.
    destruct (String.eqb (trim x) "") eqn:E.
    - apply String.eqb_eq, trim_empty in E. now rewrite E.
    - destruct (all_chars is_space x) eqn:E'; [|reflexivity].
      apply trim_empty in E'. rewrite E' in E. discriminate. }
  now rewrite H.
Qed.

(** X1. [parseCSV] throws, with the message [Arquivo vazio], exactly when the
    text holds nothing but white space; otherwise it returns, whatever the
    text. *)
Theorem parseCSV_throws (name text : string) :
  (parseCSV name text = Throw "Arquivo vazio" <-> trim text = "") /\
  (trim text <> "" -> exists parsed, parseCSV name text = Normal parsed).
Proof.
  rewrite trim_empty, <- lines_of_nil. unfold parseCSV.
  destruct (lines_of text) as [|first rest]; split.
  - tauto.
  - intros H. now contradiction H.
  - split; discriminate.
  - intros _. eauto.
Qed.

(** *** Rows as objects *)

Lemma set_property_lookup (row : gmap string string) (header value k : string) :
  set_property row header value !! k =
  if String.eqb header "__proto__" then row !! k
  else if String.eqb header k then Some value else row !! k.
Proof.
  unfold set_property. destruct (String.eqb header "__proto__"); [reflexivity|].
  destruct (String.eqb header k) eqn:E.
  - apply String.eqb_eq in E. subst k. apply lookup_insert_eq.
  - apply String.eqb_neq in E. now apply lookup_insert_ne.
Qed.

Lemma fold_set_property_Some (l : list (string * string)) :
  forall (init : gmap string string) (k : string),
  (exists v, fold_left (fun row cell => set_property row (fst cell) (snd cell)) l init !! k
             = Some v) <->
  (exists v, init !! k = Some v) \/ (In k (map fst l) /\ k <> "__proto__").
Proof.
  induction l as [|[h v] l IH]; intros init k; cbn [fold_left map fst snd].
  - simpl. tauto.
  - rewrite IH. rewrite set_property_lookup.
    destruct (String.eqb h "__proto__") eqn:P.
    + apply String.eqb_eq in P. subst h. simpl. intuition congruence.
    + destruct (String.eqb h k) eqn:E.
      * apply String.eqb_eq in E. subst k. apply String.eqb_neq in P.
        simpl. split; [intros _; right; tauto | intros _; left; eauto].
      * apply String.eqb_neq in E. simpl. intuition congruence.
Qed.

Lemma fold_set_property_value (l : list (string * string)) :
  forall (init : gmap string string) (k v : string),
  fold_left (fun row cell => set_property row (fst cell) (snd cell)) l init !! k = Some v ->
  init !! k = Some v \/ In v (map snd l).
Proof.
  induction l as [|[h w] l IH]; intros init k v; cbn [fold_left map fst snd]; [tauto|].
  intros H. apply IH in H as [H|H]; [|simpl; tauto].
  rewrite set_property_lookup in H.
  destruct (String.eqb h "__proto__"); [tauto|].
  destruct (String.eqb h k); [injection H as <-; simpl; tauto | tauto].
Qed.

Lemma map_fst_combine {A B : Type} (l1 : list A) : forall l2 : list B,
  List.length l2 = List.length l1 -> map fst (combine l1 l2) = l1.
Proof.
  induction l1 as [|a l1 IH]; intros [|b l2] H; try discriminate; [reflexivity|].
  simpl. f_equal. apply IH. now injection H.
Qed.

Lemma map_snd_combine {A B : Type} (l1 : list A) : forall l2 : list B,
  List.length l2 = List.length l1 -> map snd (combine l1 l2) = l2.
Proof.
  induction l1 as [|a l1 IH]; intros [|b l2] H; try discriminate; [reflexivity|].
  simpl. f_equal. apply IH. now injection H.
Qed.

Lemma data_rows_In (headers lines : list string) (row : gmap string string) :
  In row (data_rows headers lines) <->
  exists line, In line lines /\
               List.length (cells line) = List.length headers /\
               row = row_object headers (cells line).
Proof.
  unfold data_rows. rewrite in_flat_map. split.
  - intros (line & Hline & Hrow). exists line. split; [assumption|].
    cbv zeta in Hrow.
    destruct (List.length (cells line) =? List.length headers)%nat eqn:E; [|destruct Hrow].
    apply Nat.eqb_eq in E. destruct Hrow as [<-|[]]. now split.
  - intros (line & Hline & Hlen & ->). exists line. split; [assumption|].
    cbv zeta. apply Nat.eqb_eq in Hlen. rewrite Hlen. now left.
Qed.

Lemma data_rows_length (headers lines : list string) :
  (List.length (data_rows headers lines) <= List.length lines)%nat.
Proof.
  induction lines as [|line lines IH]; [simpl; lia|].
  unfold data_rows in *. cbn [flat_map]. rewrite length_app. cbv zeta.
  destruct (List.length (cells line) =? List.length headers)%nat; simpl; lia.
Qed.

Lemma parseCSV_rows_lines (name text : string) (parsed : ParsedData) :
  parseCSV name text = Normal parsed ->
  exists first,
    In first (lines_of text) /\ headers parsed = cells first /\
    forall row, In row (rows parsed) ->
      exists line, In line (lines_of text) /\
                   List.length (cells line) = List.length (headers parsed) /\
                   row = row_object (headers parsed) (cells line).
Proof.
  unfold parseCSV. destruct (lines_of text) as [|first rest]; [discriminate|].
  intros [= <-]. cbn [rows headers]. exists first.
  split; [now left|]. split; [reflexivity|].
  intros row Hrow. apply data_rows_In in Hrow as (line & Hline & Hlen & ->).
  exists line. split; [now right | now split].
Qed.

(** X2. Whenever [parseCSV] returns, every row it returns holds a cell for
    each header of the file and nothing else, the header [__proto__]
    apart, which names no property; the lines that do not have as many
    cells as there are headers are left out, and [rowCount] counts the
    rows returned. *)
Theorem parseCSV_rows (name text : string) (parsed : ParsedData) :
  parseCSV name text = Normal parsed ->
  (forall row, In row (rows parsed) ->
     forall h, (exists v, row !! h = Some v) <->
               (In h (headers parsed) /\ h <> "__proto__")) /\
  rowCount (metadata parsed) = Z.of_nat (List.length (rows parsed)) /\
  (List.length (rows parsed) < List.length (lines_of text))%nat /\
  (forall row, In row (rows parsed) ->
     exists line, In line (lines_of text) /\
                  List.length (cells line) = List.length (headers parsed) /\
                  row = row_object (headers parsed) (cells line)).
Proof.
  unfold parseCSV. destruct (lines_of text) as [|first rest]; [discriminate|].
  intros [= <-]. cbn [rows headers metadata rowCount].
  split; [|split; [reflexivity|split]].
  - intros row Hrow h. apply data_rows_In in Hrow as (line & _ & Hlen & ->).
    unfold row_object. rewrite fold_set_property_Some, map_fst_combine by assumption.
    rewrite lookup_empty. split; [intros [[v Hv]|H]; [discriminate | exact H] | tauto].
  - pose proof (data_rows_length (cells first) rest). simpl. lia.
  - intros row Hrow. apply data_rows_In in Hrow as (line & Hline & Hlen & ->).
    exists line. split; [now right | now split].
Qed.

Lemma parseCSV_rows_witness :
  exists parsed,
    parseCSV "vendas.csv"
      (String.append "Produto,Qtd" (String line_feed
         (String.append "Caneta,3" (String line_feed "Lapis")))) = Normal parsed /\
    rowCount (metadata parsed) = 1.
Proof.
  destruct (parseCSV "vendas.csv"
      (String.append "Produto,Qtd" (String line_feed
         (String.append "Caneta,3" (String line_feed "Lapis"))))) as [parsed|e] eqn:E.
  - exists parsed. split; [reflexivity|].
    rewrite (proj1 (proj2 (parseCSV_rows _ _ parsed E))).
    injection E as <-. reflexivity.
  - vm_compute in E. discriminate.
Defined.

(** *** No comma in a cell *)

Lemma all_chars_trimStart (p : ascii -> bool) (s : string) :
  all_chars p s = true -> all_chars p (trimStart s) = true.
Proof.
  induction s as [|c s IH]; [reflexivity|].
  intros H. cbn [trimStart]. destruct (is_space c); [|exact H].
  simpl in H. apply andb_true_iff in H as [_ H]. now apply IH.
Qed.

Lemma all_chars_trimEnd (p : ascii -> bool) (s : string) :
  all_chars p s = true -> all_chars p (trimEnd s) = true.
Proof.
  induction s as [|c s IH]; [reflexivity|].
  intros H. simpl in H. apply andb_true_iff in H as [Hc Hs].
  rewrite trimEnd_cons. specialize (IH Hs).
  destruct (trimEnd s) as [|d r].
  - destruct (is_space c); [reflexivity|]. simpl. now rewrite Hc.
  - cbn [all_chars] in *. now rewrite Hc.
Qed.

Lemma all_chars_drop_last_quote (p : ascii -> bool) (s : string) :
  all_chars p s = true -> all_chars p (drop_last_quote s) = true.
Proof.
  induction s as [|c s IH]; [reflexivity|].
  intros H. pose proof H as H'. simpl in H'. apply andb_true_iff in H' as [Hc Hs].
  cbn [drop_last_quote]. destruct s as [|d r].
  - destruct (is_quote c); [reflexivity | exact H].
  - cbn [all_chars]. rewrite Hc. now apply IH.
Qed.

Lemma all_chars_strip_quotes (p : ascii -> bool) (s : string) :
  all_chars p s = true -> all_chars p (strip_quotes s) = true.
Proof.
  destruct s as [|c s]; [reflexivity|]. intros H. unfold strip_quotes.
  destruct (is_quote c).
  - simpl in H. apply andb_true_iff in H as [_ H]. now apply all_chars_drop_last_quote.
  - now apply all_chars_drop_last_quote.
Qed.

(** Neither a comma nor a line feed. *)
Definition no_break (c : ascii) : bool :=
  negb (Ascii.eqb c ",") && negb (Ascii.eqb c line_feed).

Lemma no_break_both (s : string) :
  all_chars (fun c => negb (Ascii.eqb c ",")) s = true ->
  all_chars (fun c => negb (Ascii.eqb c line_feed)) s = true ->
  all_chars no_break s = true.
Proof.
  induction s as [|c s IH]; [reflexivity|].
  simpl. rewrite !andb_true_iff. unfold no_break.
  intros [H1 H2] [H3 H4]. rewrite H1, H3. auto.
Qed.

Lemma cells_no_break (text line cell : string) :
  In line (lines_of text) -> In cell (cells line) -> all_chars no_break cell = true.
Proof.
  intros Hline Hcell. unfold lines_of in Hline. apply filter_In in Hline as [Hline _].
  apply split_no_sep in Hline.
  unfold cells in Hcell. apply in_map_iff in Hcell as (piece & <- & Hpiece).
  apply all_chars_strip_quotes. unfold trim.
  apply all_chars_trimEnd, all_chars_trimStart, no_break_both.
  - now apply split_no_sep in Hpiece.
  - now apply (split_pieces _ "," line).
Qed.

(** X3. No header and no cell that [parseCSV] returns holds a comma or a line
    feed: quotes do not protect a comma, a quoted field that holds one is
    split in two. *)
Theorem parseCSV_no_comma (name text : string) (parsed : ParsedData) :
  parseCSV name text = Normal parsed ->
  (forall h, In h (headers parsed) -> all_chars no_break h = true) /\
  (forall row h v, In row (rows parsed) -> row !! h = Some v ->
                   all_chars no_break v = true).
Proof.
  intros H.
  destruct (parseCSV_rows_lines name text parsed H) as (first & Hfirst & Hhead & Hrows).
  split.
  - intros h Hh. rewrite Hhead in Hh. now apply (cells_no_break text first).
  - intros row h v Hrow Hv.
    destruct (Hrows row Hrow) as (line & Hline & Hlen & ->).
    unfold row_object in Hv. apply fold_set_property_value in Hv as [Hv|Hv].
    + rewrite lookup_empty in Hv. discriminate.
    + rewrite map_snd_combine in Hv by assumption.
      now apply (cells_no_break text line).
Qed.

Lemma parseCSV_no_comma_witness :
  exists parsed,
    parseCSV "vendas.csv"
      (String.append "Produto,Qtd" (String line_feed "'Caneta, azul',3")) = Normal parsed /\
    (forall h, In h (headers parsed) -> all_chars no_break h = true) /\
    rows parsed = [].
Proof.
  destruct (parseCSV "vendas.csv"
      (String.append "Produto,Qtd" (String line_feed "'Caneta, azul',3")))
    as [parsed|e] eqn:E.
  - exists parsed. split; [reflexivity|].
    split; [exact (proj1 (parseCSV_no_comma _ _ parsed E))|].
    injection E as <-. reflexivity.
  - vm_compute in E. discriminate.
Defined.

(** *** Writing a table and reading it back *)

(** A table as text: the cells of a line joined by commas, the lines by
    line feeds. *)
Definition render_line (cells : list string) : string := join "," cells.

Definition render (table : list (list string)) : string :=
  join (String line_feed "") (map render_line table).

(** A cell that the reader leaves as it is: no comma, no line feed, no
    white space and no quote at either end. *)
Definition plain (cell : string) : bool :=
  all_chars no_break cell && String.eqb (trim cell) cell
  && String.eqb (strip_quotes cell) cell.

(** A line of [width] plain cells that is not blank. *)
Definition plain_line (width : nat) (line : list string) : bool :=
  forallb plain line && (List.length line =? width)%nat
  && negb (String.eqb (trim (render_line line)) "").

Definition plain_table (headers : list string) (body : list (list string)) : bool :=
  negb (List.length headers =? 0)%nat
  && forallb (plain_line (List.length headers)) (headers :: body).

Lemma join_cons (sep s : string) (l : list string) :
  l <> [] -> join sep (s :: l) = String.append s (String.append sep (join sep l)).
Proof. destruct l; [contradiction | reflexivity]. Qed.

Lemma split_join (sep : ascii) (l : list string) :
  l <> [] ->
  (forall s, In s l -> all_chars (fun c => negb (Ascii.eqb c sep)) s = true) ->
  split sep (join (String sep "") l) = l.
Proof.
  induction l as [|s l IH]; intros Hne Hall; [contradiction|].
  destruct l as [|t l].
  - apply split_none. apply Hall. now left.
  - rewrite join_cons by discriminate.
    rewrite append_cons, append_nil_l.
    rewrite split_at by (apply Hall; now left).
    f_equal. apply IH; [discriminate|]. intros u Hu. apply Hall. now right.
Qed.

Lemma all_chars_join (p : ascii -> bool) (sep : string) (l : list string) :
  all_chars p sep = true ->
  (forall s, In s l -> all_chars p s = true) ->
  all_chars p (join sep l) = true.
Proof.
  intros Hsep. induction l as [|s l IH]; intros Hall; [reflexivity|].
  destruct l as [|t l].
  - apply Hall. now left.
  - rewrite join_cons by discriminate. rewrite !all_chars_append, Hsep.
    rewrite (Hall s) by now left.
    rewrite IH by (intros u Hu; apply Hall; now right). reflexivity.
Qed.

Lemma plain_spec (cell : string) :
  plain cell = true ->
  all_chars (fun c => negb (Ascii.eqb c ",")) cell = true /\
  all_chars (fun c => negb (Ascii.eqb c line_feed)) cell = true /\
  strip_quotes (trim cell) = cell.
Proof.
  unfold plain. rewrite !andb_true_iff, !String.eqb_eq.
  intros [[Hfree Ht] Hs]. repeat split.
  - revert Hfree. apply all_chars_impl. intros c. unfold no_break.
    rewrite andb_true_iff. tauto.
  - revert Hfree. apply all_chars_impl. intros c. unfold no_break.
    rewrite andb_true_iff. tauto.
  - now rewrite Ht.
Qed.

Lemma plain_line_spec (width : nat) (line : list string) :
  plain_line width line = true ->
  (forall cell, In cell line -> plain cell = true) /\
  List.length line = width /\ trim (render_line line) <> "".
Proof.
  unfold plain_line. rewrite !andb_true_iff, forallb_forall, Nat.eqb_eq,
    negb_true_iff, String.eqb_neq. tauto.
Qed.

Lemma cells_render_line (line : list string) :
  line <> [] -> (forall cell, In cell line -> plain cell = true) ->
  cells (render_line line) = line.
Proof.
  intros Hne Hplain. unfold cells, render_line.
  rewrite split_join by (auto; intros s Hs; now apply plain_spec, Hplain).
  rewrite <- (map_id line) at 2. apply map_ext_in.
  intros cell Hcell. now apply plain_spec, Hplain.
Qed.

Lemma data_rows_render (headers : list string) (body : list (list string)) :
  headers <> [] ->
  (forall line, In line body -> plain_line (List.length headers) line = true) ->
  data_rows headers (map render_line body) = map (row_object headers) body.
Proof.
  intros Hne. induction body as [|line body IH]; intros Hall; [reflexivity|].
  destruct (plain_line_spec _ _ (Hall line (or_introl eq_refl))) as (Hp & Hlen & _).
  assert (Hline : line <> []) by (destruct line, headers; simpl in *; congruence).
  unfold data_rows in *. cbn [map flat_map]. cbv zeta.
  rewrite (cells_render_line line Hline Hp), Hlen, Nat.eqb_refl.
  rewrite IH by (intros l Hl; apply Hall; now right). reflexivity.
Qed.

(** X4. A table of plain cells, written with commas and line feeds, is read
    back as it was: the headers are the first line, and each further line
    is the object that gives its cells under the headers.  The lines must
    have as many cells as there are headers, and none may be blank (a
    single empty cell), or the reader skips it. *)
Theorem parseCSV_render (name : string) (headers : list string)
    (body : list (list string)) :
  plain_table headers body = true ->
  parseCSV name (render (headers :: body)) =
    Normal (mkParsedData headers (map (row_object headers) body)
              (String.append (Z_toString (Z.of_nat (List.length body))) " linhas")
              (mkMetadata name (Z.of_nat (List.length body)) (mkPeriod None None))).
Proof.
  unfold plain_table. rewrite andb_true_iff, negb_true_iff, Nat.eqb_neq, forallb_forall.
  intros [Hwidth Hlines].
  assert (Hne : headers <> []) by (destruct headers; [simpl in Hwidth; lia | discriminate]).
  assert (Hlf : forall line, In line (headers :: body) ->
                  all_chars (fun c => negb (Ascii.eqb c line_feed)) (render_line line) = true).
  { intros line Hline. apply all_chars_join; [reflexivity|].
    intros cell Hcell.
    destruct (plain_line_spec _ _ (Hlines line Hline)) as (Hp & _).
    now apply plain_spec, Hp. }
  assert (Hkept : lines_of (render (headers :: body)) = map render_line (headers :: body)).
  { unfold lines_of, render.
    rewrite split_join.
    - apply ParseQuerySpec.filter_all. intros l Hl.
      apply in_map_iff in Hl as (line & <- & Hline).
      destruct (plain_line_spec _ _ (Hlines line Hline)) as (_ & _ & Hnb).
      now apply negb_true_iff, String.eqb_neq.
    - discriminate.
    - intros l Hl. apply in_map_iff in Hl as (line & <- & Hline). now apply Hlf. }
  unfold parseCSV. rewrite Hkept. cbn [map].
  destruct (plain_line_spec _ _ (Hlines headers (or_introl eq_refl))) as (Hp & _).
  rewrite (cells_render_line headers Hne Hp).
  rewrite data_rows_render by (auto; intros l Hl; apply Hlines; now right).
  now rewrite length_map.
Qed.

Lemma parseCSV_render_witness :
  parseCSV "vendas.csv"
    (render [["Produto"; "Qtd"]; ["Caneta"; "3"]; ["Lapis"; ""]]) =
  Normal (mkParsedData ["Produto"; "Qtd"]
            [row_object ["Produto"; "Qtd"] ["Caneta"; "3"];
             row_object ["Produto"; "Qtd"] ["Lapis"; ""]]
            "2 linhas" (mkMetadata "vendas.csv" 2 (mkPeriod None None))).
Proof.
  exact (parseCSV_render "vendas.csv" ["Produto"; "Qtd"]
           [["Caneta"; "3"]; ["Lapis"; ""]] eq_refl).
Defined.

End CsvProps.

(** ** The upload handler *)

Module UploadProps.
Import JS Normalizer Upload JSFacts NormalizerSpec HeaderProps RowProps.

(** *** The header map *)

Section Tabulate.
Context {K V : Type} `{EqDecision K}.
Variable F : K -> V.

Definition tabulate (keys : list K) : list (K * V) := map (fun k => (k, F k)) keys.

Lemma Map_set_tabulated (pre : list K) (k : K) :
  Map_set (tabulate (Set_values pre)) k (F k) = tabulate (Set_values (pre ++ [k])).
Proof.
  unfold tabulate. rewrite Set_values_snoc.
  destruct (Array_includes pre k) eqn:E.
  - rewrite app_nil_r.
    rewrite (Map_set_tabulate (F k) (fun v (_ : unit) => v) F)
      by (try apply Set_values_NoDup;
          try (apply Set_values_In; now apply Array_includes_In)).
    apply map_ext. intros k'. destruct (bool_decide (k' = k)) eqn:Ek; [|reflexivity].
    apply bool_decide_eq_true in Ek. now subst.
  - rewrite map_app. apply Map_set_fresh.
    rewrite Map_get_tabulate.
    destruct (Array_includes (Set_values pre) k) eqn:E'; [|reflexivity].
    apply (proj1 (Array_includes_In _ _)) in E'.
    apply (proj1 (Set_values_In _ _)) in E'.
    apply (proj2 (Array_includes_In _ _)) in E'. congruence.
Qed.

Lemma fold_Map_set (keys : list K) : forall pre : list K,
  fold_left (fun m k => Map_set m k (F k)) keys (tabulate (Set_values pre))
  = tabulate (Set_values (pre ++ keys)).
Proof.
  induction keys as [|k keys IH]; intros pre; cbn [fold_left].
  - now rewrite app_nil_r.
  - rewrite Map_set_tabulated, IH, <- app_assoc. reflexivity.
Qed.
End Tabulate.

Lemma build_headerMap_entries_eq (headers : list string) :
  build_headerMap headers =
    map (fun h => (h, normalizeHeader h)) (Set_values headers) /\ True.
Proof.
  split; [|exact I]. unfold build_headerMap.
  exact (fold_Map_set normalizeHeader headers []).
Qed.

Lemma normalizeHeader_range (header : string) :
  In (normalizeHeader header) (map fst SCHEMA_MAPPING) \/ normalizeHeader header = header.
Proof.
  unfold normalizeHeader.
  destruct (first_standard (clean_header header) SCHEMA_MAPPING) as [standard|] eqn:E;
    [left; now apply first_standard_In in E | now right].
Qed.

(** X5. The header map holds one entry for each distinct header of the file,
    in the order in which the headers first occur: a header that occurs
    twice has one entry. *)
Theorem build_headerMap_entries (headers : list string) :
  build_headerMap headers =
    map (fun h => (h, normalizeHeader h)) (Set_values headers) /\
  List.NoDup (map fst (build_headerMap headers)) /\
  (forall h, Map_get (build_headerMap headers) h =
             if Array_includes headers h then Some (normalizeHeader h) else None).
Proof.
  pose proof (proj1 (build_headerMap_entries_eq headers)) as H.
  split; [exact H|]. rewrite H. split.
  - rewrite map_map. cbn [fst]. rewrite map_id. apply Set_values_NoDup.
  - intros h. rewrite Map_get_tabulate.
    destruct (Array_includes headers h) eqn:E.
    + apply Array_includes_In in E.
      now rewrite (proj2 (Array_includes_In _ _) (proj2 (Set_values_In _ _) E)).
    + destruct (Array_includes (Set_values headers) h) eqn:E'; [|reflexivity].
      apply (proj1 (Array_includes_In _ _)) in E'.
      apply (proj1 (Set_values_In _ _)) in E'.
      apply (proj2 (Array_includes_In _ _)) in E'. congruence.
Qed.

(** *** The period of a file *)

(** One step of the loop on one of the two ranges. *)
Definition track (r : Range) (x : reading) : Range :=
  match x with
  | Truthy z => widen r z
  | _ => r
  end.

Lemma detect_tracks (row : gmap string value) (years months : Range) :
  read (row !! "Ano") <> Other -> read (row !! "Mes") <> Other ->
  detect (Some (years, months)) row =
    Some (track years (read (row !! "Ano")), track months (read (row !! "Mes"))).
Proof.
  intros HA HM. unfold detect, track.
  destruct (read (row !! "Ano")), (read (row !! "Mes")); congruence.
Qed.

Lemma fold_detect (rows : list (gmap string value)) : forall years months : Range,
  (forall row, In row rows ->
     read (row !! "Ano") <> Other /\ read (row !! "Mes") <> Other) ->
  fold_left detect rows (Some (years, months)) =
    Some (fold_left track (map (fun row => read (row !! "Ano")) rows) years,
          fold_left track (map (fun row => read (row !! "Mes")) rows) months).
Proof.
  induction rows as [|row rows IH]; intros years months H; [reflexivity|].
  cbn [fold_left map].
  destruct (H row (or_introl eq_refl)) as [HA HM].
  rewrite detect_tracks by assumption.
  apply IH. intros r Hr. apply H. now right.
Qed.

(** What the range holds once the readings [l] are seen: nothing, or the
    least and the greatest of the numbers read. *)
Definition spans (l : list reading) (r : Range) : Prop :=
  (r = (None, None) /\ forall z, ~ In (Truthy z) l) \/
  (exists lo hi, r = (Some lo, Some hi) /\ In (Truthy lo) l /\ In (Truthy hi) l /\
                 forall z, In (Truthy z) l -> lo <= z <= hi).

Lemma track_spans (l : list reading) (r : Range) (x : reading) :
  spans l r -> spans (l ++ [x]) (track r x).
Proof.
  intros [[-> Hnone]|(lo & hi & -> & Hlo & Hhi & Hall)].
  - destruct x as [|z|]; cbn [track].
    + left. split; [reflexivity|]. intros z Hz.
      apply in_app_iff in Hz as [Hz|[Hz|[]]]; [now apply (Hnone z) | discriminate].
    + right. exists z, z. split; [reflexivity|].
      split; [apply in_app_iff; right; now left|].
      split; [apply in_app_iff; right; now left|].
      intros z' Hz. apply in_app_iff in Hz as [Hz|[[= ->]|[]]]; [|lia].
      now contradiction (Hnone z').
    + left. split; [reflexivity|]. intros z Hz.
      apply in_app_iff in Hz as [Hz|[Hz|[]]]; [now apply (Hnone z) | discriminate].
  - right. destruct x as [|z|]; cbn [track].
    + exists lo, hi. split; [reflexivity|].
      split; [apply in_app_iff; now left|]. split; [apply in_app_iff; now left|].
      intros z Hz. apply in_app_iff in Hz as [Hz|[Hz|[]]]; [auto | discriminate].
    + unfold widen. cbn [fst snd].
      destruct (z <? lo)%Z eqn:E1; destruct (hi <? z)%Z eqn:E2;
        [apply Z.ltb_lt in E1 | apply Z.ltb_lt in E1 | apply Z.ltb_ge in E1 |
         apply Z.ltb_ge in E1];
        [apply Z.ltb_lt in E2 | apply Z.ltb_ge in E2 | apply Z.ltb_lt in E2 |
         apply Z.ltb_ge in E2];
        eexists _, _; (split; [reflexivity|]);
        (split; [apply in_app_iff; simpl; tauto|]);
        (split; [apply in_app_iff; simpl; tauto|]);
        intros z' Hz; apply in_app_iff in Hz as [Hz|[[= ->]|[]]];
        try specialize (Hall z' Hz); try specialize (Hall lo Hlo); lia.
    + exists lo, hi. split; [reflexivity|].
      split; [apply in_app_iff; now left|]. split; [apply in_app_iff; now left|].
      intros z Hz. apply in_app_iff in Hz as [Hz|[Hz|[]]]; [auto | discriminate].
Qed.

Lemma fold_track_spans (l : list reading) :
  spans l (fold_left track l (None, None)).
Proof.
  induction l as [|x l IH] using rev_ind.
  - left. split; [reflexivity | intros z []].
  - rewrite fold_left_app. cbn [fold_left]. now apply track_spans.
Qed.

(** The range is a single number when a number was read and no other. *)
Lemma single_spans (l : list reading) (r : Range) (v : Z) :
  spans l r ->
  (single r = Some v <->
   In (Truthy v) l /\ forall z, In (Truthy z) l -> z = v).
Proof.
  intros [[-> Hnone]|(lo & hi & -> & Hlo & Hhi & Hall)]; cbn [single].
  - split; [discriminate|]. intros [Hv _]. now contradiction (Hnone v).
  - destruct (lo =? hi)%Z eqn:E.
    + apply Z.eqb_eq in E. subst hi. split.
      * intros [= <-]. split; [assumption|]. intros z Hz. specialize (Hall z Hz). lia.
      * intros [Hv Hsame]. f_equal. now apply Hsame.
    + apply Z.eqb_neq in E. split; [discriminate|].
      intros [_ Hsame]. rewrite (Hsame lo Hlo), (Hsame hi Hhi) in E. congruence.
Qed.

(** The rows under the key [k] hold one number other than 0, [v], and
    apart from it only 0 or nothing. *)
Definition only (k : string) (rows : list (gmap string value)) (v : Z) : Prop :=
  v <> 0 /\
  (exists row, In row rows /\ row !! k = Some (VInt v)) /\
  (forall row z, In row rows -> row !! k = Some (VInt z) -> z = v \/ z = 0).

Lemma read_Truthy (o : option value) (z : Z) :
  read o <> Other -> (read o = Truthy z <-> o = Some (VInt z) /\ z <> 0).
Proof.
  destruct o as [[s|n|x]|]; cbn [read].
  - destruct (String.eqb s ""); [|congruence]. intros _. split; [discriminate|].
    intros [H _]. discriminate.
  - intros _. destruct (n =? 0)%Z eqn:E.
    + apply Z.eqb_eq in E. split; [discriminate|]. intros [[= ->] H]. contradiction.
    + apply Z.eqb_neq in E. split; [intros [= ->]; now split | now intros [[= ->] _]].
  - destruct (num_truthy x); [congruence|]. intros _. split; [discriminate|].
    intros [H _]. discriminate.
  - intros _. split; [discriminate|]. intros [H _]. discriminate.
Qed.

Lemma single_only (k : string) (rows : list (gmap string value)) (v : Z) :
  (forall row, In row rows -> read (row !! k) <> Other) ->
  single (fold_left track (map (fun row => read (row !! k)) rows) (None, None)) = Some v
  <-> only k rows v.
Proof.
  intros Hnum.
  rewrite (single_spans _ _ v (fold_track_spans _)).
  unfold only. split.
  - intros [Hv Hsame]. apply in_map_iff in Hv as (row & Hread & Hrow).
    apply read_Truthy in Hread as [Hk Hne]; [|now apply Hnum].
    split; [assumption|]. split; [eauto|].
    intros r z Hr Hz. destruct (Z.eq_dec z 0) as [->|Hz0]; [now right|]. left.
    apply Hsame. apply in_map_iff. exists r. split; [|assumption].
    apply read_Truthy; [now apply Hnum | now split].
  - intros (Hne & (row & Hrow & Hk) & Hsame). split.
    + apply in_map_iff. exists row. split; [|assumption].
      apply read_Truthy; [now apply Hnum | now split].
    + intros z Hz. apply in_map_iff in Hz as (r & Hread & Hr).
      apply read_Truthy in Hread as [Hz Hz0]; [|now apply Hnum].
      destruct (Hsame r z Hr Hz); [assumption | contradiction].
Qed.

(** A normalised row has a number or nothing under [Ano] and under [Mes]
    unless a header is mapped to that very name. *)
Lemma normalize_entry_number (row : gmap string string) (normalized : gmap string value)
    (original standard k : string) :
  k = "Ano" \/ k = "Mes" -> standard <> k ->
  (normalized !! k = None \/ exists z, normalized !! k = Some (VInt z)) ->
  (normalize_entry row normalized (original, standard) !! k = None \/
   exists z, normalize_entry row normalized (original, standard) !! k = Some (VInt z)).
Proof.
  intros Hk Hs Hn. unfold normalize_entry.
  destruct (String.eqb standard "Data") eqn:HD.
  - destruct (parseDate (row !! original)) as [p|]; [|exact Hn].
    right. destruct Hk as [-> | ->].
    + exists (year p). now rewrite !lookup_insert_ne, lookup_insert_eq by discriminate.
    + exists (month p). now rewrite !lookup_insert_ne, lookup_insert_eq by discriminate.
  - destruct (String.eqb standard "Quantidade") eqn:HQ.
    + rewrite lookup_insert_ne; [exact Hn|]. destruct Hk as [-> | ->]; discriminate.
    + destruct (String.eqb standard "Preco_Unitario" || String.eqb standard "Receita_Total")
        eqn:HP.
      * rewrite lookup_insert_ne; [exact Hn|].
        apply orb_true_iff in HP as [HP|HP]; apply String.eqb_eq in HP; subst standard;
          destruct Hk as [-> | ->]; discriminate.
      * destruct (row !! original).
        -- now rewrite lookup_insert_ne by congruence.
        -- now rewrite lookup_delete_ne by congruence.
Qed.

Lemma normalizeRow_number (row : gmap string string)
    (headerMap : list (string * string)) (k : string) :
  k = "Ano" \/ k = "Mes" ->
  (forall o, ~ In (o, k) headerMap) ->
  read (normalizeRow row headerMap !! k) <> Other.
Proof.
  intros Hk Hno.
  assert (H : normalizeRow row headerMap !! k = None \/
              exists z, normalizeRow row headerMap !! k = Some (VInt z)).
  { rewrite normalizeRow_other_key by (destruct Hk as [-> | ->]; discriminate).
    apply fold_left_invariant.
    - left. apply lookup_empty.
    - intros a [o s] Hin Ha. apply normalize_entry_number; try assumption.
      intros ->. now apply (Hno o). }
  destruct H as [->|[z ->]]; cbn [read]; [discriminate|].
  destruct (z =? 0)%Z; discriminate.
Qed.

Lemma headerMap_standard (headers : list string) (o k : string) :
  ~ In k (map fst SCHEMA_MAPPING) ->
  In (o, k) (build_headerMap headers) -> In k headers.
Proof.
  intros Hk Hin.
  rewrite (proj1 (build_headerMap_entries_eq headers)) in Hin.
  apply in_map_iff in Hin as (h & Heq & Hh).
  injection Heq as _ Hn.
  apply (proj1 (Set_values_In _ _)) in Hh.
  destruct (normalizeHeader_range h) as [Hkey|Hsame].
  - rewrite Hn in Hkey. contradiction.
  - rewrite Hn in Hsame. now subst h.
Qed.

(** X14. For a file none of whose columns is named [Ano] or [Mes], the period
    is detected, and its year is [y] exactly when [y] is the one year
    other than 0 of the dated rows; likewise for its month.  Rows
    without a date, and the year 0 and the month 0 that [parseDate] lets
    through, are passed over. *)
Theorem period_of_file (parsed : Csv.ParsedData) :
  ~ In "Ano" (Csv.headers parsed) -> ~ In "Mes" (Csv.headers parsed) ->
  exists period,
    period_of (normalizedRows parsed) = Some period /\
    (forall y, Csv.year period = Some y <-> only "Ano" (normalizedRows parsed) y) /\
    (forall m, Csv.month period = Some m <-> only "Mes" (normalizedRows parsed) m).
Proof.
  intros HA HM.
  assert (Hnum : forall k, k = "Ano" \/ k = "Mes" ->
            forall row, In row (normalizedRows parsed) -> read (row !! k) <> Other).
  { intros k Hk row Hrow. unfold normalizedRows in Hrow. cbv zeta in Hrow.
    apply in_map_iff in Hrow as (raw & <- & _).
    apply normalizeRow_number; [assumption|].
    intros o Hin. apply headerMap_standard in Hin.
    - destruct Hk as [-> | ->]; contradiction.
    - destruct Hk as [-> | ->]; simpl; intuition discriminate. }
  unfold period_of.
  rewrite fold_detect by (intros row Hrow; split; apply Hnum; auto).
  eexists. split; [reflexivity|]. cbn [Csv.year Csv.month].
  split; intros v; apply single_only; apply Hnum; auto.
Qed.

Lemma period_of_file_witness :
  exists period,
    period_of (normalizedRows
                 (Csv.mkParsedData ["Data"; "Produto"]
                    [ {["Data" := "2024-03-15"; "Produto" := "Caneta"]};
                      {["Data" := "sem data"; "Produto" := "Lapis"]};
                      {["Data" := "2024-04-02"; "Produto" := "Caderno"]} ]
                    "3 linhas"
                    (Csv.mkMetadata "vendas.csv" 3 (Csv.mkPeriod None None))))
      = Some period /\
    Csv.year period = Some 2024 /\ Csv.month period = None.
Proof.
  destruct (period_of_file
              (Csv.mkParsedData ["Data"; "Produto"]
                 [ {["Data" := "2024-03-15"; "Produto" := "Caneta"]};
                   {["Data" := "sem data"; "Produto" := "Lapis"]};
                   {["Data" := "2024-04-02"; "Produto" := "Caderno"]} ]
                 "3 linhas"
                 (Csv.mkMetadata "vendas.csv" 3 (Csv.mkPeriod None None))))
    as (period & Hp & _).
  - simpl. intuition discriminate.
  - simpl. intuition discriminate.
  - exists period. split; [exact Hp|].
    vm_compute in Hp. injection Hp as <-. split; reflexivity.
Defined.

End UploadProps.

(** ** The chat handler *)

Module ChatProps.
Import JS Text Query Chat JSFacts AnalyzeSpec.

(** *** The periods on offer *)

Lemma period_label_Some (r : Row) (s : string) :
  period_label r = Some s <->
  exists y m, Ano r = Some y /\ y <> 0 /\ Mes r = Some m /\ m <> 0 /\
              s = String.append (month_name m) (String.append "/" (Z_toString y)).
Proof.
  unfold period_label, int_truthy, month_name.
  destruct (Ano r) as [y|], (Mes r) as [m|]; cbn [andb].
  - destruct (Z.eqb_spec y 0) as [->|Hy]; destruct (Z.eqb_spec m 0) as [->|Hm];
      cbn [negb andb].
    + split; [discriminate|]. intros (y' & m' & [= <-] & H & _). contradiction.
    + split; [discriminate|]. intros (y' & m' & [= <-] & H & _). contradiction.
    + split; [discriminate|]. intros (y' & m' & _ & _ & [= <-] & H & _). contradiction.
    + cbn [show]. split.
      * intros [= <-]. exists y, m. repeat split; assumption.
      * intros (y' & m' & [= <-] & _ & [= <-] & _ & ->). reflexivity.
  - split; [destruct (negb (y =? 0)%Z); discriminate|].
    intros (y' & m' & _ & _ & H & _). discriminate.
  - split; [discriminate|]. intros (y' & m' & H & _). discriminate.
  - split; [discriminate|]. intros (y' & m' & H & _). discriminate.
Qed.

(** X23. The periods offered when the requested one is not found: one label
    [month/year] for each pair of a year and a month, both other than 0,
    that some row has, each label once, joined by a comma and a blank.
    Rows that lack the year or the month offer nothing. *)
Theorem availablePeriods_labels (allData : list Row) :
  availablePeriods allData = join ", " (periods_of allData) /\
  List.NoDup (periods_of allData) /\
  (forall s, In s (periods_of allData) <->
     exists row y m,
       In row allData /\ Ano row = Some y /\ y <> 0 /\ Mes row = Some m /\ m <> 0 /\
       s = String.append (month_name m) (String.append "/" (Z_toString y))).
Proof.
  split; [reflexivity|]. split; [apply Set_values_NoDup|].
  intros s. unfold periods_of. rewrite Set_values_In, filter_In.
  rewrite <- list_elem_of_In, list_elem_of_omap. split.
  - intros [(row & Hrow & Hl) _]. apply period_label_Some in Hl
      as (y & m & HA & Hy & HM & Hm & ->).
    exists row, y, m. apply list_elem_of_In in Hrow. repeat split; assumption.
  - intros (row & y & m & Hrow & HA & Hy & HM & Hm & ->). split.
    + exists row. split; [now apply list_elem_of_In|].
      apply period_label_Some. exists y, m. repeat split; assumption.
    + apply negb_true_iff, String.eqb_neq.
      destruct (month_name m); discriminate.
Qed.

(** *** From the stored rows to the analysis *)

(** The rows that the handler analyses: the filtered rows, or all rows
    when the filter leaves none. *)
Definition analysed (userQuery : string) (sheets : list Sheet) : list Row :=
  let allData := consolidate sheets in
  let filteredData := filterData allData (parseQuery userQuery allData) in
  if (0 <? List.length filteredData)%nat then filteredData else allData.

(** The requested period is not found: the filter leaves no row and the
    query names a year or a month. *)
Definition period_missing (userQuery : string) (sheets : list Sheet) : bool :=
  let allData := consolidate sheets in
  let context := parseQuery userQuery allData in
  (List.length (filterData allData context) =? 0)%nat
  && (nonempty (years context) || nonempty (months context)).

Lemma analysed_nil (userQuery : string) (sheets : list Sheet) :
  analysed userQuery sheets = [] <-> consolidate sheets = [].
Proof.
  unfold analysed. cbv zeta.
  destruct (filterData (consolidate sheets) _) as [|r rest] eqn:E; cbn [List.length].
  - change (0 <? 0)%nat with false. cbv iota. tauto.
  - change (0 <? S (List.length rest))%nat with true. cbv iota.
    split; [discriminate|]. intros H. rewrite H in E. discriminate.
Qed.

Section Handler.
Variable NumberToString : number -> string.
Variable LOVABLE_API_KEY : option string.

Lemma respond_eq (userQuery : string) (sheets : list Sheet) :
  sheets <> [] ->
  respond NumberToString LOVABLE_API_KEY userQuery (Some sheets) =
  if period_missing userQuery sheets
  then PeriodNotFound (availablePeriods (consolidate sheets))
  else match analyzeData NumberToString (analysed userQuery sheets)
               (parseQuery userQuery (consolidate sheets)) with
       | Throw _ => ServerError
       | Normal analysis =>
           if key_missing LOVABLE_API_KEY then ServerError
           else Narrate analysis
                  (scopeDesc
                     (List.length (filterData (consolidate sheets)
                                     (parseQuery userQuery (consolidate sheets))))
                     (List.length (consolidate sheets)) (List.length sheets))
       end.
Proof. intros Hne. destruct sheets; [contradiction | reflexivity]. Qed.

Lemma respond_Narrate (userQuery : string) (sheets : list Sheet)
    (analysis : AnalysisResult) (scope : string) :
  respond NumberToString LOVABLE_API_KEY userQuery (Some sheets)
    = Narrate analysis scope ->
  sheets <> [] /\ period_missing userQuery sheets = false /\
  analyzeData NumberToString (analysed userQuery sheets)
    (parseQuery userQuery (consolidate sheets)) = Normal analysis /\
  scope = scopeDesc
            (List.length (filterData (consolidate sheets)
                            (parseQuery userQuery (consolidate sheets))))
            (List.length (consolidate sheets)) (List.length sheets).
Proof.
  intros H.
  assert (Hne : sheets <> [])
    by (intros ->; simpl in H; destruct (key_missing _); discriminate).
  rewrite (respond_eq _ _ Hne) in H.
  destruct (period_missing userQuery sheets); [discriminate|].
  destruct (analyzeData _ _ _) as [a|e]; [|discriminate].
  destruct (key_missing _); [discriminate|].
  injection H as <- <-. repeat split; assumption.
Qed.

(** X24. When the handler hands an analysis to the language model, that
    analysis carries the marker of no data only if the stored
    spreadsheets hold no row at all: as soon as there is a row, an empty
    selection is replaced by all rows and the analysis counts at least
    one record. *)
Theorem respond_analyses_rows (userQuery : string) (sheets : list Sheet)
    (analysis : AnalysisResult) (scope : string) :
  respond NumberToString LOVABLE_API_KEY userQuery (Some sheets)
    = Narrate analysis scope ->
  (erro analysis = None <-> consolidate sheets <> []) /\
  (consolidate sheets <> [] ->
   total_registros analysis = Z.of_nat (List.length (analysed userQuery sheets)) /\
   1 <= total_registros analysis) /\
  (consolidate sheets = [] -> erro analysis = Some erro_sem_dados).
Proof.
  intros H. apply respond_Narrate in H as (_ & _ & Ha & _).
  destruct (analysed userQuery sheets) as [|r rest] eqn:E.
  - apply (proj1 (analysed_nil userQuery sheets)) in E. rewrite analyzeData_empty in Ha. injection Ha as <-.
    cbn [erro]. split; [split; [discriminate | congruence]|].
    split; [congruence | reflexivity].
  - assert (Hall : consolidate sheets <> []).
    { intros Hnil. apply (proj2 (analysed_nil userQuery sheets)) in Hnil. congruence. }
    pose proof (analyzeData_cases NumberToString (r :: rest)
                  (parseQuery userQuery (consolidate sheets)) ltac:(discriminate)) as Hc.
    rewrite Ha in Hc. destruct Hc as (_ & Ht & He & _).
    split; [split; [intros _; exact Hall | intros _; exact He]|].
    split; [|contradiction].
    intros _. split; [exact Ht|]. rewrite Ht. cbn [List.length]. lia.
Qed.

(** X25. When no stored row passes the products, categories and regions that
    the query names, and the query names no year or month, the analysis
    is made on all rows, yet the scope handed to the language model
    reads as a filtered analysis of 0 records out of all. *)
Theorem respond_scope_of_empty_filter (userQuery : string) (sheets : list Sheet)
    (analysis : AnalysisResult) (scope : string) :
  respond NumberToString LOVABLE_API_KEY userQuery (Some sheets)
    = Narrate analysis scope ->
  consolidate sheets <> [] ->
  filterData (consolidate sheets) (parseQuery userQuery (consolidate sheets)) = [] ->
  total_registros analysis = Z.of_nat (List.length (consolidate sheets)) /\
  scope =
    String.append analise (String.append " filtrada (0 de "
      (String.append (Z_toString (Z.of_nat (List.length (consolidate sheets))))
                     " registros)")).
Proof.
  intros H Hall Hfilter.
  pose proof H as H'. apply respond_Narrate in H' as (_ & _ & Ha & ->).
  assert (Hsel : analysed userQuery sheets = consolidate sheets)
    by (unfold analysed; cbv zeta; now rewrite Hfilter).
  rewrite Hsel in Ha.
  pose proof (analyzeData_cases NumberToString (consolidate sheets)
                (parseQuery userQuery (consolidate sheets)) Hall) as Hc.
  rewrite Ha in Hc. destruct Hc as (_ & Ht & _).
  split; [exact Ht|]. rewrite Hfilter. unfold scopeDesc. cbn [List.length].
  destruct (consolidate sheets) as [|r rest]; [contradiction|]. reflexivity.
Qed.

Lemma Mes_None_dec (data : list Row) :
  (exists row, In row data /\ Mes row = None) \/
  (forall row, In row data -> Mes row <> None).
Proof.
  induction data as [|r data IH].
  - right. intros row [].
  - destruct (Mes r) as [m|] eqn:E.
    + destruct IH as [(row & Hrow & Hm)|Hall].
      * left. exists row. split; [now right | assumption].
      * right. intros row [<-|Hrow]; [congruence | now apply Hall].
    + left. exists r. split; [now left | assumption].
Qed.

Lemma two_elements {A : Type} (l : list A) :
  List.NoDup l -> (1 < List.length l)%nat ->
  exists a b, In a l /\ In b l /\ a <> b.
Proof.
  destruct l as [|a [|b l]]; simpl; try lia.
  intros Hnd _. exists a, b.
  apply NoDup_cons_iff in Hnd as [Ha _]. simpl in Ha.
  split; [tauto|]. split; [tauto|]. intros ->. tauto.
Qed.

(** [analyzeData] throws exactly when a comparison is asked for over rows
    some of which have a month and some of which have none. *)
Lemma analyzeData_Throw_iff (data : list Row) (context : QueryContext) :
  (exists e, analyzeData NumberToString data context = Throw e) <->
  comparison context = true /\
  (exists row, In row data /\ Mes row = None) /\
  (exists row, In row data /\ Mes row <> None).
Proof.
  split.
  - intros [e He].
    destruct data as [|r0 rest]; [rewrite analyzeData_empty in He; discriminate|].
    pose proof (analyzeData_cases NumberToString (r0 :: rest) context
                  ltac:(discriminate)) as Hc.
    rewrite He in Hc. destruct Hc as [Hcmp Hthrow].
    unfold compares in Hcmp. apply andb_true_iff in Hcmp as [Hcmp Hlen].
    split; [exact Hcmp|].
    assert (Hnone : exists row, In row (r0 :: rest) /\ Mes row = None).
    { destruct (Mes_None_dec (r0 :: rest)) as [H|H]; [exact H|].
      destruct (monthly_of_returns (r0 :: rest) H) as (ms & Hms). congruence. }
    split; [exact Hnone|].
    rewrite Array_sort_length in Hlen. apply Nat.ltb_lt in Hlen.
    destruct (two_elements _ (Set_values_NoDup _) Hlen) as (a & b & Ha & Hb & Hab).
    apply (proj1 (Set_values_In _ _)) in Ha, Hb.
    apply in_map_iff in Ha as (ra & <- & Hra). apply in_map_iff in Hb as (rb & <- & Hrb).
    destruct (Mes ra) eqn:Ea.
    + exists ra. split; [assumption | congruence].
    + exists rb. split; [assumption | congruence].
  - intros (Hcmp & Hnone & Hsome). eexists.
    now apply analyzeData_throws.
Qed.

(** X26. When there is a spreadsheet, the requested period is not missing,
    and a comparison is asked for over analysed rows some of which have a
    month and some of which have none, the handler fails before it asks
    the language model and answers with the status 500. *)
Theorem respond_ServerError (userQuery : string) (sheets : list Sheet) :
  sheets <> [] ->
  period_missing userQuery sheets = false ->
  comparison (parseQuery userQuery (consolidate sheets)) = true ->
  (exists row, In row (analysed userQuery sheets) /\ Mes row = None) ->
  (exists row, In row (analysed userQuery sheets) /\ Mes row <> None) ->
  respond NumberToString LOVABLE_API_KEY userQuery (Some sheets) = ServerError.
Proof.
  intros Hne Hmiss Hcmp Hnone Hsome.
  destruct (proj2 (analyzeData_Throw_iff (analysed userQuery sheets)
                     (parseQuery userQuery (consolidate sheets)))
                  (conj Hcmp (conj Hnone Hsome))) as [e He].
  now rewrite (respond_eq _ _ Hne), Hmiss, He.
Qed.

End Handler.

Definition estoque : list Sheet :=
  [ Some [ mkRow (Some 2024) (Some 1) (Some "Caneta") (Some "Papelaria") (Some "Sul")
                 (Some (num_of_Z 4)) (Some (num_of_Z 400));
           mkRow (Some 2024) (Some 2) (Some "Mesa") (Some "Moveis") (Some "Norte")
                 (Some (num_of_Z 1)) (Some (num_of_Z 900)) ];
    None ].

Lemma respond_analyses_rows_witness :
  exists analysis scope,
    respond (fun _ => "") (Some "chave") "total geral" (Some estoque)
      = Narrate analysis scope /\
    erro analysis = None /\ 1 <= total_registros analysis.
Proof.
  destruct (respond (fun _ => "") (Some "chave") "total geral" (Some estoque))
    as [| |analysis scope|] eqn:E; try (vm_compute in E; discriminate).
  exists analysis, scope. split; [reflexivity|].
  destruct (respond_analyses_rows (fun _ => "") (Some "chave") "total geral" estoque
              analysis scope E)
    as (He & Ht & _).
  split; [apply He; discriminate | apply Ht; discriminate].
Defined.

Lemma respond_scope_of_empty_filter_witness :
  exists analysis scope,
    respond (fun _ => "") (Some "chave") "caneta moveis" (Some estoque)
      = Narrate analysis scope /\
    total_registros analysis = 2 /\
    scope = String.append analise " filtrada (0 de 2 registros)".
Proof.
  destruct (respond (fun _ => "") (Some "chave") "caneta moveis" (Some estoque))
    as [| |analysis scope|] eqn:E; try (vm_compute in E; discriminate).
  exists analysis, scope. split; [reflexivity|].
  exact (respond_scope_of_empty_filter (fun _ => "") (Some "chave") "caneta moveis"
           estoque analysis scope E ltac:(discriminate) eq_refl).
Defined.

(** A spreadsheet with a row whose date did not parse, and a question
    about growth. *)
Definition estoque_sem_data : list Sheet :=
  [ Some [ venda 2024 1 "Caneta" 4 400; venda_sem_data "Lapis" 2 50 ] ].

Lemma respond_ServerError_witness :
  respond (fun _ => "") (Some "chave") "qual o crescimento?" (Some estoque_sem_data)
  = ServerError.
Proof.
  apply respond_ServerError.
  - discriminate.
  - reflexivity.
  - reflexivity.
  - exists (venda_sem_data "Lapis" 2 50). split; [right; left|]; reflexivity.
  - exists (venda 2024 1 "Caneta" 4 400). split; [left; reflexivity | discriminate].
Defined.

End ChatProps.
